(** * Base-id allocation of the F Prime topology model (TopoFactory.py)

    A shallow embedding of the id-range analysis, the per-instance
    resolution of base id and window, and the merge of fixed and floating
    candidates, as written in
    [Autocoders/Python/src/fprime_ac/models/TopoFactory.py].

    Conventions of the embedding:
    - Python [int] is [Z]; [None] is the [None] of an [option];
    - Python [str] is [string]; only ASCII text is considered;
    - a raised exception is the [Err] of [result], lines sent to the
      [PRINT] logger are collected in order in the first component of [M];
    - the builtins [int(s, base)], [float(s)] and [int(x)] on a float are
      modelled after CPython's parsers, the binary64 rounding of a decimal
      literal being computed exactly on integers. *)

From Stdlib Require Import ZArith List Bool Lia.
From Stdlib Require Import Strings.String Strings.Ascii Numbers.DecimalString.
From Stdlib Require Import Sorting.Permutation Sorting.Sorted.
From Stdlib Require Numbers.HexadecimalString.
Import ListNotations.

Open Scope string_scope.
Open Scope Z_scope.

(* ================================================================= *)
(** ** Exceptions and the logger *)

Module Py.

(** The exceptions that the modelled code can raise.  An invalid literal
    carries the base and the offending text, as CPython's message
    ["invalid literal for int() with base b: 'text'"] does. *)
Inductive exn : Type :=
| ValueError_int (base : Z) (literal : string)
| ValueError_float (literal : string)
| ValueError_nan
| OverflowError_inf
| TypeError
| IndexError
| SystemExit (printed : string) (code : Z)
| Exception (msg : string).

Inductive result (A : Type) : Type :=
| Ok (a : A)
| Err (e : exn).
Arguments Ok {A} a.
Arguments Err {A} e.

Definition rbind {A B} (r : result A) (f : A -> result B) : result B :=
  match r with
  | Ok a => f a
  | Err e => Err e
  end.

(** [str(n)] for an int. *)
Definition str (z : Z) : string := NilZero.string_of_int (Z.to_int z).

(* ----------------------------------------------------------------- *)
(** *** Characters *)

Definition code (c : ascii) : Z := Z.of_nat (nat_of_ascii c).

(** What [int()] and [float()] strip from both ends of an ASCII [str]:
    [Py_ISSPACE], the codes 9 to 13 and 32. *)
Definition is_space (c : ascii) : bool :=
  let n := code c in
  ((9 <=? n) && (n <=? 13)) || (n =? 32).

Definition is_digit (c : ascii) : bool :=
  let n := code c in (48 <=? n) && (n <=? 57).

(** Value of a character as a digit in bases up to 36 ([_PyLong_DigitValue]). *)
Definition digit_value (c : ascii) : option Z :=
  let n := code c in
  if (48 <=? n) && (n <=? 57) then Some (n - 48)
  else if (97 <=? n) && (n <=? 122) then Some (n - 87)
  else if (65 <=? n) && (n <=? 90) then Some (n - 55)
  else None.

Definition lower (c : ascii) : ascii :=
  let n := code c in
  if (65 <=? n) && (n <=? 90) then ascii_of_nat (Z.to_nat (n + 32)) else c.

Fixpoint lstrip (s : list ascii) : list ascii :=
  match s with
  | c :: r => if is_space c then lstrip r else s
  | [] => []
  end.

Definition strip (s : list ascii) : list ascii :=
  rev (lstrip (rev (lstrip s))).

(* ----------------------------------------------------------------- *)
(** *** [int(s, base)] *)

(** Digits of [base] with single underscores between them; [prev_us] tells
    that the previous character was an underscore.  Returns the value and
    the number of digits, or [None] at the first character that is neither,
    at a doubled or a trailing underscore. *)
Fixpoint digits_us (base : Z) (s : list ascii) (acc : Z) (n : nat)
         (prev_us : bool) : option (Z * nat) :=
  match s with
  | [] => if prev_us then None else Some (acc, n)
  | c :: r =>
      if Ascii.eqb c "_"%char then
        if prev_us then None else digits_us base r acc n true
      else
        match digit_value c with
        | Some d =>
            if d <? base then digits_us base r (acc * base + d) (S n) false
            else None
        | None => None
        end
  end.

Definition split_sign (s : list ascii) : bool * list ascii :=
  match s with
  | "+"%char :: r => (false, r)
  | "-"%char :: r => (true, r)
  | _ => (false, s)
  end.

(** The base that [base = 0] selects from the prefix, and whether a
    non-zero value is then refused (a C-style octal literal). *)
Definition detect_base (s : list ascii) : Z * bool :=
  match s with
  | "0"%char :: c :: _ =>
      match lower c with
      | "x"%char => (16, false)
      | "o"%char => (8, false)
      | "b"%char => (2, false)
      | _ => (10, true)
      end
  | "0"%char :: [] => (10, true)
  | _ => (10, false)
  end.

Definition strip_prefix (base : Z) (s : list ascii) : list ascii :=
  match s with
  | "0"%char :: c :: r =>
      let l := lower c in
      if ((base =? 16) && Ascii.eqb l "x"%char)
         || ((base =? 8) && Ascii.eqb l "o"%char)
         || ((base =? 2) && Ascii.eqb l "b"%char)
      then match r with
           | "_"%char :: r' => r'
           | _ => r
           end
      else s
  | _ => s
  end.

(** [PyLong_FromString] on the text without surrounding white space. *)
Definition parse_int (base : Z) (s : list ascii) : option Z :=
  let '(neg, s1) := split_sign s in
  let '(b, nonzero_refused) :=
    if base =? 0 then detect_base s1 else (base, false) in
  let s2 := strip_prefix b s1 in
  match s2 with
  | "_"%char :: _ => None
  | _ =>
      match digits_us b s2 0 0%nat false with
      | Some (v, S _) =>
          if nonzero_refused && negb (v =? 0) then None
          else Some (if neg then - v else v)
      | _ => None
      end
  end.

Definition int_of_str (base : Z) (s : string) : result Z :=
  match parse_int base (strip (list_ascii_of_string s)) with
  | Some v => Ok v
  | None => Err (ValueError_int base s)
  end.

(* ----------------------------------------------------------------- *)
(** *** [float(s)] and [int(x)] on a float *)

(** A binary64 value: not a number, an infinity, or [(-1)^neg * m * 2^e]. *)
Inductive pyfloat : Type :=
| F_nan
| F_inf (neg : bool)
| F_fin (neg : bool) (m e : Z).

(** Does [2^k <= p / q] hold? *)
Definition ge_pow2 (p q k : Z) : bool :=
  if 0 <=? k then q * 2 ^ k <=? p else q <=? p * 2 ^ (- k).

(** Round the positive rational [p / q] to the nearest binary64, ties to
    even: 53 bits of precision, least exponent -1074, overflow to infinity. *)
Definition round_binary64 (neg : bool) (p q : Z) : pyfloat :=
  if p =? 0 then F_fin neg 0 0
  else
    let k0 := Z.log2 p - Z.log2 q in
    let k := if ge_pow2 p q k0 then k0 else k0 - 1 in
    let ex := Z.max (k - 52) (-1074) in
    let num := if 0 <=? ex then p else p * 2 ^ (- ex) in
    let den := if 0 <=? ex then q * 2 ^ ex else q in
    let n0 := num / den in
    let r := num mod den in
    let n := if 2 * r <? den then n0
             else if den <? 2 * r then n0 + 1
             else if Z.even n0 then n0 else n0 + 1 in
    if (0 <=? ex) && (2 ^ 1024 <=? n * 2 ^ ex) then F_inf neg
    else F_fin neg n ex.

(** The value [m * 10^e10] as a binary64. *)
Definition float_of_decimal (neg : bool) (m e10 : Z) : pyfloat :=
  if 0 <=? e10 then round_binary64 neg (m * 10 ^ e10) 1
  else round_binary64 neg m (10 ^ (- e10)).

(** Underscores of a float literal: only between two digits; they are
    removed ([_Py_string_to_number_with_underscores]). *)
Fixpoint remove_underscores (prev : option ascii) (s : list ascii)
  : option (list ascii) :=
  match s with
  | [] =>
      match prev with
      | Some "_"%char => None
      | _ => Some []
      end
  | c :: r =>
      if Ascii.eqb c "_"%char then
        match prev with
        | Some d => if is_digit d then remove_underscores (Some c) r else None
        | None => None
        end
      else
        match prev with
        | Some "_"%char =>
            if is_digit c
            then option_map (cons c) (remove_underscores (Some c) r)
            else None
        | _ => option_map (cons c) (remove_underscores (Some c) r)
        end
  end.

(** The longest prefix of decimal digits: its value, its length, the rest. *)
Fixpoint take_digits (s : list ascii) (acc : Z) (n : nat)
  : Z * nat * list ascii :=
  match s with
  | c :: r =>
      if is_digit c then take_digits r (acc * 10 + (code c - 48)) (S n)
      else (acc, n, s)
  | [] => (acc, n, [])
  end.

(** The exponent part; a part without digits is not an exponent and is left
    in place, which makes the literal invalid. *)
Definition take_exponent (s : list ascii) : option Z :=
  match s with
  | [] => Some 0
  | c :: r =>
      if Ascii.eqb (lower c) "e"%char then
        let '(neg, r1) := split_sign r in
        match take_digits r1 0 0%nat with
        | (v, S _, []) => Some (if neg then - v else v)
        | _ => None
        end
      else None
  end.

Definition parse_float (s : list ascii) : option pyfloat :=
  let '(neg, s1) := split_sign s in
  let word := string_of_list_ascii (map lower s1) in
  if String.eqb word "inf" || String.eqb word "infinity" then Some (F_inf neg)
  else if String.eqb word "nan" then Some F_nan
  else
    let '(i, ni, s2) := take_digits s1 0 0%nat in
    let '(m, nf, s3) :=
      match s2 with
      | "."%char :: r => let '(m, nf, s3) := take_digits r i 0%nat in (m, nf, s3)
      | _ => (i, 0%nat, s2)
      end in
    match (ni + nf)%nat with
    | O => None
    | S _ =>
        match take_exponent s3 with
        | Some ex => Some (float_of_decimal neg m (ex - Z.of_nat nf))
        | None => None
        end
    end.

Definition float_of_str (s : string) : result pyfloat :=
  match remove_underscores None (strip (list_ascii_of_string s)) with
  | Some t =>
      match parse_float t with
      | Some x => Ok x
      | None => Err (ValueError_float s)
      end
  | None => Err (ValueError_float s)
  end.

(** [int(x)]: truncation towards zero. *)
Definition int_of_float (x : pyfloat) : result Z :=
  match x with
  | F_nan => Err ValueError_nan
  | F_inf _ => Err OverflowError_inf
  | F_fin neg m e =>
      let a := if 0 <=? e then m * 2 ^ e else m / 2 ^ (- e) in
      Ok (if neg then - a else a)
  end.

Definition is_ValueError (e : exn) : bool :=
  match e with
  | ValueError_int _ _ | ValueError_float _ | ValueError_nan => true
  | _ => false
  end.

Definition is_TypeError (e : exn) : bool :=
  match e with
  | TypeError => true
  | _ => false
  end.

(** [try: body  except (classes): handler]. *)
Definition try_except {A} (body : result A) (caught : exn -> bool)
           (handler : result A) : result A :=
  match body with
  | Ok a => Ok a
  | Err e => if caught e then handler else Err e
  end.

End Py.

(* ================================================================= *)
(** ** The parsed model handed to the factory *)

(** The objects of the XML parsers are seen through their getters only:
    an event, channel and parameter give the list [get_ids()], a command the
    list [get_opcodes()], a parameter also [get_set_opcodes()] and
    [get_save_opcodes()]; the texts are the raw attribute values. *)
Record Event : Type := { event_ids : list string }.
Record Channel : Type := { channel_ids : list string }.
Record Command : Type := { command_opcodes : list string }.
Record Param : Type := {
  parameter_ids : list string;
  parameter_set_opcodes : list string;
  parameter_save_opcodes : list string
}.

(** An [XmlComponentParser] object; [comp_name] is
    [get_component().get_name()]. *)
Record CompXml : Type := {
  comp_name : string;
  comp_events : list Event;
  comp_channels : list Channel;
  comp_commands : list Command;
  comp_parameters : list Param
}.

(** A topology instance: [get_name()], [get_type()], [get_base_id()],
    [get_base_id_window()] and [get_component_object()]. *)
Record Instance : Type := {
  inst_name : string;
  inst_type : string;
  inst_base_id : option string;
  inst_base_id_window : option string;
  inst_component_object : option CompXml
}.

Definition set_component_object (i : Instance) (c : CompXml) : Instance :=
  {| inst_name := inst_name i;
     inst_type := inst_type i;
     inst_base_id := inst_base_id i;
     inst_base_id_window := inst_base_id_window i;
     inst_component_object := Some c |}.

(** The list [[n, b, w, inst, range, amount]] built by [__set_base_id_list]. *)
Record Cand : Type := {
  c_name : string;
  c_base : option Z;
  c_window : Z;
  c_inst : Instance;
  c_range : option Z;
  c_amount : option Z
}.

(** [t[1] = b] on a candidate. *)
Definition set_base (t : Cand) (b : Z) : Cand :=
  {| c_name := c_name t;
     c_base := Some b;
     c_window := c_window t;
     c_inst := c_inst t;
     c_range := c_range t;
     c_amount := c_amount t |}.

(* ================================================================= *)
(** ** Computations that log and may raise *)

Module LogM.
Import Py.

Definition M (A : Type) : Type := (list string * result A)%type.

Definition ret {A} (a : A) : M A := ([], Ok a).
Definition raise {A} (e : exn) : M A := ([], Err e).
Definition lift {A} (r : result A) : M A := ([], r).
(** [PRINT.info(line)]. *)
Definition info (line : string) : M unit := ([line], Ok tt).

Definition bind {A B} (m : M A) (f : A -> M B) : M B :=
  match m with
  | (l1, Ok a) => let '(l2, r) := f a in ((l1 ++ l2)%list, r)
  | (l1, Err e) => (l1, Err e)
  end.

(** [for x in xs: s = body(s, x)]. *)
Fixpoint for_each {S X} (body : S -> X -> M S) (xs : list X) (s : S) : M S :=
  match xs with
  | [] => ret s
  | x :: r => bind (body s x) (for_each body r)
  end.

End LogM.

Declare Scope py_scope.
Delimit Scope py_scope with py.
Notation "x <- m ;; k" := (LogM.bind m (fun x => k))
  (at level 61, m at next level, right associativity) : py_scope.
Notation "m ;;; k" := (LogM.bind m (fun _ => k))
  (at level 61, right associativity) : py_scope.
Notation "x <-- r ;; k" := (Py.rbind r (fun x => k))
  (at level 61, r at next level, right associativity) : py_scope.
Notation "' p <- m ;; k" := (LogM.bind m (fun p => k))
  (at level 61, p pattern, m at next level, right associativity) : py_scope.
Notation "' p <-- r ;; k" := (Py.rbind r (fun p => k))
  (at level 61, p pattern, r at next level, right associativity) : py_scope.
Open Scope py_scope.

(* ================================================================= *)
(** ** TopoFactory *)

Module TopoFactory.
Import Py LogM.

(** [__id_to_int]. *)
Definition id_to_int (id_string : string) : result Z :=
  try_except
    (x <-- float_of_str id_string ;; int_of_float x)
    (fun e => is_TypeError e || is_ValueError e)
    (int_of_str 16 id_string).

(** [l[0]]. *)
Definition index0 {A} (l : list A) : result A :=
  match l with
  | x :: _ => Ok x
  | [] => Err IndexError
  end.

(** [id in l]. *)
Definition mem (id : Z) (l : list Z) : bool := existsb (Z.eqb id) l.

(** [if highest_ID is None or id > highest_ID: highest_ID = id]. *)
Definition bump (highest_ID : option Z) (id : Z) : option Z :=
  match highest_ID with
  | None => Some id
  | Some h => if id >? h then Some id else Some h
  end.

(** The lines printed before [sys.exit(-1)]. *)
Definition collision_msg (what : string) (id : Z) (comp : string)
           (how : string) : string :=
  "IDCollisionError: " ++ what ++ " " ++ str id ++ " in component " ++ comp
  ++ " is " ++ how.

Definition used_twice : string := "used more than once in the same component.".
Definition same_as_command : string :=
  "the same as another command id in this component.".

Definition collision {A} (what : string) (id : Z) (comp how : string)
  : result A :=
  Err (SystemExit (collision_msg what id comp how) (-1)).

(** One turn of the loops over events, channels and commands: the state is
    the pair of [highest_ID] and the list of the ids seen in this loop. *)
Definition check_id (what comp : string) (st : option Z * list Z)
           (ids : list string) : result (option Z * list Z) :=
  let '(highest_ID, id_list) := st in
  s <-- index0 ids ;;
  id <-- id_to_int s ;;
  if mem id id_list then collision what id comp used_twice
  else Ok (bump highest_ID id, (id_list ++ [id])%list).

(** [for x in xs: s = body(s, x)] for code that does not log. *)
Fixpoint rfor_each {S X} (body : S -> X -> result S) (xs : list X) (s : S)
  : result S :=
  match xs with
  | [] => Ok s
  | x :: r => s' <-- body s x ;; rfor_each body r s'
  end.

(** A set or save opcode of a parameter. *)
Definition check_opcode (what comp : string) (command_id_list : list Z)
           (st : option Z * list Z) (ops : list string)
  : result (option Z * list Z) :=
  let '(highest_ID, parameter_opcode_list) := st in
  s <-- index0 ops ;;
  id <-- id_to_int s ;;
  if mem id parameter_opcode_list then collision what id comp used_twice
  else if mem id command_id_list then collision what id comp same_as_command
  else Ok (bump highest_ID id, (parameter_opcode_list ++ [id])%list).

(** One turn of the loop over parameters: the state is [highest_ID],
    [parameter_id_list] and [parameter_opcode_list]. *)
Definition check_parameter (comp : string) (command_id_list : list Z)
           (st : option Z * list Z * list Z) (p : Param)
  : result (option Z * list Z * list Z) :=
  let '(highest_ID, parameter_id_list, parameter_opcode_list) := st in
  '(h1, ids) <-- check_id "Parameter ID" comp (highest_ID, parameter_id_list)
                          (parameter_ids p) ;;
  '(h2, ops1) <-- check_opcode "Parameter set opcode" comp command_id_list
                               (h1, parameter_opcode_list)
                               (parameter_set_opcodes p) ;;
  '(h3, ops2) <-- check_opcode "Parameter save opcode" comp command_id_list
                               (h2, ops1) (parameter_save_opcodes p) ;;
  Ok (h3, ids, ops2).

(** [__compute_component_base_id_range]. *)
Definition compute_component_base_id_range (comp_xml : option CompXml)
  : result (option Z) :=
  match comp_xml with
  | None => Ok None
  | Some c =>
      let n := comp_name c in
      '(h1, _) <-- rfor_each (check_id "Event ID" n)
                             (map event_ids (comp_events c)) (None, []) ;;
      '(h2, _) <-- rfor_each (check_id "Channel ID" n)
                             (map channel_ids (comp_channels c)) (h1, []) ;;
      '(h3, command_id_list) <--
         rfor_each (check_id "Command ID" n)
                   (map command_opcodes (comp_commands c)) (h2, []) ;;
      '(h4, _, _) <-- rfor_each (check_parameter n command_id_list)
                                (comp_parameters c) (h3, [], []) ;;
      match h4 with
      | Some highest_ID => Ok (Some (highest_ID + 1))
      | None => Ok None
      end
  end.

Definition len {A} (l : list A) : Z := Z.of_nat (List.length l).

(** [__compute_component_ID_amount]. *)
Definition compute_component_ID_amount (comp_xml : option CompXml)
  : option Z :=
  match comp_xml with
  | Some c =>
      Some (Z.max (Z.max (Z.max (len (comp_events c))
                                (len (comp_channels c)
                                 + 2 * len (comp_parameters c)))
                         (len (comp_commands c)))
                  (len (comp_parameters c)))
  | None => None
  end.

(* ----------------------------------------------------------------- *)
(** *** [__set_base_id_list] *)

Definition msg_offset (n : string) (b : Z) : string :=
  "WARNING: " ++ n ++ " instance adding instance supplied base ID to the topology supplied base ID (New ID is "
  ++ str b ++ ") because instance supplied base ID is smaller than the topology supplied base ID.".

Definition msg_reset (n : string) (b : Z) : string :=
  "WARNING: " ++ n ++ " instance resetting base id to " ++ str b.

Definition msg_window_instance (n : string) (w : Z) : string :=
  n ++ " instance resetting base id window range to instance specified size ("
  ++ str w ++ ")".

Definition msg_window_default (n : string) (w : Z) : string :=
  n ++ " instance resetting base id window range to default topology size ("
  ++ str w ++ ")".

Definition msg_window_component (n : string) (w : Z) : string :=
  n ++ " instance resetting base id window range to size calculated from the component XML file ("
  ++ str w ++ ")".

Definition msg_undersized (n : string) (w r : Z) : string :=
  "ERROR: The specified window range for component " ++ n ++ " is " ++ str w
  ++ ", which is smaller than the calculated window range of " ++ str r
  ++ ". Please check the instance definitions in the topology xml file.".

(** The base id of the candidate. *)
Definition resolve_base (id : Z) (n : string) (base_id : option string)
  : M (option Z) :=
  match base_id with
  | None => ret None
  | Some s =>
      v <- lift (int_of_str 0 s) ;;
      b <- (if id >? Z.abs v
            then info (msg_offset n (Z.abs v + id)) ;;; ret (Z.abs v + id)
            else ret (Z.abs v)) ;;
      info (msg_reset n b) ;;;
      ret (Some b)
  end.

(** The window of the candidate; [size > None] is a [TypeError]. *)
Definition resolve_window (size : Z) (n : string)
           (base_id_window : option string)
           (component_calculated_window_range : option Z) : M Z :=
  match base_id_window with
  | Some s =>
      v <- lift (int_of_str 0 s) ;;
      info (msg_window_instance n (Z.abs v)) ;;;
      ret (Z.abs v)
  | None =>
      match component_calculated_window_range with
      | None => raise TypeError
      | Some r =>
          if size >? r
          then info (msg_window_default n size) ;;; ret size
          else info (msg_window_component n r) ;;; ret r
      end
  end.

Definition set_base_id_list (id size : Z) (inst : Instance) : M Cand :=
  let comp := inst_component_object inst in
  let n := inst_name inst in
  b <- resolve_base id n (inst_base_id inst) ;;
  component_calculated_window_range <-
    lift (compute_component_base_id_range comp) ;;
  w <- resolve_window size n (inst_base_id_window inst)
                      component_calculated_window_range ;;
  match component_calculated_window_range with
  | Some r => if w <? r then info (msg_undersized n w r) else ret tt
  | None => ret tt
  end ;;;
  ret {| c_name := n;
         c_base := b;
         c_window := w;
         c_inst := inst;
         c_range := component_calculated_window_range;
         c_amount := compute_component_ID_amount comp |}.

(* ----------------------------------------------------------------- *)
(** *** [__compute_base_ids] *)

(** Reading an int out of a slot that may hold [None]. *)
Definition the_int (x : option Z) : result Z :=
  match x with
  | Some z => Ok z
  | None => Err TypeError
  end.

(** [a < b] on keys. *)
Definition key_lt (a b : option Z) : result bool :=
  x <-- the_int a ;; y <-- the_int b ;; Ok (x <? y).

(** [list.sort(key=...)] is stable; it is modelled by a stable insertion
    sort, which compares every element of a list of two or more. *)
Fixpoint insert_by (key : Cand -> option Z) (x : Cand) (l : list Cand)
  : result (list Cand) :=
  match l with
  | [] => Ok [x]
  | y :: r =>
      c <-- key_lt (key y) (key x) ;;
      if c then r' <-- insert_by key x r ;; Ok (y :: r')
      else Ok (x :: y :: r)
  end.

Fixpoint sort_by (key : Cand -> option Z) (l : list Cand)
  : result (list Cand) :=
  match l with
  | [] => Ok []
  | x :: r => r' <-- sort_by key r ;; insert_by key x r'
  end.

Definition msg_base_collision (name : string) (b : Z) (prev_name : string)
           (prev_id prev_window : Z) : string :=
  "Component " ++ name ++ " has a base ID " ++ str b
  ++ " which collides with the allocated IDs for component " ++ prev_name
  ++ " (base ID " ++ str prev_id ++ " , window ID " ++ str prev_window ++ ")".

(** One turn of pass 3; the state is [prev_name], [prev_id], [prev_window]. *)
Definition check_collision (st : string * Z * Z) (t : Cand)
  : M (string * Z * Z) :=
  let '(prev_name, prev_id, prev_window) := st in
  b <- lift (the_int (c_base t)) ;;
  if b <? prev_id + prev_window then
    let err := msg_base_collision (c_name t) b prev_name prev_id prev_window in
    info err ;;; raise (Exception err)
  else ret (c_name t, b, c_window t).

(** The variables of the merge loop of pass 4. *)
Record MergeState : Type := {
  initial_comp_with_ID : list Cand;
  initial_comp_without_ID : list Cand;
  with_ID_obj : option Cand;
  without_ID_obj : option Cand;
  prev_id : Z;
  prev_window : Z;
  out_base_ids_list : list Cand
}.

(** The negated condition of the [while]. *)
Definition merge_done (st : MergeState) : bool :=
  match initial_comp_with_ID st, initial_comp_without_ID st,
        with_ID_obj st, without_ID_obj st with
  | [], [], None, None => true
  | _, _, _, _ => false
  end.

(** [if l and obj is None: obj = l.pop(0)]. *)
Definition pop_pending (l : list Cand) (obj : option Cand)
  : list Cand * option Cand :=
  match l, obj with
  | x :: r, None => (r, Some x)
  | _, _ => (l, obj)
  end.

(** The body of the [while]. *)
Definition merge_step (st : MergeState) : result MergeState :=
  let '(wl, wo) := pop_pending (initial_comp_with_ID st) (with_ID_obj st) in
  let '(fl, fo) :=
    pop_pending (initial_comp_without_ID st) (without_ID_obj st) in
  let next_poss_id := prev_id st + prev_window st in
  let out := out_base_ids_list st in
  let finish wo' fo' (t : Cand) :=
    b <-- the_int (c_base t) ;;
    Ok {| initial_comp_with_ID := wl;
          initial_comp_without_ID := fl;
          with_ID_obj := wo';
          without_ID_obj := fo';
          prev_id := b;
          prev_window := c_window t;
          out_base_ids_list := (out ++ [t])%list |} in
  match wo, fo with
  | None, Some f => finish None None (set_base f next_poss_id)
  | Some w, None => finish None None w
  | Some w, Some f =>
      b <-- the_int (c_base w) ;;
      if next_poss_id + c_window f <=? b
      then finish (Some w) None (set_base f next_poss_id)
      else finish None (Some f) w
  | None, None => Err TypeError
  end.

(** The [while] loop, run for at most [fuel] turns; by [merge_loop_exits]
    one turn for each candidate, as given in [passes], reaches the exit. *)
Fixpoint merge_loop (fuel : nat) (st : MergeState) : result MergeState :=
  if merge_done st then Ok st
  else
    match fuel with
    | O => Ok st
    | S fuel' => st' <-- merge_step st ;; merge_loop fuel' st'
    end.

Definition msg_default_base (v : string) : string :=
  "WARNING: No assembly base Id set, defaulting to " ++ v.
Definition msg_default_window (v : string) : string :=
  "WARNING: No assembly base Id window size set, defaulting to " ++ v.

(** [value if value is not None else config default], with its log line. *)
Definition or_default (value : option string) (default : string)
           (msg : string -> string) : M string :=
  match value with
  | Some v => ret v
  | None => info (msg default) ;;; ret default
  end.

(** One turn of pass 1; the state is the pair of [initial_comp_with_ID] and
    [initial_comp_without_ID]. *)
Definition pass1_step (id window : Z) (st : list Cand * list Cand)
           (inst : Instance) : M (list Cand * list Cand) :=
  let '(with_ID, without_ID) := st in
  t <- set_base_id_list id window inst ;;
  match inst_base_id inst with
  | None => ret (with_ID, (without_ID ++ [t])%list)
  | Some _ => ret ((with_ID ++ [t])%list, without_ID)
  end.

(** Passes 1 to 4 of [__compute_base_ids]: resolve the candidates, sort the
    two lists, check the explicit base ids against each other, merge.
    [id] is the assembly base id after the clamp, [window] the assembly
    window. *)
Definition passes (id window : Z) (instances : list Instance)
  : M (list Cand) :=
  (* Pass 1 *)
  '(with_ID, without_ID) <- for_each (pass1_step id window) instances ([], []) ;;
  (* Pass 2 *)
  with_ID <- lift (sort_by c_base with_ID) ;;
  without_ID <- lift (sort_by (fun x => Some (c_window x)) without_ID) ;;
  (* Pass 3 *)
  for_each check_collision with_ID ("NONE", 0, 0) ;;;
  (* Pass 4 *)
  st <- lift (merge_loop (List.length with_ID + List.length without_ID)
                {| initial_comp_with_ID := with_ID;
                   initial_comp_without_ID := without_ID;
                   with_ID_obj := None;
                   without_ID_obj := None;
                   prev_id := id;
                   prev_window := 0;
                   out_base_ids_list := [] |}) ;;
  ret (out_base_ids_list st).

Section ComputeBaseIds.

(** The defaults [config.get("assembly", "baseID")] and
    [config.get("assembly", "window")] of the configuration manager. *)
Variable config_baseID config_window : string.

(** [__compute_base_ids], up to the list it returns.  Pass 5 renders that
    list as a table for the logger and the list file and returns it as it
    is; the table is left out. *)
Definition compute_base_ids (assembly_base_id assembly_window : option string)
           (instances : list Instance) : M (list Cand) :=
  assembly_base_id <- or_default assembly_base_id config_baseID
                                 msg_default_base ;;
  assembly_window <- or_default assembly_window config_window
                                msg_default_window ;;
  assembly_base_id <- lift (int_of_str 10 assembly_base_id) ;;
  assembly_window <- lift (int_of_str 10 assembly_window) ;;
  let id := if assembly_base_id <=? 0 then 1 else assembly_base_id in
  let window := assembly_window in
  passes id window instances.

(* ----------------------------------------------------------------- *)
(** *** [create], as far as the base ids *)

Definition msg_missing_component (type : string) : string :=
  "Component XML file type " ++ type
  ++ " was not specified in the topology XML. Please specify the path using <import_component_type> tags.".

(** [d[k]] and [k in d.keys()] on the dictionary from component names to
    parsed components. *)
Fixpoint dict_get (d : list (string * CompXml)) (k : string) : option CompXml :=
  match d with
  | [] => None
  | (k', v) :: r => if String.eqb k k' then Some v else dict_get r k
  end.

(** The loop of [create] over the instances: an instance of a known type
    gets its component object, an instance of another type is reported and
    keeps the one it has. *)
Definition link_instance (componentXMLNameToComponent : list (string * CompXml))
           (done : list Instance) (instance : Instance) : M (list Instance) :=
  match dict_get componentXMLNameToComponent (inst_type instance) with
  | None =>
      info (msg_missing_component (inst_type instance)) ;;;
      ret (done ++ [instance])%list
  | Some c => ret (done ++ [set_component_object instance c])%list
  end.

(** [create] from the dictionary of parsed components to
    [instance_name_base_id_list]; the ports and the [Topology] object built
    afterwards do not take part in the base ids. *)
Definition create (generate_new_IDS : bool)
           (componentXMLNameToComponent : list (string * CompXml))
           (assembly_base_id assembly_window : option string)
           (instances : list Instance) : M (list Cand) :=
  instances <- for_each (link_instance componentXMLNameToComponent)
                        instances [] ;;
  if generate_new_IDS
  then compute_base_ids assembly_base_id assembly_window instances
  else ret [].

End ComputeBaseIds.

End TopoFactory.

(* ================================================================= *)
(** ** Pass 5: the base id table *)

Module Table.
Import Py LogM TopoFactory.

(* ----------------------------------------------------------------- *)
(** *** Builtins on strings *)

(** The line feed of ["\n"]. *)
Definition nl : string := String "010"%char EmptyString.

(** [len(s)]. *)
Definition slen (s : string) : Z := Z.of_nat (String.length s).

Fixpoint copies (n : nat) (s : string) : string :=
  match n with
  | O => ""
  | S k => s ++ copies k s
  end.

(** [n * s]; no copy at all for [n <= 0]. *)
Definition times (n : Z) (s : string) : string := copies (Z.to_nat n) s.

Fixpoint take (n : nat) (s : string) : string :=
  match n, s with
  | S k, String c r => String c (take k r)
  | _, _ => ""
  end.

Fixpoint drop (n : nat) (s : string) : string :=
  match n, s with
  | S k, String _ r => drop k r
  | _, _ => s
  end.

(** The position of a slice bound [n] in [s]: counted from the end when
    negative, and clipped to the string. *)
Definition cut (n : Z) (s : string) : nat :=
  Z.to_nat (if n <? 0 then slen s + n else n).

(** [s[:n]] and [s[n:]]. *)
Definition upto (n : Z) (s : string) : string := take (cut n s) s.
Definition from (n : Z) (s : string) : string := drop (cut n s) s.

(** [hex(n)]. *)
Definition hex (n : Z) : string :=
  (if n <? 0 then "-0x" else "0x")
  ++ HexadecimalString.NilZero.string_of_uint (N.to_hex_uint (Z.abs_N n)).

(** [str(x)] for an int or [None]. *)
Definition str_opt (x : option Z) : string :=
  match x with
  | Some n => str n
  | None => "None"
  end.

(** ["{0:^" + str(width) + "}"] applied to [s], for [0 <= width]: [s]
    centred among blanks, the odd blank on the right; [s] itself when it
    is not shorter than [width]. *)
Definition center (width : Z) (s : string) : string :=
  let pad := width - slen s in
  if pad <=? 0 then s
  else times (pad / 2) " " ++ s ++ times (pad - pad / 2) " ".

(** [l[i] = x] for an index inside the list. *)
Fixpoint set_item (l : list string) (i : nat) (x : string) : list string :=
  match l, i with
  | [], _ => []
  | _ :: r, O => x :: r
  | y :: r, S k => y :: set_item r k x
  end.

(* ----------------------------------------------------------------- *)
(** *** The table *)

(** [self.__table_info]: column header, blanks on each side of it, and
    description. *)
Definition table_info : list (string * Z * string) :=
  [ ("INSTANCE NAME", 5, "Name of the instance object.");
    ("BASE ID (HEX)", 0, "Base ID set for the instance.");
    ("REQUESTED WINDOW SIZE", 0,
     "Specified by either the 'base_id_range' attribute in the instance tag or by finding the max of the 'base_id_range' attribute in the topology tag and the largest internal ID of the instance.");
    ("DIFFERENCED ID WINDOW SIZE", 0,
     "Calculated by subtracting the current base ID from the next base ID.");
    ("LARGEST COMPONENT INTERNAL ID", 0,
     "The largest ID found in the events, channels, and commands of the instance.");
    ("MAX AMOUNT OF IDS", 0,
     "The largest amount of items from either events, channels, or commands.") ].

(** The second argument of [__print_base_id_table]: a difference of base
    ids, or the text of the last row. *)
Inductive window_size : Type :=
| Size (n : Z)
| Text (s : string).

(** [str(actual_window_size)]. *)
Definition str_window (w : window_size) : string :=
  match w with
  | Size n => str n
  | Text s => s
  end.

Definition header_cell (header : string * Z * string) : string :=
  let '(h0, h1, _) := header in times h1 " " ++ h0 ++ times h1 " ".

(** The header line, [" | ".join(...)]. *)
Definition header_line : string :=
  String.concat " | " (map header_cell table_info).

Definition table_header_size : list Z :=
  map (fun header : string * Z * string =>
         let '(h0, h1, _) := header in slen h0 + 2 * h1) table_info.

(** One turn of [for i in range(len(self.__table_info))]; the state is
    [data_row] and [row_string]. *)
Definition cell_step (st : list string * string) (i : nat)
  : result (list string * string) :=
  let '(data_row, row_string) := st in
  match nth_error data_row i, nth_error table_header_size i with
  | Some d, Some size =>
      let curr_write_string := upto size d in
      let data_row := set_item data_row i (from size d) in
      let row_string :=
        if (i =? 0)%nat then row_string else row_string ++ " | " in
      Ok (data_row, row_string ++ center size curr_write_string)
  | _, _ => Err IndexError
  end.

Definition all_items_length_zero (data_row : list string) : bool :=
  forallb (fun data_item => slen data_item =? 0) data_row.

(** The [while True] loop of [__print_base_id_table], at most [fuel]
    turns of it; the state is [data_row] and [save_buffer]. *)
Fixpoint rows (fuel : nat) (data_row : list string) (save_buffer : string)
  : M (list string * string) :=
  if all_items_length_zero data_row then ret (data_row, save_buffer)
  else
    match fuel with
    | O => ret (data_row, save_buffer)
    | S fuel' =>
        '(data_row, row_string) <-
          lift (rfor_each cell_step (seq 0 (List.length table_info))
                          (data_row, "")) ;;
        let save_buffer := save_buffer ++ row_string ++ nl in
        info row_string ;;;
        rows fuel' data_row save_buffer
    end.

(** Turns that exhaust every item of [data_row]. *)
Definition turns (data_row : list string) : nat :=
  fold_right (fun data_item n => (String.length data_item + n)%nat) O data_row.

Section Report.

(** [get_base_max_id_window] of a parsed instance; the class of the parsed
    instances is not part of these sources. *)
Variable get_base_max_id_window : Instance -> option string.

(** [__print_base_id_table]. *)
Definition print_base_id_table (base_id_tuple : option Cand)
           (actual_window_size : window_size) (save_buffer : string)
  : M string :=
  match base_id_tuple with
  | None =>
      let print_item := header_line in
      let save_buffer := save_buffer ++ print_item ++ nl in
      info print_item ;;;
      ret save_buffer
  | Some t =>
      let ns := match get_base_max_id_window (c_inst t) with
                | None => " (D)"
                | Some _ => ""
                end in
      b <- lift (the_int (c_base t)) ;;
      let data_row :=
        [ c_name t;
          str b ++ " (" ++ hex b ++ ")";
          str (c_window t) ++ ns;
          str_window actual_window_size;
          str_opt (c_range t);
          str_opt (c_amount t) ] in
      '(_, save_buffer) <- rows (turns data_row) data_row save_buffer ;;
      ret save_buffer
  end.

(** The first loop of [__print_base_id_table_comments]; the state is
    [tableSize] and [largestColHeader]. *)
Definition sizes_step (st : Z * Z) (header : string * Z * string) : Z * Z :=
  let '(tableSize, largestColHeader) := st in
  let '(h0, h1, _) := header in
  let headerLen := slen h0 in
  (tableSize + (headerLen + 2 * h1),
   if headerLen >? largestColHeader then headerLen else largestColHeader).

(** The loop [while desc != ""], at most [fuel] turns of it; the state is
    [desc], [firstRun] and [save_buffer]. *)
Fixpoint wrap (fuel : nat) (tableSize tabLen : Z)
         (st : string * bool * string) : M (string * bool * string) :=
  let '(desc, firstRun, save_buffer) := st in
  if String.eqb desc "" then ret st
  else
    match fuel with
    | O => ret st
    | S fuel' =>
        let '(outString, desc) :=
          if firstRun
          then (upto tableSize desc, from tableSize desc)
          else
            let newSize := tableSize - tabLen in
            (times tabLen " " ++ upto newSize desc, from newSize desc) in
        let print_item :=
          "| " ++ outString ++ times (tableSize - slen outString) " " ++ " |" in
        info print_item ;;;
        wrap fuel' tableSize tabLen (desc, false, save_buffer ++ print_item ++ nl)
    end.

(** One turn of the second loop of [__print_base_id_table_comments]. *)
Definition describe (tableSize largestColHeader : Z) (save_buffer : string)
           (header : string * Z * string) : M string :=
  let '(h0, _, h2) := header in
  let tabLen := largestColHeader + 3 in
  let headerLen := slen h0 in
  let desc := h0 ++ times (largestColHeader - headerLen) " " ++ " - " ++ h2 in
  '(_, _, save_buffer) <-
    wrap (String.length desc) tableSize tabLen (desc, true, save_buffer) ;;
  ret save_buffer.

(** [__print_base_id_table_comments]. *)
Definition print_base_id_table_comments (save_buffer : string) : M string :=
  let '(tableSize, largestColHeader) :=
    fold_left sizes_step table_info (0, 0) in
  let print_item := times (tableSize + 4) "-" in
  info print_item ;;;
  let save_buffer := save_buffer ++ print_item ++ nl in
  save_buffer <-
    for_each (describe tableSize largestColHeader) table_info save_buffer ;;
  let print_item := times (tableSize + 4) "-" in
  info print_item ;;;
  ret (save_buffer ++ print_item ++ nl).

(** One turn of the loop of pass 5; the state is [prev], [act_wind] and
    [save_buffer]. *)
Definition pass5_step (st : option Cand * window_size * string) (t : Cand)
  : M (option Cand * window_size * string) :=
  let '(prev, act_wind, save_buffer) := st in
  act_wind <-
    lift (match prev with
          | Some p =>
              x <-- the_int (c_base t) ;;
              y <-- the_int (c_base p) ;;
              Ok (Size (x - y))
          | None => Ok act_wind
          end) ;;
  save_buffer <- print_base_id_table prev act_wind save_buffer ;;
  ret (Some t, act_wind, save_buffer).

(** Pass 5 of [__compute_base_ids] up to [save_buffer], the text that is
    written to the list file when one is asked for. *)
Definition pass5 (out_base_ids_list : list Cand) : M string :=
  '(prev, _, save_buffer) <-
    for_each pass5_step out_base_ids_list (None, Size 0, "") ;;
  save_buffer <- print_base_id_table prev (Text "inf.") save_buffer ;;
  print_base_id_table_comments save_buffer.

(** [__compute_base_ids] with pass 5: the list it returns, and
    [save_buffer]. *)
Definition compute_base_ids_with_table (config_baseID config_window : string)
           (assembly_base_id assembly_window : option string)
           (instances : list Instance) : M (list Cand * string) :=
  out_base_ids_list <-
    compute_base_ids config_baseID config_window
                     assembly_base_id assembly_window instances ;;
  save_buffer <- pass5 out_base_ids_list ;;
  ret (out_base_ids_list, save_buffer).

End Report.

End Table.

(* ================================================================= *)
(** ** Notions used to state the properties *)

Module Props.
Import Py LogM TopoFactory.

(** The number that one item of a component declares: [get_ids()[0]], or an
    opcode list in its place, read by [__id_to_int]. *)
Definition first_int (ids : list string) : result Z :=
  s <-- index0 ids ;; id_to_int s.

Definition ids_of (xs : list (list string)) (vs : list Z) : Prop :=
  Forall2 (fun ids v => first_int ids = Ok v) xs vs.

(** The id, the set opcode and the save opcode of a parameter. *)
Definition param_of (p : Param) (t : Z * Z * Z) : Prop :=
  let '(i, s, v) := t in
  first_int (parameter_ids p) = Ok i
  /\ first_int (parameter_set_opcodes p) = Ok s
  /\ first_int (parameter_save_opcodes p) = Ok v.

(** The numbers of a component whose literals can all be read. *)
Record Parsed (c : CompXml) (evs chs cmds : list Z)
       (params : list (Z * Z * Z)) : Prop := {
  parsed_events : ids_of (map event_ids (comp_events c)) evs;
  parsed_channels : ids_of (map channel_ids (comp_channels c)) chs;
  parsed_commands : ids_of (map command_opcodes (comp_commands c)) cmds;
  parsed_parameters : Forall2 param_of (comp_parameters c) params
}.

Definition param_ids (params : list (Z * Z * Z)) : list Z :=
  map (fun t => fst (fst t)) params.

(** The set and save opcodes, in the order of the declarations. *)
Definition param_opcodes (params : list (Z * Z * Z)) : list Z :=
  flat_map (fun t => [snd (fst t); snd t]) params.

Definition param_numbers (params : list (Z * Z * Z)) : list Z :=
  flat_map (fun t => [fst (fst t); snd (fst t); snd t]) params.

(** Every id and opcode of the component. *)
Definition all_numbers (evs chs cmds : list Z) (params : list (Z * Z * Z))
  : list Z :=
  (evs ++ chs ++ cmds ++ param_numbers params)%list.

(** The three id spaces in which a repeated number is a collision, and the
    parameter ids, which the code checks as well. *)
Definition collision_free (evs chs cmds : list Z)
           (params : list (Z * Z * Z)) : Prop :=
  NoDup evs /\ NoDup chs /\ NoDup (cmds ++ param_opcodes params)
  /\ NoDup (param_ids params).

(** [id] is used twice in one of the id spaces. *)
Definition repeated_in (id : Z) (evs chs cmds : list Z)
           (params : list (Z * Z * Z)) : Prop :=
  (2 <= count_occ Z.eq_dec evs id
   \/ 2 <= count_occ Z.eq_dec chs id
   \/ 2 <= count_occ Z.eq_dec (cmds ++ param_opcodes params) id
   \/ 2 <= count_occ Z.eq_dec (param_ids params) id)%nat.

(** Following the specification: one plus the greatest number declared,
    nothing when no number is declared. *)
Definition spec_required_range (numbers : list Z) : option Z :=
  match numbers with
  | [] => None
  | x :: r => Some (fold_left Z.max r x + 1)
  end.

(** A literal that is absent, or that [int(_, 0)] reads as [v]. *)
Definition literal (text : option string) (value : option Z) : Prop :=
  match text with
  | None => value = None
  | Some s => exists v, int_of_str 0 s = Ok v /\ value = Some v
  end.

(** Following the specification: the explicit window of the instance in
    absolute value, else the assembly default when it exceeds the required
    range, else the required range.  Without an explicit window and without
    a required range the three steps give no number; there the resolver
    raises a [TypeError]. *)
Definition spec_window (explicit : option Z) (assembly_default : Z)
           (required_range : option Z) : option Z :=
  match explicit, required_range with
  | Some v, _ => Some (Z.abs v)
  | None, Some r => Some (if assembly_default >? r then assembly_default else r)
  | None, None => None
  end.

(** The line logged for a window below the required range. *)
Definition undersized_log (n : string) (w : Z) (required_range : option Z)
  : list string :=
  match required_range with
  | Some r => if w <? r then [msg_undersized n w r] else []
  | None => []
  end.

(** The base id resolved from an explicit literal of absolute value [a]
    over the floor [id]. *)
Definition offset_base (id a : Z) : Z := if id >? a then a + id else a.

(** The assembly base id after the clamp of [__compute_base_ids]. *)
Definition floor_id (assembly_base_id : Z) : Z :=
  if assembly_base_id <=? 0 then 1 else assembly_base_id.

(** The text of an assembly attribute: its value, or the configured one. *)
Definition assembly_text (value : option string) (default : string) : string :=
  match value with
  | Some v => v
  | None => default
  end.

(** The candidates that pass 1 resolves for the instances, in their order. *)
Definition resolved (id window : Z) (instances : list Instance)
           (cands : list Cand) : Prop :=
  Forall2 (fun inst c => exists l, set_base_id_list id window inst = (l, Ok c))
          instances cands.

(** A candidate with an explicit base id. *)
Definition explicit (c : Cand) : bool :=
  match c_base c with
  | Some _ => true
  | None => false
  end.

Definition floating (c : Cand) : bool := negb (explicit c).

Definition has_base (c : Cand) : Prop := exists b, c_base c = Some b.

(** Order of two candidates under a sort key. *)
Definition key_le (key : Cand -> option Z) (a b : Cand) : Prop :=
  exists x y, key a = Some x /\ key b = Some y /\ x <= y.

Definition window_key (c : Cand) : option Z := Some (c_window c).

(** [np] is at most the first base id, and every base id is at least the
    end of the window before it. *)
Fixpoint chain (np : Z) (l : list Cand) : Prop :=
  match l with
  | [] => True
  | c :: r => exists b, c_base c = Some b /\ np <= b
                        /\ chain (b + c_window c) r
  end.

(** The end of the last window of [l], [np] for the empty list. *)
Fixpoint chain_end (np : Z) (l : list Cand) : Z :=
  match l with
  | [] => np
  | c :: r =>
      match c_base c with
      | Some b => chain_end (b + c_window c) r
      | None => chain_end np r
      end
  end.

(** The windows of [l] laid back to back from [np]. *)
Fixpoint place (np : Z) (l : list Cand) : list Cand :=
  match l with
  | [] => []
  | c :: r => set_base c np :: place (np + c_window c) r
  end.

(** No entry starts before the end of the window of an earlier entry. *)
Definition non_overlapping (out : list Cand) : Prop :=
  forall i j ci cj,
    (i < j)%nat -> nth_error out i = Some ci -> nth_error out j = Some cj ->
    exists bi bj, c_base ci = Some bi /\ c_base cj = Some bj
                  /\ bi + c_window ci <= bj.

(** [p] comes right before [t] in [l]. *)
Definition adjacent (p t : Cand) (l : list Cand) : Prop :=
  exists pre post, l = (pre ++ p :: t :: post)%list.

(** [t] starts inside the window of [p]. *)
Definition collide (p t : Cand) : Prop :=
  exists bp bt, c_base p = Some bp /\ c_base t = Some bt
                /\ bt < bp + c_window p.

(** The candidates still to be placed, and the next possible id. *)
Definition option_list {A} (x : option A) : list A :=
  match x with
  | Some a => [a]
  | None => []
  end.

Definition pending_with (st : MergeState) : list Cand :=
  (option_list (with_ID_obj st) ++ initial_comp_with_ID st)%list.

Definition pending_without (st : MergeState) : list Cand :=
  (option_list (without_ID_obj st) ++ initial_comp_without_ID st)%list.

Definition next_poss_id (st : MergeState) : Z := prev_id st + prev_window st.

(** One turn of the merge loop, seen on the pending candidates: either the
    first floating candidate is placed at the next possible id, when no
    fixed one is pending or it ends at or before the first fixed one; or
    the first fixed candidate is placed at its own base id. *)
Inductive placed (st st' : MergeState) : Prop :=
| placed_floating f fs :
    pending_without st = f :: fs ->
    (pending_with st = []
     \/ exists w ws b, pending_with st = w :: ws /\ c_base w = Some b
                       /\ next_poss_id st + c_window f <= b) ->
    pending_with st' = pending_with st ->
    pending_without st' = fs ->
    out_base_ids_list st'
    = (out_base_ids_list st ++ [set_base f (next_poss_id st)])%list ->
    prev_id st' = next_poss_id st ->
    prev_window st' = c_window f ->
    placed st st'
| placed_fixed w ws b :
    pending_with st = w :: ws ->
    c_base w = Some b ->
    (pending_without st = []
     \/ exists f fs, pending_without st = f :: fs
                     /\ b < next_poss_id st + c_window f) ->
    pending_with st' = ws ->
    pending_without st' = pending_without st ->
    out_base_ids_list st' = (out_base_ids_list st ++ [w])%list ->
    prev_id st' = b ->
    prev_window st' = c_window w ->
    placed st st'.

(** The state in which pass 4 starts. *)
Definition merge_start (with_ID without_ID : list Cand) (id : Z) : MergeState :=
  {| initial_comp_with_ID := with_ID;
     initial_comp_without_ID := without_ID;
     with_ID_obj := None;
     without_ID_obj := None;
     prev_id := id;
     prev_window := 0;
     out_base_ids_list := [] |}.

(** What every turn keeps: the output is a chain that ends at the next
    possible id, the pending fixed candidates continue it, no fixed
    candidate is lost, and without fixed candidates the output is the
    back-to-back placement. *)
Definition merge_inv (id : Z) (F S : list Cand) (st : MergeState) : Prop :=
  chain id (out_base_ids_list st)
  /\ chain_end id (out_base_ids_list st) = next_poss_id st
  /\ chain (next_poss_id st) (pending_with st)
  /\ (forall c, In c F -> In c (out_base_ids_list st) \/ In c (pending_with st))
  /\ (F = [] ->
      pending_with st = []
      /\ (out_base_ids_list st
            ++ place (next_poss_id st) (pending_without st))%list
         = place id S).

(** A candidate without its base id: what pass 4 never changes. *)
Definition forget_base (c : Cand)
  : string * Z * Instance * option Z * option Z :=
  (c_name c, c_window c, c_inst c, c_range c, c_amount c).

(** The instance of the candidate gives an explicit base id. *)
Definition fixed_instance (c : Cand) : Prop :=
  inst_base_id (c_inst c) <> None.

(** Every entry has a base id, and an entry whose instance gives no
    explicit base id starts exactly where the entry before it ends, the
    first one at [np]. *)
Fixpoint packed (np : Z) (l : list Cand) : Prop :=
  match l with
  | [] => True
  | c :: r => exists b, c_base c = Some b
                        /\ (inst_base_id (c_inst c) = None -> b = np)
                        /\ packed (b + c_window c) r
  end.

(** What every turn of the merge loop keeps, beside [merge_inv]: the
    pending fixed candidates have base ids and come from instances with
    explicit base ids; output and pending candidates together are the
    candidates the loop started with, up to base ids; without floating
    candidates the output and the pending fixed candidates are the fixed
    list itself; the output is packed. *)
Definition merge_kept (id : Z) (F S : list Cand) (st : MergeState) : Prop :=
  Forall has_base (pending_with st)
  /\ Forall fixed_instance (pending_with st)
  /\ Permutation
       (map forget_base
            (out_base_ids_list st ++ pending_with st ++ pending_without st))
       (map forget_base (F ++ S))
  /\ (S = [] ->
      pending_without st = []
      /\ (out_base_ids_list st ++ pending_with st)%list = F)
  /\ packed id (out_base_ids_list st)
  /\ chain_end id (out_base_ids_list st) = next_poss_id st.

(** The errors that the analysis of a component can raise. *)
Inductive analysis_error (comp : string) : exn -> Prop :=
| error_no_id : analysis_error comp IndexError
| error_literal s : analysis_error comp (ValueError_int 16 s)
| error_infinite : analysis_error comp OverflowError_inf
| error_collision what id how :
    analysis_error comp (SystemExit (collision_msg what id comp how) (-1)).

(** The lines logged for the assembly attributes that are absent. *)
Definition defaults_log (cfgb cfgw : string) (ab aw : option string)
  : list string :=
  (match ab with Some _ => [] | None => [msg_default_base cfgb] end
   ++ match aw with Some _ => [] | None => [msg_default_window cfgw] end)%list.

(** The instance as the loop of [create] leaves it, and the line logged
    for it. *)
Definition linked (d : list (string * CompXml)) (i : Instance) : Instance :=
  match dict_get d (inst_type i) with
  | Some c => set_component_object i c
  | None => i
  end.

Definition missing_log (d : list (string * CompXml)) (insts : list Instance)
  : list string :=
  flat_map (fun i => match dict_get d (inst_type i) with
                     | Some _ => []
                     | None => [msg_missing_component (inst_type i)]
                     end) insts.

(** The number that a list of digits of [base] denotes. *)
Definition is_digit_of (base : Z) (c : ascii) : Prop :=
  exists d, digit_value c = Some d /\ d < base.

Definition digit_of (c : ascii) : Z :=
  match digit_value c with
  | Some d => d
  | None => 0
  end.

Definition number_of (base : Z) (ds : list ascii) : Z :=
  fold_left (fun acc c => acc * base + digit_of c) ds 0.

End Props.

(* ================================================================= *)
(** ** Notions for the base id table *)

Module TableProps.
Import Py LogM TopoFactory Table Props.

(** The text of a list of lines, each one ended by a line feed. *)
Fixpoint lines (l : list string) : string :=
  match l with
  | [] => ""
  | s :: r => s ++ nl ++ lines r
  end.

(** The base id of a candidate that has one. *)
Definition base_of (c : Cand) : Z :=
  match c_base c with
  | Some b => b
  | None => 0
  end.

(** Every candidate with the distance to the base id of the next one, the
    last one with the text ["inf."]. *)
Fixpoint with_next (l : list Cand) : list (Cand * window_size) :=
  match l with
  | [] => []
  | t :: r =>
      (t, match r with
          | [] => Text "inf."
          | t' :: _ => Size (base_of t' - base_of t)
          end) :: with_next r
  end.

(** The rows that [__print_base_id_table] logs for a candidate. *)
Definition rows_of (get_base_max_id_window : Instance -> option string)
           (tw : Cand * window_size) : list string :=
  fst (print_base_id_table get_base_max_id_window (Some (fst tw)) (snd tw) "").

(** [__print_base_id_table] can print the tuple: the header, or a
    candidate with a base id. *)
Definition printable (t : option Cand) : bool :=
  match t with
  | Some c => explicit c
  | None => true
  end.

(** The lines of the box of descriptions under the table. *)
Definition box_lines : list string := fst (print_base_id_table_comments "").

End TableProps.

(* ================================================================= *)
(** ** Sample components and instances *)

Module Samples.

Definition sensor : CompXml :=
  {| comp_name := "Sensor";
     comp_events := [ {| event_ids := ["0x1A"] |}; {| event_ids := ["3"] |} ];
     comp_channels := [ {| channel_ids := ["3"] |} ];
     comp_commands := [ {| command_opcodes := ["7"] |} ];
     comp_parameters :=
       [ {| parameter_ids := ["3"];
            parameter_set_opcodes := ["40"];
            parameter_save_opcodes := ["41"] |} ] |}.

Definition instance (name : string) (base_id window : option string)
           (comp : option CompXml) : Instance :=
  {| inst_name := name;
     inst_type := "T";
     inst_base_id := base_id;
     inst_base_id_window := window;
     inst_component_object := comp |}.

(** An explicit window below the range that the component requires. *)
Definition undersized : Instance := instance "imu" None (Some "8") (Some sensor).

(** Negative literals, and the same instance with positive ones. *)
Definition negative : Instance := instance "gps" (Some "-5") (Some "-0x10") None.
Definition positive : Instance := instance "gps" (Some "5") (Some "0x10") None.

(** Three floating instances of components with negative ids, for an
    assembly window that is negative as well. *)
Definition below_zero (name id : string) : CompXml :=
  {| comp_name := name;
     comp_events := [ {| event_ids := [id] |} ];
     comp_channels := [];
     comp_commands := [];
     comp_parameters := [] |}.

Definition negative_windows : list Instance :=
  [ instance "A" None None (Some (below_zero "X" "-11"));
    instance "B" None None (Some (below_zero "Y" "-4"));
    instance "C" None None (Some (below_zero "Y" "-4")) ].

(** Two floating instances and a fixed one. *)
Definition mixed : list Instance :=
  [ instance "A" None (Some "20") (Some sensor);
    instance "B" (Some "50") (Some "10") None;
    instance "C" None None (Some sensor) ].

(** Floating instances only. *)
Definition all_floating : list Instance :=
  [ instance "A" None None (Some sensor);
    instance "B" None (Some "20") (Some sensor) ].

(** The colliding pair of the specification, and the second instance with
    another window. *)
Definition inst_C : Instance := instance "C" (Some "10") (Some "20") None.
Definition inst_D : Instance := instance "D" (Some "15") (Some "5") None.
Definition inst_D7 : Instance := instance "D" (Some "15") (Some "7") None.

(** An explicit base id of zero. *)
Definition at_zero : Instance := instance "Z" (Some "0") (Some "3") None.

(** An instance whose type has no parsed component. *)
Definition unknown : Instance :=
  {| inst_name := "ghost";
     inst_type := "Mystery";
     inst_base_id := None;
     inst_base_id_window := None;
     inst_component_object := None |}.

Definition unknown_with_window : Instance :=
  {| inst_name := "ghost";
     inst_type := "Mystery";
     inst_base_id := None;
     inst_base_id_window := Some "30";
     inst_component_object := None |}.

(** A component with the event id 5 declared twice. *)
Definition twice_five : CompXml :=
  {| comp_name := "Dup";
     comp_events := [ {| event_ids := ["5"] |}; {| event_ids := ["0x5"] |} ];
     comp_channels := [];
     comp_commands := [];
     comp_parameters := [] |}.

(** Instances with explicit base ids only. *)
Definition all_fixed : list Instance :=
  [ instance "B" (Some "50") (Some "10") None;
    instance "E" (Some "0x5") (Some "3") (Some sensor) ].

(** A component that declares nothing, and an instance of it without
    explicit window. *)
Definition silent : CompXml :=
  {| comp_name := "Silent";
     comp_events := [];
     comp_channels := [];
     comp_commands := [];
     comp_parameters := [] |}.

Definition passive : Instance := instance "hub" (Some "7") None (Some silent).

(** Two placed candidates; the name of the first one is longer than its
    column of the table. *)
Definition placed_pair : list Cand :=
  [ {| c_name := "attitude_determination_loop";
       c_base := Some 100;
       c_window := 200;
       c_inst := instance "attitude_determination_loop" None None (Some sensor);
       c_range := Some 42;
       c_amount := Some 3 |};
    {| c_name := "B";
       c_base := Some 300;
       c_window := 10;
       c_inst := instance "B" (Some "300") (Some "10") None;
       c_range := None;
       c_amount := None |} ].

End Samples.

(* ================================================================= *)
(** ** Properties of the numeric id parser *)

Module IdParser.
Import Py LogM TopoFactory Props.

Lemma id_to_int_float (s : string) (x : pyfloat) (z : Z) :
  float_of_str s = Ok x -> int_of_float x = Ok z -> id_to_int s = Ok z.
Proof.
  intros Hf Hi. unfold id_to_int. rewrite Hf. simpl. rewrite Hi. reflexivity.
Qed.

Lemma id_to_int_fallback (s : string) (e : exn) :
  float_of_str s = Err e -> id_to_int s = int_of_str 16 s.
Proof.
  intros Hf. unfold id_to_int. rewrite Hf. simpl.
  unfold float_of_str in Hf.
  destruct (remove_underscores None (strip (list_ascii_of_string s))) as [t|];
    [destruct (parse_float t)|]; inversion Hf; reflexivity.
Qed.

Lemma id_to_int_nan (s : string) :
  float_of_str s = Ok F_nan -> id_to_int s = int_of_str 16 s.
Proof.
  intros Hf. unfold id_to_int. rewrite Hf. reflexivity.
Qed.

Lemma float_of_str_error (s : string) (e : exn) :
  float_of_str s = Err e -> e = ValueError_float s.
Proof.
  unfold float_of_str.
  destruct (remove_underscores None (strip (list_ascii_of_string s))) as [t|];
    [destruct (parse_float t)|]; intros H; inversion H; reflexivity.
Qed.

Lemma int_of_str_error (base : Z) (s : string) (e : exn) :
  int_of_str base s = Err e -> e = ValueError_int base s.
Proof.
  unfold int_of_str.
  destruct (parse_int base (strip (list_ascii_of_string s)));
    intros H; inversion H; reflexivity.
Qed.

(** A text that [float] reads as an infinity is not tried as a hexadecimal
    number: [int(x)] raises [OverflowError], which the handler does not
    catch. *)
Lemma id_to_int_infinite (s : string) (neg : bool) :
  float_of_str s = Ok (F_inf neg) -> id_to_int s = Err OverflowError_inf.
Proof.
  intros Hf. unfold id_to_int. rewrite Hf. reflexivity.
Qed.

(** The stages of the id parser, for every text: a finite decimal reading
    is truncated, an infinite one raises, and a text that [float] refuses
    or reads as not-a-number is left to [int(_, 16)], whose error quotes
    the text. *)
Lemma id_to_int_stages (s : string) :
  match float_of_str s with
  | Ok (F_fin neg m e) => id_to_int s = int_of_float (F_fin neg m e)
  | Ok (F_inf _) => id_to_int s = Err OverflowError_inf
  | Ok F_nan | Err _ =>
      id_to_int s = int_of_str 16 s
      /\ ((exists z, int_of_str 16 s = Ok z)
          \/ int_of_str 16 s = Err (ValueError_int 16 s))
  end.
Proof.
  assert (Hhex : (exists z, int_of_str 16 s = Ok z)
                 \/ int_of_str 16 s = Err (ValueError_int 16 s)).
  { destruct (int_of_str 16 s) as [z|e] eqn:E.
    - left. exists z. reflexivity.
    - right. f_equal. eapply int_of_str_error; eassumption. }
  destruct (float_of_str s) as [x|e] eqn:E.
  - destruct x as [ | neg | neg m ex].
    + split; [exact (id_to_int_nan s E)|exact Hhex].
    + exact (id_to_int_infinite s neg E).
    + unfold id_to_int. rewrite E. reflexivity.
  - split; [exact (id_to_int_fallback s e E)|exact Hhex].
Qed.

(** The examples of the specification: ["0x1A"] and ["26"] give 26,
    ["10.0"] gives 10, and the empty text raises the [ValueError] that
    quotes it. *)
Example id_to_int_spec_samples :
  id_to_int "0x1A" = Ok 26
  /\ id_to_int "26" = Ok 26
  /\ id_to_int "10.0" = Ok 10
  /\ id_to_int "" = Err (ValueError_int 16 "").
Proof.
  split; [vm_compute; reflexivity|].
  split; [vm_compute; reflexivity|].
  split; vm_compute; reflexivity.
Qed.

(** C8. The fall back to hexadecimal is not reached when the decimal
    reading overflows: ["1e999"], the hexadecimal number 125337, is read by
    [float] as an infinity and [__id_to_int] raises [OverflowError]
    instead of returning 125337; ["inf"], which is no number, raises the
    same [OverflowError], which does not quote the text, where [int(_, 16)]
    would raise the [ValueError] that quotes it. *)
Theorem overflowing_literal_is_not_retried :
  float_of_str "1e999" = Ok (F_inf false)
  /\ id_to_int "1e999" = Err OverflowError_inf
  /\ int_of_str 16 "1e999" = Ok 125337
  /\ id_to_int "inf" = Err OverflowError_inf
  /\ int_of_str 16 "inf" = Err (ValueError_int 16 "inf").
Proof.
  split; [vm_compute; reflexivity|].
  split; [vm_compute; reflexivity|].
  split; [vm_compute; reflexivity|].
  split; vm_compute; reflexivity.
Qed.

(** The decimal reading wins where both apply, the hexadecimal reading is
    used for hexadecimal digits, and a text such as ["xyz"] is not numeric. *)
Example id_to_int_samples :
  id_to_int "1e3" = Ok 1000
  /\ id_to_int "ff" = Ok 255
  /\ id_to_int "-5" = Ok (-5)
  /\ id_to_int "xyz" = Err (ValueError_int 16 "xyz")
  /\ id_to_int "nan" = Err (ValueError_int 16 "nan")
  /\ id_to_int "inf" = Err OverflowError_inf.
Proof. vm_compute. repeat split. Qed.

End IdParser.

(* ================================================================= *)
(** ** Properties of the id range analysis *)

Module Analyzer.
Import Py LogM TopoFactory Props.

Lemma mem_In (id : Z) (l : list Z) : mem id l = true <-> In id l.
Proof.
  unfold mem. rewrite existsb_exists. split.
  - intros [x [Hin Heq]]. apply Z.eqb_eq in Heq. subst. exact Hin.
  - intros Hin. exists id. split; [exact Hin|apply Z.eqb_refl].
Qed.

Lemma mem_false (id : Z) (l : list Z) : mem id l = false <-> ~ In id l.
Proof.
  rewrite <- mem_In. destruct (mem id l); split; intros; congruence.
Qed.

Lemma NoDup_snoc (l : list Z) (x : Z) :
  NoDup (l ++ [x]) <-> NoDup l /\ ~ In x l.
Proof.
  split.
  - intros H. apply NoDup_remove in H. rewrite app_nil_r in H. exact H.
  - intros [H1 H2]. apply (Permutation_NoDup (l := x :: l)).
    + apply Permutation_cons_append.
    + constructor; assumption.
Qed.

Lemma count_occ_twice (l r : list Z) (x : Z) :
  In x l -> (2 <= count_occ Z.eq_dec (l ++ x :: r) x)%nat.
Proof.
  intros Hin. rewrite count_occ_app, count_occ_cons_eq by reflexivity.
  apply (count_occ_In Z.eq_dec) in Hin. lia.
Qed.

Lemma count_occ_mono_app (l r : list Z) (x : Z) (n : nat) :
  (n <= count_occ Z.eq_dec l x)%nat ->
  (n <= count_occ Z.eq_dec (l ++ r) x)%nat.
Proof. rewrite count_occ_app. lia. Qed.

Lemma count_occ_mono_app_r (l r : list Z) (x : Z) (n : nat) :
  (n <= count_occ Z.eq_dec r x)%nat ->
  (n <= count_occ Z.eq_dec (l ++ r) x)%nat.
Proof. rewrite count_occ_app. lia. Qed.

(** *** One turn of a loop *)

Lemma check_id_parsed what n h seen ids v :
  first_int ids = Ok v ->
  check_id what n (h, seen) ids
  = if mem v seen then collision what v n used_twice
    else Ok (bump h v, (seen ++ [v])%list).
Proof.
  unfold first_int, check_id. destruct (index0 ids) as [s|e]; simpl; [|discriminate].
  intros ->. reflexivity.
Qed.

Lemma check_id_Ok_inv what n h seen ids h' seen' :
  check_id what n (h, seen) ids = Ok (h', seen') ->
  exists v, first_int ids = Ok v /\ mem v seen = false
            /\ h' = bump h v /\ seen' = (seen ++ [v])%list.
Proof.
  unfold first_int, check_id. destruct (index0 ids) as [s|e]; simpl; [|discriminate].
  destruct (id_to_int s) as [v|e]; simpl; [|discriminate].
  destruct (mem v seen) eqn:E; [discriminate|].
  intros H. inversion H. exists v. auto.
Qed.

Lemma check_opcode_parsed what n cmds h seen ops v :
  first_int ops = Ok v ->
  check_opcode what n cmds (h, seen) ops
  = if mem v seen then collision what v n used_twice
    else if mem v cmds then collision what v n same_as_command
    else Ok (bump h v, (seen ++ [v])%list).
Proof.
  unfold first_int, check_opcode.
  destruct (index0 ops) as [s|e]; simpl; [|discriminate].
  intros ->. reflexivity.
Qed.

Lemma check_opcode_Ok_inv what n cmds h seen ops h' seen' :
  check_opcode what n cmds (h, seen) ops = Ok (h', seen') ->
  exists v, first_int ops = Ok v /\ mem v seen = false /\ mem v cmds = false
            /\ h' = bump h v /\ seen' = (seen ++ [v])%list.
Proof.
  unfold first_int, check_opcode.
  destruct (index0 ops) as [s|e]; simpl; [|discriminate].
  destruct (id_to_int s) as [v|e]; simpl; [|discriminate].
  destruct (mem v seen) eqn:E; [discriminate|].
  destruct (mem v cmds) eqn:E'; [discriminate|].
  intros H. inversion H. exists v. auto.
Qed.

(** *** The loops over events, channels and commands *)

Lemma ids_loop_Ok what n xs : forall h seen vs,
  ids_of xs vs -> NoDup (seen ++ vs) ->
  rfor_each (check_id what n) xs (h, seen)
  = Ok (fold_left bump vs h, (seen ++ vs)%list).
Proof.
  induction xs as [|x xs IH]; intros h seen vs Hp Hnd; inversion Hp; subst.
  - simpl. rewrite app_nil_r. reflexivity.
  - cbn [rfor_each]. rewrite (check_id_parsed what n h seen x y) by assumption.
    assert (Hm : mem y seen = false).
    { apply mem_false. intros Hin. apply NoDup_remove_2 in Hnd.
      apply Hnd. apply in_or_app. left. exact Hin. }
    rewrite Hm. cbn [rbind].
    rewrite (IH (bump h y) (seen ++ [y])%list l') by
        (try assumption; rewrite <- app_assoc; exact Hnd).
    rewrite <- app_assoc. reflexivity.
Qed.

Lemma ids_loop_collision what n xs : forall h seen vs,
  ids_of xs vs -> NoDup seen -> ~ NoDup (seen ++ vs) ->
  exists id, rfor_each (check_id what n) xs (h, seen)
             = collision what id n used_twice
             /\ (2 <= count_occ Z.eq_dec (seen ++ vs) id)%nat.
Proof.
  induction xs as [|x xs IH]; intros h seen vs Hp Hnd Hdup; inversion Hp; subst.
  - exfalso. apply Hdup. rewrite app_nil_r. exact Hnd.
  - cbn [rfor_each]. rewrite (check_id_parsed what n h seen x y) by assumption.
    destruct (mem y seen) eqn:Hm.
    + exists y. split; [reflexivity|]. apply count_occ_twice.
      apply mem_In. exact Hm.
    + cbn [rbind]. apply mem_false in Hm.
      destruct (IH (bump h y) (seen ++ [y])%list l') as [id [Hr Hc]].
      * assumption.
      * apply NoDup_snoc. split; assumption.
      * rewrite <- app_assoc. exact Hdup.
      * exists id. split; [exact Hr|]. rewrite <- app_assoc in Hc. exact Hc.
Qed.

Lemma ids_loop_Ok_inv what n xs : forall h seen h' seen',
  rfor_each (check_id what n) xs (h, seen) = Ok (h', seen') ->
  NoDup seen ->
  exists vs, ids_of xs vs /\ seen' = (seen ++ vs)%list
             /\ h' = fold_left bump vs h /\ NoDup seen'.
Proof.
  induction xs as [|x xs IH]; intros h seen h' seen' H Hnd.
  - simpl in H. inversion H; subst. exists []. rewrite app_nil_r.
    repeat split; [constructor|exact Hnd].
  - cbn [rfor_each] in H.
    destruct (check_id what n (h, seen) x) as [[h1 s1]|e] eqn:E;
      cbn [rbind] in H; [|discriminate].
    apply check_id_Ok_inv in E. destruct E as [v [Hv [Hm [-> ->]]]].
    apply IH in H.
    + destruct H as [vs [Hvs [-> [-> Hnd']]]]. exists (v :: vs).
      rewrite <- app_assoc in *.
      repeat split; [constructor; assumption|exact Hnd'].
    + apply NoDup_snoc. split; [exact Hnd|]. apply mem_false. exact Hm.
Qed.

(** *** The loop over parameters *)

Lemma check_parameter_parsed n cmds h pseen oseen p i s v :
  param_of p (i, s, v) ->
  check_parameter n cmds (h, pseen, oseen) p
  = if mem i pseen then collision "Parameter ID" i n used_twice
    else if mem s oseen then collision "Parameter set opcode" s n used_twice
    else if mem s cmds then collision "Parameter set opcode" s n same_as_command
    else if mem v (oseen ++ [s])%list
         then collision "Parameter save opcode" v n used_twice
    else if mem v cmds
         then collision "Parameter save opcode" v n same_as_command
    else Ok (bump (bump (bump h i) s) v, (pseen ++ [i])%list,
             ((oseen ++ [s]) ++ [v])%list).
Proof.
  intros [Hi [Hs Hv]]. unfold check_parameter.
  rewrite (check_id_parsed _ n h pseen _ i Hi).
  destruct (mem i pseen); [reflexivity|]. cbn [rbind].
  rewrite (check_opcode_parsed _ n cmds _ oseen _ s Hs).
  destruct (mem s oseen); [reflexivity|].
  destruct (mem s cmds); [reflexivity|]. cbn [rbind].
  rewrite (check_opcode_parsed _ n cmds _ _ _ v Hv).
  destruct (mem v (oseen ++ [s])); [reflexivity|].
  destruct (mem v cmds); reflexivity.
Qed.

Lemma check_parameter_Ok_inv n cmds h pseen oseen p h' pseen' oseen' :
  check_parameter n cmds (h, pseen, oseen) p = Ok (h', pseen', oseen') ->
  exists i s v,
    param_of p (i, s, v)
    /\ mem i pseen = false /\ mem s oseen = false /\ mem s cmds = false
    /\ mem v (oseen ++ [s])%list = false /\ mem v cmds = false
    /\ h' = bump (bump (bump h i) s) v
    /\ pseen' = (pseen ++ [i])%list /\ oseen' = ((oseen ++ [s]) ++ [v])%list.
Proof.
  unfold check_parameter. intros H.
  destruct (check_id "Parameter ID" n (h, pseen) (parameter_ids p))
    as [[h1 ids]|e] eqn:E1; cbn [rbind] in H; [|discriminate].
  destruct (check_opcode "Parameter set opcode" n cmds (h1, oseen)
                         (parameter_set_opcodes p))
    as [[h2 ops1]|e] eqn:E2; cbn [rbind] in H; [|discriminate].
  destruct (check_opcode "Parameter save opcode" n cmds (h2, ops1)
                         (parameter_save_opcodes p))
    as [[h3 ops2]|e] eqn:E3; cbn [rbind] in H; [|discriminate].
  inversion H; subst.
  apply check_id_Ok_inv in E1. destruct E1 as [i [Hi [Hmi [-> ->]]]].
  apply check_opcode_Ok_inv in E2. destruct E2 as [s [Hs [Hms [Hmc [-> ->]]]]].
  apply check_opcode_Ok_inv in E3. destruct E3 as [v [Hv [Hmv [Hmvc [-> ->]]]]].
  exists i, s, v. unfold param_of. auto 12.
Qed.

(** The opcodes seen so far stay apart from each other and from the
    command opcodes when one more is added. *)
Lemma NoDup_opcode_snoc (cmds oseen : list Z) (s : Z) :
  NoDup (cmds ++ oseen ++ [s])
  <-> NoDup (cmds ++ oseen) /\ ~ In s oseen /\ ~ In s cmds.
Proof.
  rewrite app_assoc, NoDup_snoc, in_app_iff. tauto.
Qed.

Lemma param_lists_cons i s v (ts : list (Z * Z * Z)) :
  param_ids ((i, s, v) :: ts) = i :: param_ids ts
  /\ param_opcodes ((i, s, v) :: ts) = s :: v :: param_opcodes ts
  /\ param_numbers ((i, s, v) :: ts) = i :: s :: v :: param_numbers ts.
Proof. repeat split. Qed.

Lemma NoDup_opcodes_fresh (cmds oseen ops : list Z) (s v : Z) :
  NoDup (cmds ++ oseen ++ s :: v :: ops) ->
  ~ In s oseen /\ ~ In s cmds /\ ~ In v (oseen ++ [s]) /\ ~ In v cmds.
Proof.
  intros H.
  assert (Hs : ~ In s (cmds ++ oseen ++ v :: ops)).
  { rewrite app_assoc in H. apply NoDup_remove_2 in H.
    rewrite <- app_assoc in H. exact H. }
  assert (Hv : ~ In v (cmds ++ oseen ++ [s] ++ ops)).
  { change (s :: v :: ops) with ([s] ++ v :: ops)%list in H.
    rewrite !app_assoc in H. apply NoDup_remove_2 in H.
    rewrite <- !app_assoc in H. exact H. }
  rewrite !in_app_iff in Hs. rewrite !in_app_iff in Hv.
  rewrite in_app_iff. tauto.
Qed.

Lemma params_loop_Ok n cmds ps : forall h pseen oseen ts,
  Forall2 param_of ps ts ->
  NoDup (pseen ++ param_ids ts) ->
  NoDup (cmds ++ oseen ++ param_opcodes ts) ->
  rfor_each (check_parameter n cmds) ps (h, pseen, oseen)
  = Ok (fold_left bump (param_numbers ts) h,
        (pseen ++ param_ids ts)%list, (oseen ++ param_opcodes ts)%list).
Proof.
  induction ps as [|p ps IH]; intros h pseen oseen ts Hp Hn1 Hn2;
    inversion Hp; subst.
  - cbn. rewrite !app_nil_r. reflexivity.
  - destruct y as [[i s] v]. cbn [rfor_each].
    rewrite (check_parameter_parsed n cmds h pseen oseen p i s v) by assumption.
    destruct (param_lists_cons i s v l') as [E1 [E2 E3]].
    rewrite E1 in *. rewrite E2 in *. rewrite E3.
    assert (Hi : mem i pseen = false).
    { apply mem_false. intros Hin. apply NoDup_remove_2 in Hn1.
      apply Hn1. apply in_or_app. left. exact Hin. }
    destruct (NoDup_opcodes_fresh _ _ _ _ _ Hn2) as [F1 [F2 [F3 F4]]].
    apply mem_false in F1, F2, F3, F4.
    rewrite Hi, F1, F2, F3, F4. cbn [rbind].
    rewrite (IH _ _ _ l').
    + cbn [fold_left]. rewrite <- !app_assoc. reflexivity.
    + assumption.
    + rewrite <- app_assoc. exact Hn1.
    + rewrite <- !app_assoc. exact Hn2.
Qed.

Lemma params_loop_collision n cmds ps : forall h pseen oseen ts,
  Forall2 param_of ps ts ->
  NoDup pseen -> NoDup (cmds ++ oseen) ->
  ~ (NoDup (pseen ++ param_ids ts)
     /\ NoDup (cmds ++ oseen ++ param_opcodes ts)) ->
  exists what id how,
    rfor_each (check_parameter n cmds) ps (h, pseen, oseen)
    = collision what id n how
    /\ (2 <= count_occ Z.eq_dec (pseen ++ param_ids ts) id
        \/ 2 <= count_occ Z.eq_dec (cmds ++ oseen ++ param_opcodes ts) id)%nat.
Proof.
  induction ps as [|p ps IH]; intros h pseen oseen ts Hp Hn1 Hn2 Hdup;
    inversion Hp; subst.
  - exfalso. apply Hdup. cbn. rewrite !app_nil_r. split; assumption.
  - destruct y as [[i s] v]. cbn [rfor_each].
    rewrite (check_parameter_parsed n cmds h pseen oseen p i s v) by assumption.
    destruct (param_lists_cons i s v l') as [E1 [E2 E3]].
    rewrite E1 in *. rewrite E2 in *.
    destruct (mem i pseen) eqn:Mi.
    { do 3 eexists. split; [reflexivity|]. left. apply count_occ_twice.
      apply mem_In. exact Mi. }
    destruct (mem s oseen) eqn:Ms.
    { do 3 eexists. split; [reflexivity|]. right.
      apply count_occ_mono_app_r. apply count_occ_twice.
      apply mem_In. exact Ms. }
    destruct (mem s cmds) eqn:Msc.
    { do 3 eexists. split; [reflexivity|]. right.
      rewrite app_assoc. apply count_occ_twice. apply in_or_app. left.
      apply mem_In. exact Msc. }
    destruct (mem v (oseen ++ [s])) eqn:Mv.
    { do 3 eexists. split; [reflexivity|]. right.
      apply count_occ_mono_app_r.
      change (s :: v :: param_opcodes l')
        with ([s] ++ v :: param_opcodes l')%list.
      rewrite app_assoc. apply count_occ_twice. apply mem_In. exact Mv. }
    destruct (mem v cmds) eqn:Mvc.
    { do 3 eexists. split; [reflexivity|]. right.
      change (s :: v :: param_opcodes l')
        with ([s] ++ v :: param_opcodes l')%list.
      rewrite !app_assoc. apply count_occ_twice. rewrite <- app_assoc.
      apply in_or_app. left. apply mem_In. exact Mvc. }
    cbn [rbind]. apply mem_false in Mi, Ms, Msc, Mv, Mvc.
    destruct (IH (bump (bump (bump h i) s) v) (pseen ++ [i])%list
                 ((oseen ++ [s]) ++ [v])%list l')
      as [what [id [how [Hr Hc]]]].
    + assumption.
    + apply NoDup_snoc. split; assumption.
    + apply NoDup_opcode_snoc. split; [|split].
      * apply NoDup_opcode_snoc. repeat split; assumption.
      * exact Mv.
      * exact Mvc.
    + rewrite <- !app_assoc. exact Hdup.
    + exists what, id, how. split; [exact Hr|].
      rewrite <- !app_assoc in Hc. exact Hc.
Qed.

Lemma params_loop_Ok_inv n cmds ps : forall h pseen oseen h' pseen' oseen',
  rfor_each (check_parameter n cmds) ps (h, pseen, oseen)
  = Ok (h', pseen', oseen') ->
  NoDup pseen -> NoDup (cmds ++ oseen) ->
  exists ts, Forall2 param_of ps ts
             /\ h' = fold_left bump (param_numbers ts) h
             /\ NoDup (pseen ++ param_ids ts)
             /\ NoDup (cmds ++ oseen ++ param_opcodes ts).
Proof.
  induction ps as [|p ps IH]; intros h pseen oseen h' pseen' oseen' H Hn1 Hn2.
  - cbn in H. inversion H; subst. exists []. cbn. rewrite !app_nil_r.
    repeat split; [constructor|assumption|assumption].
  - cbn [rfor_each] in H.
    destruct (check_parameter n cmds (h, pseen, oseen) p)
      as [[[h1 p1] o1]|e] eqn:E; cbn [rbind] in H; [|discriminate].
    apply check_parameter_Ok_inv in E.
    destruct E as [i [s [v [Hp [Mi [Ms [Msc [Mv [Mvc [-> [-> ->]]]]]]]]]]].
    apply mem_false in Mi, Ms, Msc, Mv, Mvc.
    apply IH in H.
    + destruct H as [ts [Hts [-> [N1 N2]]]]. exists ((i, s, v) :: ts).
      destruct (param_lists_cons i s v ts) as [E1 [E2 E3]].
      rewrite E1, E2, E3.
      rewrite <- !app_assoc in N1. rewrite <- !app_assoc in N2.
      repeat split; [constructor; assumption|exact N1|exact N2].
    + apply NoDup_snoc. split; assumption.
    + apply NoDup_opcode_snoc. split; [|split].
      * apply NoDup_opcode_snoc. repeat split; assumption.
      * exact Mv.
      * exact Mvc.
Qed.

(** *** The highest id *)

Lemma bump_max (h v : Z) : bump (Some h) v = Some (Z.max h v).
Proof.
  unfold bump. destruct (v >? h) eqn:E; f_equal.
  - apply Z.gtb_lt in E. lia.
  - rewrite Z.gtb_ltb in E. apply Z.ltb_ge in E. lia.
Qed.

Lemma fold_bump_Some (vs : list Z) : forall h,
  fold_left bump vs (Some h) = Some (fold_left Z.max vs h).
Proof.
  induction vs as [|v vs IH]; intros h; [reflexivity|].
  cbn [fold_left]. rewrite bump_max. apply IH.
Qed.

Lemma fold_bump_range (vs : list Z) :
  match fold_left bump vs None with
  | Some highest_ID => Ok (Some (highest_ID + 1))
  | None => Ok None
  end = Ok (spec_required_range vs).
Proof.
  destruct vs as [|v vs]; [reflexivity|].
  cbn [fold_left bump spec_required_range]. rewrite fold_bump_Some. reflexivity.
Qed.

Lemma fold_max_ge (vs : list Z) : forall h,
  h <= fold_left Z.max vs h /\ (forall x, In x vs -> x <= fold_left Z.max vs h).
Proof.
  induction vs as [|v vs IH]; intros h; cbn [fold_left].
  - split; [lia|intros x []].
  - destruct (IH (Z.max h v)) as [H1 H2]. split; [lia|].
    intros x [->|Hin]; [lia|auto].
Qed.

Lemma fold_max_In (vs : list Z) : forall h,
  fold_left Z.max vs h = h \/ In (fold_left Z.max vs h) vs.
Proof.
  induction vs as [|v vs IH]; intros h; cbn [fold_left]; [left; reflexivity|].
  destruct (IH (Z.max h v)) as [H|H].
  - rewrite H. destruct (Z.max_spec h v) as [[_ ->]|[_ ->]];
      [right; left; reflexivity|left; reflexivity].
  - right. right. exact H.
Qed.

(** The range of the specification is one more than the greatest number. *)
Lemma spec_required_range_greatest (numbers : list Z) (r : Z) :
  spec_required_range numbers = Some r ->
  In (r - 1) numbers /\ (forall x, In x numbers -> x <= r - 1).
Proof.
  destruct numbers as [|v vs]; [discriminate|].
  cbn [spec_required_range]. intros H. inversion H; subst. clear H.
  replace (fold_left Z.max vs v + 1 - 1) with (fold_left Z.max vs v) by lia.
  destruct (fold_max_ge vs v) as [H1 H2]. split.
  - destruct (fold_max_In vs v) as [->|H]; [left; reflexivity|right; exact H].
  - intros x [->|Hin]; [exact H1|auto].
Qed.

Lemma spec_required_range_None (numbers : list Z) :
  spec_required_range numbers = None <-> numbers = [].
Proof.
  destruct numbers; split; intros H; try reflexivity; discriminate.
Qed.

(** *** The analysis as a whole *)

Lemma compute_range_Ok c evs chs cmds params :
  Parsed c evs chs cmds params ->
  collision_free evs chs cmds params ->
  compute_component_base_id_range (Some c)
  = Ok (spec_required_range (all_numbers evs chs cmds params)).
Proof.
  intros [He Hc Hm Hp] [N1 [N2 [N3 N4]]].
  unfold compute_component_base_id_range.
  rewrite (ids_loop_Ok _ _ _ None [] evs He N1). cbn [rbind app].
  rewrite (ids_loop_Ok _ _ _ _ [] chs Hc N2). cbn [rbind app].
  assert (N5 : NoDup cmds) by (apply NoDup_app_remove_r in N3; exact N3).
  rewrite (ids_loop_Ok _ _ _ _ [] cmds Hm N5). cbn [rbind app].
  rewrite (params_loop_Ok _ cmds _ _ [] [] params Hp N4 N3). cbn [rbind].
  rewrite <- !fold_left_app. apply fold_bump_range.
Qed.

Lemma compute_range_Ok_inv c r :
  compute_component_base_id_range (Some c) = Ok r ->
  exists evs chs cmds params,
    Parsed c evs chs cmds params
    /\ collision_free evs chs cmds params
    /\ r = spec_required_range (all_numbers evs chs cmds params).
Proof.
  unfold compute_component_base_id_range. intros H.
  destruct (rfor_each (check_id "Event ID" (comp_name c))
                      (map event_ids (comp_events c)) (None, []))
    as [[h1 s1]|e] eqn:E1; cbn [rbind] in H; [|discriminate].
  destruct (rfor_each (check_id "Channel ID" (comp_name c))
                      (map channel_ids (comp_channels c)) (h1, []))
    as [[h2 s2]|e] eqn:E2; cbn [rbind] in H; [|discriminate].
  destruct (rfor_each (check_id "Command ID" (comp_name c))
                      (map command_opcodes (comp_commands c)) (h2, []))
    as [[h3 s3]|e] eqn:E3; cbn [rbind] in H; [|discriminate].
  destruct (rfor_each (check_parameter (comp_name c) s3)
                      (comp_parameters c) (h3, [], []))
    as [[[h4 p4] o4]|e] eqn:E4; cbn [rbind] in H; [|discriminate].
  apply ids_loop_Ok_inv in E1; [|constructor].
  destruct E1 as [evs [He [-> [-> N1]]]].
  apply ids_loop_Ok_inv in E2; [|constructor].
  destruct E2 as [chs [Hc [-> [-> N2]]]].
  apply ids_loop_Ok_inv in E3; [|constructor].
  destruct E3 as [cmds [Hm [-> [-> N3]]]].
  cbn [app] in *.
  apply params_loop_Ok_inv in E4;
    [|constructor|rewrite app_nil_r; exact N3].
  destruct E4 as [params [Hp [-> [N4 N5]]]]. cbn [app] in *.
  exists evs, chs, cmds, params. split; [constructor; assumption|].
  split; [repeat split; assumption|].
  rewrite <- !fold_left_app in H. rewrite fold_bump_range in H.
  inversion H. reflexivity.
Qed.

Lemma compute_range_collision c evs chs cmds params :
  Parsed c evs chs cmds params ->
  ~ NoDup evs \/ ~ NoDup chs \/ ~ NoDup (cmds ++ param_opcodes params) ->
  exists what id how,
    compute_component_base_id_range (Some c)
    = collision what id (comp_name c) how
    /\ repeated_in id evs chs cmds params.
Proof.
  intros [He Hc Hm Hp] Hdup.
  unfold compute_component_base_id_range, repeated_in.
  destruct (ListDec.NoDup_dec Z.eq_dec evs) as [N1|N1].
  2:{ destruct (ids_loop_collision "Event ID" (comp_name c) _ None [] evs He)
        as [id [Hr Hn]]; [constructor|exact N1|].
      rewrite Hr. do 3 eexists. split; [reflexivity|]. left. exact Hn. }
  rewrite (ids_loop_Ok _ _ _ None [] evs He N1). cbn [rbind app].
  destruct (ListDec.NoDup_dec Z.eq_dec chs) as [N2|N2].
  2:{ destruct (ids_loop_collision "Channel ID" (comp_name c) _
                                   (fold_left bump evs None) [] chs Hc)
        as [id [Hr Hn]]; [constructor|exact N2|].
      rewrite Hr. do 3 eexists. split; [reflexivity|]. right. left. exact Hn. }
  rewrite (ids_loop_Ok _ _ _ _ [] chs Hc N2). cbn [rbind app].
  destruct (ListDec.NoDup_dec Z.eq_dec cmds) as [N3|N3].
  2:{ destruct (ids_loop_collision "Command ID" (comp_name c) _
                  (fold_left bump chs (fold_left bump evs None)) [] cmds Hm)
        as [id [Hr Hn]]; [constructor|exact N3|].
      rewrite Hr. do 3 eexists. split; [reflexivity|]. right. right. left.
      apply count_occ_mono_app. exact Hn. }
  rewrite (ids_loop_Ok _ _ _ _ [] cmds Hm N3). cbn [rbind app].
  destruct (params_loop_collision (comp_name c) cmds _
              (fold_left bump cmds
                 (fold_left bump chs (fold_left bump evs None)))
              [] [] params Hp)
    as [what [id [how [Hr Hn]]]].
  - constructor.
  - rewrite app_nil_r. exact N3.
  - cbn [app]. intros [_ N4]. tauto.
  - rewrite Hr. exists what, id, how. split; [reflexivity|].
    cbn [app] in Hn. tauto.
Qed.

(** C9. The required range of a component is one more than the greatest
    number among its event ids, channel ids, command opcodes and parameter
    ids, set opcodes and save opcodes; it is [None] for a component that
    declares nothing and for an instance without component object. *)
Theorem required_range_is_greatest_plus_one c evs chs cmds params :
  Parsed c evs chs cmds params ->
  collision_free evs chs cmds params ->
  compute_component_base_id_range None = Ok None
  /\ match all_numbers evs chs cmds params with
     | [] => compute_component_base_id_range (Some c) = Ok None
     | _ :: _ =>
         exists m,
           compute_component_base_id_range (Some c) = Ok (Some (m + 1))
           /\ In m (all_numbers evs chs cmds params)
           /\ (forall x, In x (all_numbers evs chs cmds params) -> x <= m)
     end.
Proof.
  intros Hp Hf. split; [reflexivity|].
  rewrite (compute_range_Ok c evs chs cmds params Hp Hf).
  destruct (all_numbers evs chs cmds params) as [|v vs] eqn:E; [reflexivity|].
  destruct (spec_required_range (v :: vs)) as [r|] eqn:Er;
    [|apply spec_required_range_None in Er; discriminate].
  destruct (spec_required_range_greatest _ _ Er) as [H1 H2].
  exists (r - 1). split; [do 2 f_equal; lia|]. split; assumption.
Qed.

Lemma required_range_is_greatest_plus_one_witness :
  Parsed Samples.sensor [26; 3] [3] [7] [(3, 40, 41)]
  /\ collision_free [26; 3] [3] [7] [(3, 40, 41)]
  /\ compute_component_base_id_range None = Ok None
  /\ exists m,
       compute_component_base_id_range (Some Samples.sensor) = Ok (Some (m + 1))
       /\ In m [26; 3; 3; 7; 3; 40; 41]
       /\ (forall x, In x [26; 3; 3; 7; 3; 40; 41] -> x <= m).
Proof.
  assert (Hp : Parsed Samples.sensor [26; 3] [3] [7] [(3, 40, 41)]).
  { constructor; repeat constructor; vm_compute; reflexivity. }
  assert (Hf : collision_free [26; 3] [3] [7] [(3, 40, 41)]).
  { repeat split; repeat constructor; simpl; intuition discriminate. }
  split; [exact Hp|]. split; [exact Hf|].
  exact (required_range_is_greatest_plus_one Samples.sensor _ _ _ _ Hp Hf).
Defined.

End Analyzer.
(* ================================================================= *)
(** ** Properties of the logging computations *)

Module LogFacts.
Import Py LogM.

Lemma bind_Ok_inv {A B} (m : M A) (f : A -> M B) l (b : B) :
  bind m f = (l, Ok b) ->
  exists l1 a l2, m = (l1, Ok a) /\ f a = (l2, Ok b) /\ l = (l1 ++ l2)%list.
Proof.
  destruct m as [l1 [a|e]]; cbn [bind]; [|discriminate].
  destruct (f a) as [l2 r] eqn:E. intros H. inversion H; subst.
  exists l1, a, l2. auto.
Qed.

Lemma bind_Ok {A B} (m : M A) (f : A -> M B) l1 a l2 r :
  m = (l1, Ok a) -> f a = (l2, r) -> bind m f = ((l1 ++ l2)%list, r).
Proof. intros -> H. cbn [bind]. rewrite H. reflexivity. Qed.

Lemma bind_Err {A B} (m : M A) (f : A -> M B) l e :
  m = (l, Err e) -> bind m f = (l, Err e).
Proof. intros ->. reflexivity. Qed.

Lemma lift_Ok_inv {A} (r : result A) l (a : A) :
  lift r = (l, Ok a) -> r = Ok a /\ l = [].
Proof. unfold lift. intros H. inversion H. auto. Qed.

Lemma for_each_cons_inv {S X} (body : S -> X -> M S) x xs s l s' :
  for_each body (x :: xs) s = (l, Ok s') ->
  exists l1 s1 l2, body s x = (l1, Ok s1)
                   /\ for_each body xs s1 = (l2, Ok s')
                   /\ l = (l1 ++ l2)%list.
Proof. cbn [for_each]. apply bind_Ok_inv. Qed.

(** A loop in which one turn raises does not complete. *)
Lemma for_each_raises {S X} (body : S -> X -> M S) (x : X) :
  (forall s l s', body s x <> (l, Ok s')) ->
  forall xs, In x xs -> forall s l s', for_each body xs s <> (l, Ok s').
Proof.
  intros Hx xs. induction xs as [|y ys IH]; intros Hin s l s' H; [destruct Hin|].
  apply for_each_cons_inv in H. destruct H as [l1 [s1 [l2 [H1 [H2 _]]]]].
  destruct Hin as [->|Hin].
  - exact (Hx _ _ _ H1).
  - exact (IH Hin _ _ _ H2).
Qed.

End LogFacts.

(* ================================================================= *)
(** ** Properties of the instance resolver *)

Module Resolver.
Import Py LogM TopoFactory Props LogFacts.

Lemma resolve_base_explicit id n s v :
  int_of_str 0 s = Ok v ->
  exists l, resolve_base id n (Some s)
            = (l, Ok (Some (offset_base id (Z.abs v)))).
Proof.
  intros Hv. unfold resolve_base, offset_base. rewrite Hv. cbn [lift bind].
  destruct (id >? Z.abs v); cbn; eexists; reflexivity.
Qed.

Lemma resolve_base_Ok_inv id n text l b :
  resolve_base id n text = (l, Ok b) ->
  match text with
  | None => b = None
  | Some s => exists v, int_of_str 0 s = Ok v
                        /\ b = Some (offset_base id (Z.abs v))
  end.
Proof.
  unfold resolve_base, offset_base. destruct text as [s|].
  - destruct (int_of_str 0 s) as [v|e]; cbn [lift bind]; [|discriminate].
    intros H. exists v. split; [reflexivity|].
    destruct (id >? Z.abs v); cbn in H; inversion H; reflexivity.
  - intros H. inversion H. reflexivity.
Qed.

Lemma resolve_window_spec size n text explicit r w :
  literal text explicit ->
  spec_window explicit size r = Some w ->
  exists line, resolve_window size n text r = ([line], Ok w).
Proof.
  unfold literal, spec_window, resolve_window. destruct text as [s|].
  - intros [v [Hv ->]] H. inversion H; subst. rewrite Hv. cbn.
    eexists. reflexivity.
  - intros -> H. destruct r as [r|]; [|discriminate]. inversion H; subst.
    destruct (size >? r); cbn; eexists; reflexivity.
Qed.

Lemma resolve_window_Ok_inv size n text r l w :
  resolve_window size n text r = (l, Ok w) ->
  exists explicit, literal text explicit
                   /\ spec_window explicit size r = Some w.
Proof.
  unfold literal, spec_window, resolve_window. destruct text as [s|].
  - destruct (int_of_str 0 s) as [v|e]; cbn [lift bind]; [|discriminate].
    cbn. intros H. inversion H; subst. exists (Some v). split; [|reflexivity].
    exists v. auto.
  - destruct r as [r|]; [|discriminate]. intros H. exists None.
    split; [reflexivity|].
    destruct (size >? r); cbn in H; inversion H; reflexivity.
Qed.

(** The candidate built from the three resolved parts. *)
Lemma set_base_id_list_Ok id size inst lb b r lw w :
  resolve_base id (inst_name inst) (inst_base_id inst) = (lb, Ok b) ->
  compute_component_base_id_range (inst_component_object inst) = Ok r ->
  resolve_window size (inst_name inst) (inst_base_id_window inst) r
  = (lw, Ok w) ->
  set_base_id_list id size inst
  = ((lb ++ lw ++ undersized_log (inst_name inst) w r)%list,
     Ok {| c_name := inst_name inst;
           c_base := b;
           c_window := w;
           c_inst := inst;
           c_range := r;
           c_amount :=
             compute_component_ID_amount (inst_component_object inst) |}).
Proof.
  intros Hb Hr Hw. unfold set_base_id_list, undersized_log.
  rewrite Hb. cbn [bind]. rewrite Hr. cbn [lift bind]. rewrite Hw.
  cbn [bind].
  destruct r as [r|]; [destruct (w <? r)|];
    cbn [bind info ret app]; rewrite ?app_nil_r; reflexivity.
Qed.

Lemma set_base_id_list_Ok_inv id size inst l c :
  set_base_id_list id size inst = (l, Ok c) ->
  exists lb b r lw w,
    resolve_base id (inst_name inst) (inst_base_id inst) = (lb, Ok b)
    /\ compute_component_base_id_range (inst_component_object inst) = Ok r
    /\ resolve_window size (inst_name inst) (inst_base_id_window inst) r
       = (lw, Ok w)
    /\ l = (lb ++ lw ++ undersized_log (inst_name inst) w r)%list
    /\ c = {| c_name := inst_name inst;
              c_base := b;
              c_window := w;
              c_inst := inst;
              c_range := r;
              c_amount :=
                compute_component_ID_amount (inst_component_object inst) |}.
Proof.
  intros H.
  destruct (resolve_base id (inst_name inst) (inst_base_id inst))
    as [lb [b|e]] eqn:Hb;
    [|unfold set_base_id_list in H; rewrite Hb in H; discriminate].
  destruct (compute_component_base_id_range (inst_component_object inst))
    as [r|e] eqn:Hr;
    [|unfold set_base_id_list in H; rewrite Hb, Hr in H; discriminate].
  destruct (resolve_window size (inst_name inst) (inst_base_id_window inst) r)
    as [lw [w|e]] eqn:Hw;
    [|unfold set_base_id_list in H; rewrite Hb, Hr in H; cbn [lift bind] in H;
      rewrite Hw in H; discriminate].
  rewrite (set_base_id_list_Ok id size inst lb b r lw w Hb Hr Hw) in H.
  inversion H; subst. exists lb, b, r, lw, w. auto 6.
Qed.

(** What a candidate records of the instance it comes from. *)
Lemma set_base_id_list_fields id size inst l c :
  set_base_id_list id size inst = (l, Ok c) ->
  c_inst c = inst /\ c_name c = inst_name inst
  /\ match inst_base_id inst with
     | None => c_base c = None
     | Some s => exists v, int_of_str 0 s = Ok v
                           /\ c_base c = Some (offset_base id (Z.abs v))
     end.
Proof.
  intros H. apply set_base_id_list_Ok_inv in H.
  destruct H as [lb [b [r [lw [w [Hb [_ [_ [_ ->]]]]]]]]].
  cbn. repeat split. exact (resolve_base_Ok_inv _ _ _ _ _ Hb).
Qed.

Lemma offset_base_ge (id a : Z) : 0 <= a -> id <= offset_base id a.
Proof.
  unfold offset_base. intros Ha. destruct (id >? a) eqn:E; [lia|].
  rewrite Z.gtb_ltb in E. apply Z.ltb_ge in E. lia.
Qed.

Lemma resolve_base_literal id n text value :
  literal text value ->
  exists l, resolve_base id n text
            = (l, Ok (option_map (fun v => offset_base id (Z.abs v)) value)).
Proof.
  destruct text as [s|]; cbn [literal].
  - intros [v [Hv ->]]. exact (resolve_base_explicit id n s v Hv).
  - intros ->. exists []. reflexivity.
Qed.

(** The resolver returns a candidate as soon as the two literals of the
    instance can be read, the analysis of its component completes and the
    specification names a window. *)
Lemma set_base_id_list_total id size inst base window r w :
  literal (inst_base_id inst) base ->
  literal (inst_base_id_window inst) window ->
  compute_component_base_id_range (inst_component_object inst) = Ok r ->
  spec_window window size r = Some w ->
  exists l,
    set_base_id_list id size inst
    = ((l ++ undersized_log (inst_name inst) w r)%list,
       Ok {| c_name := inst_name inst;
             c_base := option_map (fun v => offset_base id (Z.abs v)) base;
             c_window := w;
             c_inst := inst;
             c_range := r;
             c_amount :=
               compute_component_ID_amount (inst_component_object inst) |}).
Proof.
  intros Hb Hw Hr Hs.
  destruct (resolve_base_literal id (inst_name inst) _ _ Hb) as [lb Eb].
  destruct (resolve_window_spec size (inst_name inst) _ _ _ _ Hw Hs)
    as [line Ew].
  exists (lb ++ [line])%list.
  rewrite (set_base_id_list_Ok id size inst _ _ _ _ _ Eb Hr Ew).
  rewrite <- app_assoc. reflexivity.
Qed.

(** Where there is an explicit window or a required range, the window of a
    candidate is the explicit window of the instance in absolute value when
    there is one, else the assembly default when it exceeds the required
    range of the component, else that required range; a window below the
    required range is logged and kept as it is. *)
Theorem window_priority id size inst base window r w :
  literal (inst_base_id inst) base ->
  literal (inst_base_id_window inst) window ->
  compute_component_base_id_range (inst_component_object inst) = Ok r ->
  spec_window window size r = Some w ->
  exists l c,
    set_base_id_list id size inst
    = ((l ++ undersized_log (inst_name inst) w r)%list, Ok c)
    /\ c_window c = w /\ c_range c = r.
Proof.
  intros Hb Hw Hr Hs.
  destruct (set_base_id_list_total id size inst base window r w Hb Hw Hr Hs)
    as [l E].
  eexists l, _. split; [exact E|]. split; reflexivity.
Qed.

Lemma window_priority_witness :
  literal (inst_base_id Samples.undersized) None
  /\ literal (inst_base_id_window Samples.undersized) (Some 8)
  /\ compute_component_base_id_range
       (inst_component_object Samples.undersized) = Ok (Some 42)
  /\ spec_window (Some 8) 100 (Some 42) = Some 8
  /\ exists l c,
       set_base_id_list 1 100 Samples.undersized
       = ((l ++ [msg_undersized "imu" 8 42])%list, Ok c)
       /\ c_window c = 8 /\ c_range c = Some 42.
Proof.
  assert (H1 : literal (inst_base_id Samples.undersized) None)
    by reflexivity.
  assert (H2 : literal (inst_base_id_window Samples.undersized) (Some 8))
    by (exists 8; split; [vm_compute|]; reflexivity).
  assert (H3 : compute_component_base_id_range
                 (inst_component_object Samples.undersized) = Ok (Some 42))
    by (vm_compute; reflexivity).
  assert (H4 : spec_window (Some 8) 100 (Some 42) = Some 8) by reflexivity.
  repeat (split; [assumption|]).
  exact (window_priority 1 100 Samples.undersized None (Some 8) (Some 42) 8
                         H1 H2 H3 H4).
Defined.

(** The log of an undersized explicit window, line by line; the window of
    the candidate is the explicit one. *)
Example undersized_window_sample :
  exists c,
    set_base_id_list 1 100 Samples.undersized
    = ([ "imu instance resetting base id window range to instance specified size (8)";
         "ERROR: The specified window range for component imu is 8, which is smaller than the calculated window range of 42. Please check the instance definitions in the topology xml file." ],
       Ok c)
    /\ c_window c = 8 /\ c_range c = Some 42 /\ c_base c = None.
Proof. eexists. vm_compute. repeat split. Qed.

(** C5. The priority order gives no window to an instance without explicit
    window whose component has no required range: the component of [hub]
    declares no item, its required range is [None], and the comparison of
    the assembly window 100 with [None] raises a [TypeError] after the line
    of the base id, so that the run on this instance alone returns no
    list. *)
Theorem window_without_required_range_raises :
  inst_base_id_window Samples.passive = None
  /\ compute_component_base_id_range (inst_component_object Samples.passive)
     = Ok None
  /\ set_base_id_list 1 100 Samples.passive
     = (["WARNING: hub instance resetting base id to 7"], Err TypeError)
  /\ compute_base_ids "1" "100" (Some "1") (Some "100") [Samples.passive]
     = (["WARNING: hub instance resetting base id to 7"], Err TypeError).
Proof.
  split; [reflexivity|].
  split; [vm_compute; reflexivity|].
  split; vm_compute; reflexivity.
Qed.



(** The literal ["-5"] gives the base id of the literal ["5"]. *)
Example negative_base_id_sample :
  exists l l' c c',
    set_base_id_list 1 100 Samples.negative = (l, Ok c)
    /\ set_base_id_list 1 100 Samples.positive = (l', Ok c')
    /\ c_base c = Some 5 /\ c_base c' = Some 5
    /\ c_window c = 16 /\ c_window c' = 16.
Proof.
  do 4 eexists. split; [vm_compute; reflexivity|].
  split; [vm_compute; reflexivity|]. repeat split.
Qed.

End Resolver.

(* ================================================================= *)
(** ** Properties of the sort of pass 2 *)

Module Sorting.
Import Py LogM TopoFactory Props.

Section Keyed.

Variable key : Cand -> option Z.

Lemma key_lt_keys (a b : Cand) x y :
  key a = Some x -> key b = Some y -> key_lt (key a) (key b) = Ok (x <? y).
Proof. intros -> ->. reflexivity. Qed.

Lemma key_lt_Ok_inv (a b : option Z) (c : bool) :
  key_lt a b = Ok c -> exists x y, a = Some x /\ b = Some y /\ c = (x <? y).
Proof.
  destruct a as [x|], b as [y|]; cbn; intros H; inversion H.
  exists x, y. auto.
Qed.

Lemma insert_by_perm (x : Cand) (l l' : list Cand) :
  insert_by key x l = Ok l' -> Permutation (x :: l) l'.
Proof.
  revert l'. induction l as [|y r IH]; intros l' H; cbn [insert_by] in H.
  - inversion H. apply Permutation_refl.
  - destruct (key_lt (key y) (key x)) as [[|]|e]; cbn [rbind] in H;
      [|inversion H; apply Permutation_refl|discriminate].
    destruct (insert_by key x r) as [r'|e]; cbn [rbind] in H; [|discriminate].
    inversion H; subst. eapply perm_trans; [apply perm_swap|].
    apply perm_skip. apply IH. reflexivity.
Qed.

Lemma sort_by_perm (l l' : list Cand) :
  sort_by key l = Ok l' -> Permutation l l'.
Proof.
  revert l'. induction l as [|x r IH]; intros l' H; cbn [sort_by] in H.
  - inversion H. apply perm_nil.
  - destruct (sort_by key r) as [r'|e]; cbn [rbind] in H; [|discriminate].
    eapply perm_trans; [apply perm_skip; apply IH; reflexivity|].
    apply insert_by_perm. exact H.
Qed.

Lemma insert_by_total (x : Cand) (l : list Cand) :
  (exists k, key x = Some k) ->
  Forall (fun c => exists k, key c = Some k) l ->
  exists l', insert_by key x l = Ok l'.
Proof.
  intros [kx Hx] Hl. induction Hl as [|y r [ky Hy] Hr IH]; cbn [insert_by].
  - eexists. reflexivity.
  - rewrite (key_lt_keys y x ky kx Hy Hx). cbn [rbind].
    destruct (ky <? kx); [|eexists; reflexivity].
    destruct IH as [r' ->]. eexists. reflexivity.
Qed.

Lemma sort_by_total (l : list Cand) :
  Forall (fun c => exists k, key c = Some k) l ->
  exists l', sort_by key l = Ok l'.
Proof.
  induction 1 as [|x r Hx Hr IH]; cbn [sort_by]; [eexists; reflexivity|].
  destruct IH as [r' E]. rewrite E. cbn [rbind].
  apply insert_by_total; [exact Hx|].
  apply sort_by_perm in E. eapply Permutation_Forall; eassumption.
Qed.

Lemma key_le_trans (a b c : Cand) :
  key_le key a b -> key_le key b c -> key_le key a c.
Proof.
  intros [x [y [Ha [Hb Hxy]]]] [y' [z [Hb' [Hc Hyz]]]].
  rewrite Hb in Hb'. inversion Hb'; subst. exists x, z.
  repeat split; try assumption. lia.
Qed.

Lemma insert_by_sorted (x : Cand) (l l' : list Cand) :
  StronglySorted (key_le key) l ->
  insert_by key x l = Ok l' -> StronglySorted (key_le key) l'.
Proof.
  intros Hs. revert l'.
  induction Hs as [|y r Hr IH Hy]; intros l' H; cbn [insert_by] in H.
  - inversion H. repeat constructor.
  - destruct (key_lt (key y) (key x)) as [c|e] eqn:E; cbn [rbind] in H;
      [|discriminate].
    apply key_lt_Ok_inv in E. destruct E as [ky [kx [Hky [Hkx ->]]]].
    destruct (ky <? kx) eqn:Hlt.
    + destruct (insert_by key x r) as [r'|e] eqn:Er; cbn [rbind] in H;
        [|discriminate].
      inversion H; subst. constructor; [apply IH; reflexivity|].
      apply insert_by_perm in Er.
      eapply Permutation_Forall; [exact Er|]. constructor; [|exact Hy].
      exists ky, kx. apply Z.ltb_lt in Hlt. repeat split; try assumption. lia.
    + inversion H; subst. apply Z.ltb_ge in Hlt.
      assert (Hxy : key_le key x y) by (exists kx, ky; auto).
      constructor; [constructor; assumption|]. constructor; [exact Hxy|].
      eapply Forall_impl; [|exact Hy]. intros z Hz.
      exact (key_le_trans x y z Hxy Hz).
Qed.

Lemma sort_by_sorted (l l' : list Cand) :
  sort_by key l = Ok l' -> StronglySorted (key_le key) l'.
Proof.
  revert l'. induction l as [|x r IH]; intros l' H; cbn [sort_by] in H.
  - inversion H. constructor.
  - destruct (sort_by key r) as [r'|e]; cbn [rbind] in H; [|discriminate].
    eapply insert_by_sorted; [apply IH; reflexivity|exact H].
Qed.

End Keyed.

End Sorting.

(* ================================================================= *)
(** ** Properties of the merge loop of pass 4 *)

Module Merge.
Import Py LogM TopoFactory Props.

Lemma merge_done_pending (st : MergeState) :
  merge_done st = true
  <-> pending_with st = [] /\ pending_without st = [].
Proof.
  destruct st as [wl fl wo fo pid pw out].
  unfold merge_done, pending_with, pending_without; cbn.
  destruct wl, fl, wo, fo; cbn; split; intros H;
    try reflexivity; try discriminate; try (split; reflexivity);
    destruct H; discriminate.
Qed.

Ltac placed_case :=
  eexists; split; [reflexivity|];
  first
    [ eapply placed_floating;
      unfold next_poss_id; cbn; try reflexivity;
      first [ left; reflexivity
            | right; do 3 eexists; split; [reflexivity|]; split;
              [eassumption|]; lia ]
    | eapply placed_fixed;
      unfold next_poss_id; cbn; try reflexivity; try eassumption;
      first [ left; reflexivity
            | right; do 2 eexists; split; [reflexivity|]; lia ] ].

(** A turn of the loop places one pending candidate. *)
Lemma merge_step_placed (st : MergeState) :
  merge_done st = false ->
  Forall has_base (pending_with st) ->
  exists st', merge_step st = Ok st' /\ placed st st'.
Proof.
  destruct st as [wl fl wo fo pid pw out].
  unfold merge_done, pending_with, merge_step, next_poss_id; cbn.
  intros Hd Hb.
  destruct wo as [w|], wl as [|w' wl], fo as [f|], fl as [|f' fl];
    cbn in *; try discriminate;
    try (inversion Hb as [|? ? [b Hbase] Hrest]; subst; rewrite ?Hbase; cbn);
    try (destruct (pid + pw + c_window f <=? b) eqn:Hle;
         [apply Z.leb_le in Hle|apply Z.leb_gt in Hle]; cbn; rewrite ?Hbase; cbn);
    try (destruct (pid + pw + c_window f' <=? b) eqn:Hle;
         [apply Z.leb_le in Hle|apply Z.leb_gt in Hle]; cbn; rewrite ?Hbase; cbn);
    placed_case.
Qed.

Lemma placed_measure (st st' : MergeState) :
  placed st st' ->
  (S (List.length (pending_with st') + List.length (pending_without st'))
   = List.length (pending_with st) + List.length (pending_without st))%nat.
Proof.
  intros [f fs Hf _ Hw' Hf' _ _ _ | w ws b Hw _ _ Hw' Hf' _ _ _].
  - rewrite Hw', Hf', Hf. cbn [List.length]. lia.
  - rewrite Hw', Hf', Hw. cbn [List.length]. lia.
Qed.

(** A property that every turn keeps holds when the loop is left, and the
    loop is left within as many turns as candidates are pending. *)
Lemma merge_loop_invariant (P : MergeState -> Prop) :
  (forall st st', P st -> placed st st' -> P st') ->
  (forall st, P st -> Forall has_base (pending_with st)) ->
  forall fuel st,
    P st ->
    (List.length (pending_with st) + List.length (pending_without st)
     <= fuel)%nat ->
    exists st', merge_loop fuel st = Ok st' /\ merge_done st' = true /\ P st'.
Proof.
  intros Hstep Hbase. induction fuel as [|fuel IH]; intros st HP Hm.
  - assert (Hd : merge_done st = true).
    { apply merge_done_pending.
      destruct (pending_with st), (pending_without st); cbn in Hm;
        try lia. auto. }
    exists st. cbn [merge_loop]. rewrite Hd. auto.
  - cbn [merge_loop]. destruct (merge_done st) eqn:Hd.
    + exists st. auto.
    + destruct (merge_step_placed st Hd (Hbase st HP)) as [st1 [E Hpl]].
      rewrite E. cbn [rbind]. apply IH.
      * exact (Hstep st st1 HP Hpl).
      * apply placed_measure in Hpl. lia.
Qed.

(** A turn that does not raise takes one candidate off the pending ones. *)
Lemma merge_step_measure (st st' : MergeState) :
  merge_done st = false ->
  merge_step st = Ok st' ->
  (S (List.length (pending_with st') + List.length (pending_without st'))
   = List.length (pending_with st) + List.length (pending_without st))%nat.
Proof.
  destruct st as [wl fl wo fo pid pw out].
  unfold merge_done, pending_with, pending_without, merge_step; cbn.
  intros Hd H.
  destruct wo as [w|], wl as [|w' wl], fo as [f|], fl as [|f' fl];
    cbn in *; try discriminate;
    repeat match type of H with
           | context [the_int (c_base ?x)] =>
               destruct (c_base x); cbn in H; try discriminate
           | context [if ?b then _ else _] => destruct b; cbn in H
           end;
    inversion H; subst; cbn; rewrite ?length_app; cbn; lia.
Qed.

(** The loop is never left for lack of turns: a result of the loop run
    with a turn for each pending candidate satisfies the exit condition. *)
Lemma merge_loop_exits : forall fuel st st',
  (List.length (pending_with st) + List.length (pending_without st)
   <= fuel)%nat ->
  merge_loop fuel st = Ok st' -> merge_done st' = true.
Proof.
  induction fuel as [|fuel IH]; intros st st' Hm H; cbn [merge_loop] in H.
  - destruct (merge_done st) eqn:Hd; inversion H; subst; [exact Hd|].
    apply merge_done_pending.
    destruct (pending_with st'), (pending_without st'); cbn in Hm;
      try lia. auto.
  - destruct (merge_done st) eqn:Hd; [inversion H; subst; exact Hd|].
    destruct (merge_step st) as [st1|e] eqn:E; cbn [rbind] in H;
      [|discriminate].
    apply (IH st1 st'); [|exact H].
    pose proof (merge_step_measure st st1 Hd E). lia.
Qed.

(** *** Windows laid back to back *)

Lemma place_first (np : Z) (l : list Cand) (c : Cand) :
  nth_error (place np l) 0 = Some c -> c_base c = Some np.
Proof.
  destruct l as [|x r]; cbn; intros H; inversion H. reflexivity.
Qed.

Lemma place_next (l : list Cand) : forall np i ci cj,
  nth_error (place np l) i = Some ci ->
  nth_error (place np l) (S i) = Some cj ->
  exists bi, c_base ci = Some bi /\ c_base cj = Some (bi + c_window ci).
Proof.
  induction l as [|x r IH]; intros np i ci cj Hi Hj;
    [destruct i; discriminate|].
  destruct i as [|i].
  - cbn in Hi. inversion Hi; subst ci. cbn [place nth_error] in Hj.
    apply place_first in Hj. exists np. split; [reflexivity|exact Hj].
  - cbn [place nth_error] in Hi, Hj. exact (IH _ _ _ _ Hi Hj).
Qed.

(** Placing changes the base ids only. *)
Lemma place_same_candidates (l : list Cand) : forall np,
  map (fun c => (c_name c, c_window c, c_inst c, c_range c, c_amount c))
      (place np l)
  = map (fun c => (c_name c, c_window c, c_inst c, c_range c, c_amount c)) l.
Proof.
  induction l as [|x r IH]; intros np; [reflexivity|].
  cbn [place map]. rewrite IH. reflexivity.
Qed.

(** *** Chains of windows *)

Lemma chain_has_base (np : Z) (l : list Cand) :
  chain np l -> Forall has_base l.
Proof.
  revert np. induction l as [|c r IH]; intros np H; [constructor|].
  destruct H as [b [Hb [_ Hr]]]. constructor; [exists b; exact Hb|].
  exact (IH _ Hr).
Qed.

Lemma chain_weaken (np np' : Z) (l : list Cand) :
  np' <= np -> chain np l -> chain np' l.
Proof.
  destruct l as [|c r]; [auto|]. intros Hle [b [Hb [Hnp Hr]]].
  exists b. repeat split; [exact Hb|lia|exact Hr].
Qed.

Lemma chain_snoc (np : Z) (l : list Cand) (c : Cand) (b : Z) :
  chain np l -> c_base c = Some b -> chain_end np l <= b ->
  chain np (l ++ [c]) /\ chain_end np (l ++ [c]) = b + c_window c.
Proof.
  revert np. induction l as [|x r IH]; intros np Hl Hb Hle; cbn in *.
  - rewrite Hb. split; [|reflexivity]. exists b. auto.
  - destruct Hl as [bx [Hx [Hnp Hr]]]. rewrite Hx in *.
    destruct (IH _ Hr Hb Hle) as [H1 H2]. split; [|exact H2].
    exists bx. auto.
Qed.

(** In a chain of windows of non-negative size every base id is at least
    the starting point. *)
Lemma chain_lower_bound (np : Z) (l : list Cand) :
  chain np l -> Forall (fun c => 0 <= c_window c) l ->
  Forall (fun c => exists b, c_base c = Some b /\ np <= b) l.
Proof.
  revert np. induction l as [|c r IH]; intros np Hl Hw; [constructor|].
  destruct Hl as [b [Hb [Hnp Hr]]]. inversion Hw as [|? ? Hc Hw']; subst.
  constructor; [exists b; auto|].
  eapply Forall_impl; [|exact (IH _ Hr Hw')].
  intros x [bx [Hx Hle]]. exists bx. split; [exact Hx|lia].
Qed.

Lemma chain_non_overlapping (np : Z) (l : list Cand) :
  chain np l -> Forall (fun c => 0 <= c_window c) l -> non_overlapping l.
Proof.
  revert np. induction l as [|c r IH]; intros np Hl Hw i j ci cj Hij Hi Hj.
  - destruct i; discriminate.
  - destruct Hl as [b [Hb [Hnp Hr]]]. inversion Hw as [|? ? Hc Hw']; subst.
    destruct j as [|j]; [lia|]. cbn [nth_error] in Hj. destruct i as [|i].
    + cbn [nth_error] in Hi. inversion Hi; subst ci.
      pose proof (chain_lower_bound _ _ Hr Hw') as Hlow.
      rewrite Forall_forall in Hlow.
      destruct (Hlow cj (nth_error_In _ _ Hj)) as [bj [Hbj Hle]].
      exists b, bj. auto.
    + cbn [nth_error] in Hi. apply (IH _ Hr Hw' i j); [lia|assumption..].
Qed.

Lemma chain_no_collision (np : Z) (l : list Cand) (p t : Cand) :
  chain np l -> adjacent p t l -> ~ collide p t.
Proof.
  intros Hl [pre [post ->]] [bp [bt [Hp [Ht Hlt]]]]. revert np Hl.
  induction pre as [|x pre IH]; intros np Hl; cbn in Hl.
  - destruct Hl as [b [Hb [_ [b' [Hb' [Hle _]]]]]].
    rewrite Hp in Hb. rewrite Ht in Hb'. inversion Hb. inversion Hb'. lia.
  - destruct Hl as [b [_ [_ Hr]]]. exact (IH _ Hr).
Qed.

(** A list of candidates with base ids is a chain, or has a first pair of
    neighbours that collide. *)
Lemma chain_or_collision (l : list Cand) : forall np,
  Forall (fun c => exists b, c_base c = Some b /\ np <= b) (firstn 1 l) ->
  Forall has_base l ->
  chain np l
  \/ exists pre p t post,
       l = (pre ++ p :: t :: post)%list
       /\ chain np (pre ++ [p]) /\ collide p t.
Proof.
  induction l as [|c r IH]; intros np Hhead Hb; [left; exact I|].
  cbn [firstn] in Hhead. inversion Hhead as [|? ? [b [Hc Hnp]] _]; subst.
  inversion Hb as [|? ? _ Hr]; subst.
  destruct r as [|t r'].
  - left. exists b. cbn. auto.
  - inversion Hr as [|? ? [bt Ht] _]; subst.
    destruct (Z_lt_le_dec bt (b + c_window c)) as [Hlt|Hle].
    + right. exists [], c, t, r'. split; [reflexivity|]. split.
      * exists b. cbn. auto.
      * exists b, bt. auto.
    + destruct (IH (b + c_window c)) as [Hch|[pre [p [t' [post [E [Hch Hco]]]]]]].
      * cbn [firstn]. constructor; [|constructor]. exists bt. auto.
      * exact Hr.
      * left. exists b. auto.
      * right. exists (c :: pre), p, t', post. rewrite E.
        split; [reflexivity|]. split; [|exact Hco].
        exists b. auto.
Qed.

(** *** The result of the loop *)

Lemma merge_inv_placed id F S st st' :
  merge_inv id F S st -> placed st st' -> merge_inv id F S st'.
Proof.
  intros [Hout [Hend [Hpend [Hin Hfl]]]] Hpl.
  destruct Hpl as [f fs Hf Hfit Hw' Hf' Ho' Hid' Hwin'
                  | w ws b Hw Hb Hfit Hw' Hf' Ho' Hid' Hwin'];
    unfold merge_inv, next_poss_id in *; rewrite Ho', Hid', Hwin', Hw'.
  - destruct (chain_snoc id (out_base_ids_list st)
                (set_base f (prev_id st + prev_window st))
                (prev_id st + prev_window st) Hout eq_refl) as [H1 H2];
      [lia|].
    split; [exact H1|]. split; [exact H2|]. split; [|split].
    + destruct Hfit as [E|[w [ws [b [E [Hb Hle]]]]]]; rewrite E in *;
        [exact I|].
      destruct Hpend as [b' [Hb' [_ Hr]]]. rewrite Hb in Hb'. inversion Hb'.
      subst b'. exists b. auto.
    + intros c Hc. destruct (Hin c Hc) as [H|H]; [|right; exact H].
      left. apply in_or_app. left. exact H.
    + intros HF. destruct (Hfl HF) as [E1 E2]. split; [exact E1|].
      rewrite Hf', <- E2, Hf. cbn [place]. rewrite <- app_assoc. reflexivity.
  - rewrite Hw in Hpend. destruct Hpend as [b' [Hb' [Hle Hr]]].
    rewrite Hb in Hb'. inversion Hb'. subst b'.
    destruct (chain_snoc id (out_base_ids_list st) w b Hout Hb) as [H1 H2];
      [lia|].
    split; [exact H1|]. split; [exact H2|]. split; [exact Hr|]. split.
    + intros c Hc. destruct (Hin c Hc) as [H|H].
      * left. apply in_or_app. left. exact H.
      * rewrite Hw in H. destruct H as [->|H]; [|right; exact H].
        left. apply in_or_app. right. left. reflexivity.
    + intros HF. destruct (Hfl HF) as [E1 _]. rewrite Hw in E1. discriminate.
Qed.

Lemma merge_loop_result (id : Z) (F S : list Cand) :
  chain id F ->
  exists st,
    merge_loop (List.length F + List.length S) (merge_start F S id) = Ok st
    /\ merge_done st = true
    /\ chain id (out_base_ids_list st)
    /\ (forall c, In c F -> In c (out_base_ids_list st))
    /\ (F = [] -> out_base_ids_list st = place id S).
Proof.
  intros HF.
  destruct (merge_loop_invariant (merge_inv id F S)
              (merge_inv_placed id F S)
              (fun st H => chain_has_base _ _ (proj1 (proj2 (proj2 H))))
              (List.length F + List.length S)%nat (merge_start F S id))
    as [st [E [Hd [Hout [_ [_ [Hin Hfl]]]]]]].
  - unfold merge_inv, merge_start, next_poss_id, pending_with, pending_without.
    cbn. rewrite Z.add_0_r. repeat split; auto.
  - apply Nat.le_refl.
  - apply merge_done_pending in Hd. destruct Hd as [Hw Hf].
    exists st. split; [exact E|]. split; [apply merge_done_pending; auto|].
    split; [exact Hout|]. split.
    + intros c Hc. destruct (Hin c Hc) as [H|H]; [exact H|].
      rewrite Hw in H. destruct H.
    + intros HF0. destruct (Hfl HF0) as [_ H]. rewrite Hf in H.
      cbn [place] in H. rewrite app_nil_r in H. exact H.
Qed.

End Merge.

(* ================================================================= *)
(** ** Properties of the allocation engine *)

Module Engine.
Import Py LogM TopoFactory Props LogFacts Resolver Sorting Merge.

(** *** Pass 1 *)

Lemma explicit_of_instance id window inst l c :
  set_base_id_list id window inst = (l, Ok c) ->
  explicit c = match inst_base_id inst with Some _ => true | None => false end.
Proof.
  intros H. destruct (set_base_id_list_fields _ _ _ _ _ H) as [_ [_ Hb]].
  unfold explicit. destruct (inst_base_id inst).
  - destruct Hb as [v [_ ->]]. reflexivity.
  - rewrite Hb. reflexivity.
Qed.

Lemma pass1_step_Ok id window W G inst l c :
  set_base_id_list id window inst = (l, Ok c) ->
  pass1_step id window (W, G) inst
  = (l, Ok ((W ++ filter explicit [c])%list, (G ++ filter floating [c])%list)).
Proof.
  intros H. unfold pass1_step. rewrite H. cbn [bind filter]. unfold floating.
  rewrite (explicit_of_instance _ _ _ _ _ H).
  destruct (inst_base_id inst); cbn; rewrite !app_nil_r; reflexivity.
Qed.

Lemma pass1_resolved id window insts cands :
  resolved id window insts cands ->
  forall W G,
  exists l, for_each (pass1_step id window) insts (W, G)
            = (l, Ok ((W ++ filter explicit cands)%list,
                      (G ++ filter floating cands)%list)).
Proof.
  induction 1 as [|inst c insts cands [l Hc] _ IH]; intros W G.
  - exists []. cbn. rewrite !app_nil_r. reflexivity.
  - cbn [for_each]. rewrite (pass1_step_Ok _ _ W G _ _ _ Hc).
    destruct (IH (W ++ filter explicit [c])%list (G ++ filter floating [c])%list)
      as [l' E].
    exists (l ++ l')%list. cbn [bind]. rewrite E.
    change (c :: cands) with ([c] ++ cands)%list.
    rewrite !filter_app, !app_assoc. reflexivity.
Qed.

Lemma pass1_Ok_inv id window insts : forall W G l W' G',
  for_each (pass1_step id window) insts (W, G) = (l, Ok (W', G')) ->
  exists cands,
    resolved id window insts cands
    /\ W' = (W ++ filter explicit cands)%list
    /\ G' = (G ++ filter floating cands)%list.
Proof.
  induction insts as [|inst insts IH]; intros W G l W' G' H.
  - cbn in H. inversion H; subst. exists []. cbn. rewrite !app_nil_r.
    repeat split. constructor.
  - apply for_each_cons_inv in H.
    destruct H as [l1 [[W1 G1] [l2 [H1 [H2 _]]]]].
    destruct (set_base_id_list id window inst) as [lc [c|e]] eqn:Hc;
      [|unfold pass1_step in H1; rewrite Hc in H1; discriminate].
    rewrite (pass1_step_Ok _ _ W G _ _ _ Hc) in H1. inversion H1; subst.
    destruct (IH _ _ _ _ _ H2) as [cands [Hr [-> ->]]].
    exists (c :: cands). split; [constructor; [exists l1; exact Hc|exact Hr]|].
    change (c :: cands) with ([c] ++ cands)%list.
    rewrite !filter_app, !app_assoc. auto.
Qed.

(** The explicit base ids of resolved candidates are at least the floor. *)
Lemma resolved_explicit_base id window insts cands :
  resolved id window insts cands ->
  Forall (fun c => exists b, c_base c = Some b /\ id <= b)
         (filter explicit cands).
Proof.
  induction 1 as [|inst c insts cands [l Hc] _ IH]; [constructor|].
  cbn [filter]. destruct (explicit c) eqn:E; [|exact IH].
  constructor; [|exact IH].
  destruct (set_base_id_list_fields _ _ _ _ _ Hc) as [_ [_ Hb]].
  unfold explicit in E. destruct (inst_base_id inst).
  - destruct Hb as [v [_ Hb]]. eexists. split; [exact Hb|].
    apply offset_base_ge. apply Z.abs_nonneg.
  - rewrite Hb in E. discriminate.
Qed.

(** *** Pass 3 *)

Lemma check_collision_base pn pid pw t b :
  c_base t = Some b ->
  check_collision (pn, pid, pw) t
  = if b <? pid + pw
    then ([msg_base_collision (c_name t) b pn pid pw],
          Err (Exception (msg_base_collision (c_name t) b pn pid pw)))
    else ([], Ok (c_name t, b, c_window t)).
Proof.
  intros Hb. unfold check_collision. rewrite Hb. cbn [the_int lift bind].
  destruct (b <? pid + pw); reflexivity.
Qed.

Lemma check_collisions_chain (F : list Cand) : forall pn pid pw,
  chain (pid + pw) F ->
  exists st, for_each check_collision F (pn, pid, pw) = ([], Ok st).
Proof.
  induction F as [|t F IH]; intros pn pid pw H; [eexists; reflexivity|].
  destruct H as [b [Hb [Hle Hr]]]. cbn [for_each].
  rewrite (check_collision_base _ _ _ _ _ Hb).
  replace (b <? pid + pw) with false by (symmetry; apply Z.ltb_ge; exact Hle).
  destruct (IH (c_name t) b (c_window t) Hr) as [st E].
  exists st. cbn [bind]. rewrite E. reflexivity.
Qed.

Lemma check_collisions_Ok_inv (F : list Cand) : forall pn pid pw l st,
  for_each check_collision F (pn, pid, pw) = (l, Ok st) ->
  chain (pid + pw) F.
Proof.
  induction F as [|t F IH]; intros pn pid pw l st H; [exact I|].
  apply for_each_cons_inv in H. destruct H as [l1 [s1 [l2 [H1 [H2 _]]]]].
  destruct (c_base t) as [b|] eqn:Hb;
    [|unfold check_collision in H1; rewrite Hb in H1; discriminate].
  rewrite (check_collision_base _ _ _ _ _ Hb) in H1.
  destruct (b <? pid + pw) eqn:Hlt; [discriminate|]. inversion H1; subst.
  exists b. apply Z.ltb_ge in Hlt. repeat split; try assumption.
  exact (IH _ _ _ _ _ H2).
Qed.

(** The first pair of neighbours that collide is the one reported. *)
Lemma check_collisions_raise (pre : list Cand) :
  forall pn pid pw p t post bp bt,
  chain (pid + pw) (pre ++ [p]) ->
  c_base p = Some bp -> c_base t = Some bt -> bt < bp + c_window p ->
  for_each check_collision (pre ++ p :: t :: post) (pn, pid, pw)
  = ([msg_base_collision (c_name t) bt (c_name p) bp (c_window p)],
     Err (Exception
            (msg_base_collision (c_name t) bt (c_name p) bp (c_window p)))).
Proof.
  induction pre as [|x pre IH]; intros pn pid pw p t post bp bt Hch Hp Ht Hlt.
  - cbn in Hch. destruct Hch as [b [Hb [Hle _]]]. rewrite Hp in Hb.
    inversion Hb; subst b. cbn [app for_each].
    rewrite (check_collision_base _ _ _ _ _ Hp).
    replace (bp <? pid + pw) with false by (symmetry; apply Z.ltb_ge; exact Hle).
    cbn [bind]. rewrite (check_collision_base _ _ _ _ _ Ht).
    replace (bt <? bp + c_window p) with true
      by (symmetry; apply Z.ltb_lt; exact Hlt).
    reflexivity.
  - cbn in Hch. destruct Hch as [b [Hb [Hle Hr]]]. cbn [app for_each].
    rewrite (check_collision_base _ _ _ _ _ Hb).
    replace (b <? pid + pw) with false by (symmetry; apply Z.ltb_ge; exact Hle).
    cbn [bind]. rewrite (IH _ _ _ _ _ _ _ _ Hr Hp Ht Hlt). reflexivity.
Qed.

(** *** Passes 1 to 4 together *)

Lemma passes_eq id window insts l1 W G F S l3 r3 :
  for_each (pass1_step id window) insts ([], []) = (l1, Ok (W, G)) ->
  sort_by c_base W = Ok F ->
  sort_by window_key G = Ok S ->
  for_each check_collision F ("NONE", 0, 0) = (l3, r3) ->
  passes id window insts
  = ((l1 ++ l3)%list,
     _ <-- r3 ;;
     st <-- merge_loop (List.length F + List.length S) (merge_start F S id) ;;
     Ok (out_base_ids_list st)).
Proof.
  intros H1 HF HS H3. unfold passes. rewrite H1. cbn [bind].
  rewrite HF. cbn [lift bind]. unfold window_key in HS. rewrite HS.
  cbn [lift bind]. rewrite H3. fold (merge_start F S id).
  destruct r3 as [s3|e]; cbn [bind rbind]; [|reflexivity].
  destruct (merge_loop (List.length F + List.length S) (merge_start F S id));
    cbn [lift bind ret rbind app]; rewrite ?app_nil_r; reflexivity.
Qed.

Lemma passes_Ok_inv id window insts l out :
  passes id window insts = (l, Ok out) ->
  exists cands F S st,
    resolved id window insts cands
    /\ sort_by c_base (filter explicit cands) = Ok F
    /\ sort_by window_key (filter floating cands) = Ok S
    /\ chain 0 F
    /\ merge_loop (List.length F + List.length S) (merge_start F S id) = Ok st
    /\ out = out_base_ids_list st.
Proof.
  intros H.
  destruct (for_each (pass1_step id window) insts ([], []))
    as [l1 [[W G]|e]] eqn:H1;
    [|unfold passes in H; rewrite H1 in H; discriminate].
  destruct (sort_by c_base W) as [F|e] eqn:HF;
    [|unfold passes in H; rewrite H1 in H; cbn [bind] in H;
      rewrite HF in H; discriminate].
  destruct (sort_by window_key G) as [S|e] eqn:HS;
    [|unfold passes in H; rewrite H1 in H; cbn [bind] in H;
      rewrite HF in H; cbn [lift bind] in H; unfold window_key in HS;
      rewrite HS in H; discriminate].
  destruct (for_each check_collision F ("NONE", 0, 0)) as [l3 r3] eqn:H3.
  rewrite (passes_eq _ _ _ _ _ _ _ _ _ _ H1 HF HS H3) in H.
  destruct r3 as [s3|e]; cbn [rbind] in H; [|discriminate].
  destruct (merge_loop (List.length F + List.length S) (merge_start F S id))
    as [st|e] eqn:Hm; cbn [rbind] in H; [|discriminate].
  inversion H; subst.
  apply pass1_Ok_inv in H1. destruct H1 as [cands [Hr [-> ->]]].
  cbn [app] in *. exists cands, F, S, st.
  repeat split; try assumption.
  exact (check_collisions_Ok_inv _ _ _ _ _ _ H3).
Qed.

(** *** [__compute_base_ids] *)

Lemma compute_base_ids_eq cfgb cfgw ab aw insts abid awin :
  int_of_str 10 (assembly_text ab cfgb) = Ok abid ->
  int_of_str 10 (assembly_text aw cfgw) = Ok awin ->
  exists l0,
    forall l r, passes (floor_id abid) awin insts = (l, r) ->
                compute_base_ids cfgb cfgw ab aw insts = ((l0 ++ l)%list, r).
Proof.
  intros Hb Hw.
  exists (match ab with Some _ => [] | None => [msg_default_base cfgb] end
          ++ match aw with Some _ => [] | None => [msg_default_window cfgw] end
         )%list.
  unfold compute_base_ids, or_default.
  destruct ab as [sb|], aw as [sw|]; cbn [assembly_text] in Hb, Hw;
    cbn [bind info ret]; rewrite Hb; cbn [lift bind]; rewrite Hw;
    cbn [lift bind]; fold (floor_id abid);
    intros l r ->; cbn [app]; reflexivity.
Qed.

Lemma compute_base_ids_Ok_inv cfgb cfgw ab aw insts l out :
  compute_base_ids cfgb cfgw ab aw insts = (l, Ok out) ->
  exists abid awin l',
    int_of_str 10 (assembly_text ab cfgb) = Ok abid
    /\ int_of_str 10 (assembly_text aw cfgw) = Ok awin
    /\ passes (floor_id abid) awin insts = (l', Ok out).
Proof.
  intros H.
  destruct (int_of_str 10 (assembly_text ab cfgb)) as [abid|e] eqn:Hb.
  2:{ unfold compute_base_ids, or_default in H.
      destruct ab, aw; cbn [assembly_text] in Hb; cbn [bind info ret] in H;
        rewrite Hb in H; discriminate. }
  destruct (int_of_str 10 (assembly_text aw cfgw)) as [awin|e] eqn:Hw.
  2:{ unfold compute_base_ids, or_default in H.
      destruct ab, aw; cbn [assembly_text] in Hb, Hw; cbn [bind info ret] in H;
        rewrite Hb in H; cbn [lift bind] in H; rewrite Hw in H;
        discriminate. }
  destruct (compute_base_ids_eq cfgb cfgw ab aw insts abid awin Hb Hw)
    as [l0 E].
  destruct (passes (floor_id abid) awin insts) as [l' r] eqn:Hp.
  rewrite (E l' r eq_refl) in H. inversion H; subst.
  exists abid, awin, l'. auto.
Qed.

Lemma floor_id_max (abid : Z) : floor_id abid = Z.max abid 1.
Proof.
  unfold floor_id. destruct (abid <=? 0) eqn:E.
  - apply Z.leb_le in E. lia.
  - apply Z.leb_gt in E. lia.
Qed.

End Engine.

(* ================================================================= *)
(** ** The allocation as a whole *)

Module Allocation.
Import Py LogM TopoFactory Props Analyzer LogFacts Resolver Sorting Merge Engine.

Lemma chain_from_floor (np np' : Z) (l : list Cand) :
  chain np l ->
  Forall (fun c => exists b, c_base c = Some b /\ np' <= b) l ->
  chain np' l.
Proof.
  destruct l as [|c r]; [auto|]. intros [b [Hb [_ Hr]]] Hf.
  inversion Hf as [|? ? [b' [Hb' Hle]] _]; subst.
  rewrite Hb in Hb'. injection Hb' as <-. exists b. auto.
Qed.

Lemma chain_consecutive (l : list Cand) : forall np i ci cj,
  chain np l ->
  nth_error l i = Some ci -> nth_error l (S i) = Some cj ->
  exists bi bj, c_base ci = Some bi /\ c_base cj = Some bj
                /\ bi + c_window ci <= bj.
Proof.
  induction l as [|c r IH]; intros np i ci cj Hl Hi Hj;
    [destruct i; discriminate|].
  destruct Hl as [b [Hb [_ Hr]]]. destruct i as [|i].
  - cbn in Hi, Hj. inversion Hi; subst ci. destruct r as [|c' r']; [discriminate|].
    cbn in Hj. inversion Hj; subst cj. destruct Hr as [b' [Hb' [Hle _]]].
    exists b, b'. auto.
  - cbn [nth_error] in Hi, Hj. exact (IH _ _ _ _ Hr Hi Hj).
Qed.

(** The output of passes 1 to 4 is a chain from the floor, and holds every
    candidate with an explicit base id as it was resolved. *)
Lemma passes_chain id window insts l out :
  passes id window insts = (l, Ok out) ->
  chain id out
  /\ exists cands, resolved id window insts cands
                   /\ forall c, In c cands -> explicit c = true -> In c out.
Proof.
  intros H. apply passes_Ok_inv in H.
  destruct H as [cands [F [S [st [Hr [HF [HS [Hch [Hm ->]]]]]]]]].
  assert (Hid : chain id F).
  { apply (chain_from_floor 0); [exact Hch|].
    eapply Permutation_Forall; [exact (sort_by_perm _ _ _ HF)|].
    exact (resolved_explicit_base _ _ _ _ Hr). }
  destruct (merge_loop_result id F S Hid) as [st' [E [_ [Hout [Hin _]]]]].
  rewrite Hm in E. inversion E; subst st'. split; [exact Hout|].
  exists cands. split; [exact Hr|]. intros c Hc He. apply Hin.
  eapply Permutation_in; [exact (sort_by_perm _ _ _ HF)|].
  apply filter_In. auto.
Qed.

Lemma resolved_In id window insts cands inst :
  resolved id window insts cands -> In inst insts ->
  exists c l, In c cands /\ set_base_id_list id window inst = (l, Ok c).
Proof.
  induction 1 as [|i c insts cands [l Hc] _ IH]; intros Hin; [destruct Hin|].
  destruct Hin as [->|Hin].
  - exists c, l. split; [left; reflexivity|exact Hc].
  - destruct (IH Hin) as [c' [l' [H1 H2]]]. exists c', l'.
    split; [right; exact H1|exact H2].
Qed.

(** C1. In the list that a completed run returns, every entry starts at or
    after the end of the window of the entry before it; when no resolved
    window is negative, every entry starts at or after the end of the
    window of every earlier entry. *)
Theorem assigned_windows_do_not_overlap cfgb cfgw ab aw insts l out :
  compute_base_ids cfgb cfgw ab aw insts = (l, Ok out) ->
  (forall i ci cj,
      nth_error out i = Some ci -> nth_error out (S i) = Some cj ->
      exists bi bj, c_base ci = Some bi /\ c_base cj = Some bj
                    /\ bi + c_window ci <= bj)
  /\ (Forall (fun c => 0 <= c_window c) out -> non_overlapping out).
Proof.
  intros H. apply compute_base_ids_Ok_inv in H.
  destruct H as [abid [awin [l' [_ [_ Hp]]]]].
  destruct (passes_chain _ _ _ _ _ Hp) as [Hch _]. split.
  - intros i ci cj. exact (chain_consecutive out _ i ci cj Hch).
  - exact (chain_non_overlapping _ out Hch).
Qed.

Lemma assigned_windows_do_not_overlap_witness :
  exists l out,
    compute_base_ids "1" "100" (Some "0") None Samples.mixed = (l, Ok out)
    /\ map (fun c => (c_name c, c_base c, c_window c)) out
       = [("A", Some 1, 20); ("B", Some 50, 10); ("C", Some 60, 100)]
    /\ non_overlapping out.
Proof.
  destruct (compute_base_ids "1" "100" (Some "0") None Samples.mixed)
    as [l [out|e]] eqn:E; [|vm_compute in E; discriminate].
  exists l, out.
  assert (Hout : map (fun c => (c_name c, c_base c, c_window c)) out
                 = [("A", Some 1, 20); ("B", Some 50, 10); ("C", Some 60, 100)]).
  { vm_compute in E. inversion E. reflexivity. }
  split; [reflexivity|]. split; [exact Hout|].
  apply (proj2 (assigned_windows_do_not_overlap _ _ _ _ _ _ _ E)).
  destruct out as [|a [|b [|c [|d r]]]]; try discriminate Hout.
  cbn [map] in Hout. inversion Hout.
  repeat constructor; lia.
Defined.

(** With negative ids in the components and a negative assembly window the
    resolved windows are negative, and the third entry starts before the
    end of the window of the first. *)
Lemma negative_windows_overlap :
  exists l out,
    compute_base_ids "1" "100" (Some "1") (Some "-20") Samples.negative_windows
    = (l, Ok out)
    /\ map (fun c => (c_name c, c_base c, c_window c)) out
       = [("A", Some 1, -10); ("B", Some (-9), -3); ("C", Some (-12), -3)]
    /\ ~ non_overlapping out.
Proof.
  destruct (compute_base_ids "1" "100" (Some "1") (Some "-20")
                             Samples.negative_windows)
    as [l [out|e]] eqn:E; [|vm_compute in E; discriminate].
  exists l, out.
  assert (Hout : map (fun c => (c_name c, c_base c, c_window c)) out
                 = [("A", Some 1, -10); ("B", Some (-9), -3);
                    ("C", Some (-12), -3)]).
  { vm_compute in E. inversion E. reflexivity. }
  split; [reflexivity|]. split; [exact Hout|].
  destruct out as [|a [|b [|c [|d r]]]]; try discriminate Hout.
  cbn [map] in Hout. inversion Hout.
  intros H. destruct (H 0%nat 2%nat a c) as [bi [bj [Hi [Hj Hle]]]];
    [lia|reflexivity|reflexivity|].
  assert (bi = 1) by congruence. assert (bj = -12) by congruence. lia.
Qed.

(** C4, as the code has it: an explicit base id is read with [int(_, 0)]
    and taken in absolute value; when the assembly base id after the clamp
    (the assembly base id, or 1 when that is zero or negative) exceeds the
    value, the entry of the instance has the sum of the two as base id, and
    the value itself otherwise. *)
Theorem explicit_base_id_offset cfgb cfgw ab aw insts l out inst s :
  compute_base_ids cfgb cfgw ab aw insts = (l, Ok out) ->
  In inst insts ->
  inst_base_id inst = Some s ->
  exists abid v c,
    int_of_str 10 (assembly_text ab cfgb) = Ok abid
    /\ int_of_str 0 s = Ok v
    /\ In c out /\ c_inst c = inst
    /\ c_base c = Some (if floor_id abid >? Z.abs v
                        then Z.abs v + floor_id abid
                        else Z.abs v).
Proof.
  intros H Hin Hs. apply compute_base_ids_Ok_inv in H.
  destruct H as [abid [awin [l' [Hb [_ Hp]]]]].
  destruct (passes_chain _ _ _ _ _ Hp) as [_ [cands [Hr Hout]]].
  destruct (resolved_In _ _ _ _ _ Hr Hin) as [c [lc [Hc Hset]]].
  destruct (set_base_id_list_fields _ _ _ _ _ Hset) as [Hi [_ Hbase]].
  rewrite Hs in Hbase. destruct Hbase as [v [Hv Hcb]].
  exists abid, v, c. repeat split; try assumption.
  apply Hout; [exact Hc|]. unfold explicit. rewrite Hcb. reflexivity.
Qed.

Lemma explicit_base_id_offset_witness :
  exists l out,
    compute_base_ids "1" "100" (Some "60") None Samples.mixed = (l, Ok out)
    /\ In (Samples.instance "B" (Some "50") (Some "10") None) Samples.mixed
    /\ exists abid v c,
         int_of_str 10 "60" = Ok abid
         /\ int_of_str 0 "50" = Ok v
         /\ In c out
         /\ c_inst c = Samples.instance "B" (Some "50") (Some "10") None
         /\ c_base c = Some (if floor_id abid >? Z.abs v
                             then Z.abs v + floor_id abid
                             else Z.abs v).
Proof.
  destruct (compute_base_ids "1" "100" (Some "60") None Samples.mixed)
    as [l [out|e]] eqn:E; [|vm_compute in E; discriminate].
  exists l, out. split; [reflexivity|].
  assert (Hin : In (Samples.instance "B" (Some "50") (Some "10") None)
                   Samples.mixed) by (right; left; reflexivity).
  split; [exact Hin|].
  exact (explicit_base_id_offset "1" "100" (Some "60") None Samples.mixed
           l out _ "50" E Hin eq_refl).
Defined.

(** With the assembly base id 0 the explicit base id 0 is resolved to 1:
    the clamp makes the floor 1, which exceeds 0, although the assembly
    base id itself does not. *)
Lemma explicit_zero_is_moved :
  int_of_str 10 "0" = Ok 0
  /\ int_of_str 0 "0" = Ok 0
  /\ exists l c,
       compute_base_ids "1" "100" (Some "0") (Some "100") [Samples.at_zero]
       = (l, Ok [c])
       /\ c_inst c = Samples.at_zero
       /\ c_base c = Some 1
       /\ c_base c <> Some (if 0 >? Z.abs 0 then Z.abs 0 + 0 else Z.abs 0).
Proof.
  split; [vm_compute; reflexivity|]. split; [vm_compute; reflexivity|].
  do 2 eexists. split; [vm_compute; reflexivity|].
  split; [reflexivity|]. split; [reflexivity|]. cbn. discriminate.
Qed.

Lemma StronglySorted_weaken {A} (R R' : A -> A -> Prop) (l : list A) :
  (forall a b, R a b -> R' a b) -> StronglySorted R l -> StronglySorted R' l.
Proof.
  intros HR. induction 1 as [|a l Hl IH Ha]; constructor; [exact IH|].
  eapply Forall_impl; [|exact Ha]. intros b. apply HR.
Qed.

Lemma resolved_floating id window insts cands :
  (forall inst, In inst insts -> inst_base_id inst = None) ->
  resolved id window insts cands ->
  filter explicit cands = [] /\ filter floating cands = cands.
Proof.
  intros Hnone Hr. induction Hr as [|inst c insts cands [l Hc] _ IH];
    [split; reflexivity|].
  destruct IH as [IH1 IH2]; [intros i Hi; apply Hnone; right; exact Hi|].
  pose proof (explicit_of_instance _ _ _ _ _ Hc) as He.
  rewrite (Hnone inst (or_introl eq_refl)) in He.
  cbn [filter]. unfold floating at 1. rewrite He. cbn [negb].
  rewrite IH1, IH2. split; reflexivity.
Qed.

(** C2. When no instance has an explicit base id, the run returns the
    candidates in ascending order of window, each with the base id where
    the window before it ends, the first at [max(assembly_base_id, 1)]. *)
Theorem floating_candidates_back_to_back
        cfgb cfgw ab aw insts abid awin cands :
  int_of_str 10 (assembly_text ab cfgb) = Ok abid ->
  int_of_str 10 (assembly_text aw cfgw) = Ok awin ->
  (forall inst, In inst insts -> inst_base_id inst = None) ->
  resolved (floor_id abid) awin insts cands ->
  exists l sorted out,
    compute_base_ids cfgb cfgw ab aw insts = (l, Ok out)
    /\ out = place (Z.max abid 1) sorted
    /\ Permutation cands sorted
    /\ StronglySorted (fun a b => c_window a <= c_window b) sorted
    /\ (forall c, nth_error out 0 = Some c -> c_base c = Some (Z.max abid 1))
    /\ (forall i ci cj,
           nth_error out i = Some ci -> nth_error out (S i) = Some cj ->
           exists bi, c_base ci = Some bi
                      /\ c_base cj = Some (bi + c_window ci)).
Proof.
  intros Hb Hw Hnone Hr.
  destruct (resolved_floating _ _ _ _ Hnone Hr) as [HF HG].
  destruct (sort_by_total window_key cands) as [S HS].
  { apply Forall_forall. intros c _. eexists. reflexivity. }
  destruct (pass1_resolved _ _ _ _ Hr [] []) as [l1 H1].
  cbn [app] in H1. rewrite HF, HG in H1.
  pose proof (passes_eq (floor_id abid) awin insts l1 [] cands [] S [] _
                        H1 eq_refl HS eq_refl) as Hp.
  destruct (merge_loop_result (floor_id abid) [] S I)
    as [st [Hm [_ [_ [_ Hout]]]]].
  rewrite Hm in Hp. cbn [rbind] in Hp. rewrite (Hout eq_refl) in Hp.
  destruct (compute_base_ids_eq cfgb cfgw ab aw insts abid awin Hb Hw)
    as [l0 E].
  exists (l0 ++ l1 ++ [])%list, S, (place (Z.max abid 1) S).
  rewrite <- floor_id_max.
  split; [exact (E _ _ Hp)|]. split; [reflexivity|].
  split; [exact (sort_by_perm _ _ _ HS)|]. split.
  - eapply StronglySorted_weaken; [|exact (sort_by_sorted _ _ _ HS)].
    intros a b [x [y [Ha [Hy Hle]]]]. unfold window_key in Ha, Hy.
    inversion Ha. inversion Hy. lia.
  - split; [intros c; apply place_first|intros i ci cj; apply place_next].
Qed.

Lemma floating_candidates_back_to_back_witness :
  exists ca cb l sorted out,
    int_of_str 10 "0" = Ok 0
    /\ int_of_str 10 "100" = Ok 100
    /\ resolved (floor_id 0) 100 Samples.all_floating [ca; cb]
    /\ compute_base_ids "1" "100" (Some "0") None Samples.all_floating
       = (l, Ok out)
    /\ out = place (Z.max 0 1) sorted
    /\ Permutation [ca; cb] sorted
    /\ StronglySorted (fun a b => c_window a <= c_window b) sorted.
Proof.
  assert (Hb : int_of_str 10 (assembly_text (Some "0") "1") = Ok 0)
    by (vm_compute; reflexivity).
  assert (Hw : int_of_str 10 (assembly_text None "100") = Ok 100)
    by (vm_compute; reflexivity).
  assert (Hn : forall inst, In inst Samples.all_floating ->
                            inst_base_id inst = None).
  { intros inst [<-|[<-|[]]]; reflexivity. }
  destruct (set_base_id_list (floor_id 0) 100
              (Samples.instance "A" None None (Some Samples.sensor)))
    as [la [ca|e]] eqn:Ea; [|vm_compute in Ea; discriminate].
  destruct (set_base_id_list (floor_id 0) 100
              (Samples.instance "B" None (Some "20") (Some Samples.sensor)))
    as [lb [cb|e]] eqn:Eb; [|vm_compute in Eb; discriminate].
  assert (Hr : resolved (floor_id 0) 100 Samples.all_floating [ca; cb]).
  { constructor; [exists la; exact Ea|].
    constructor; [exists lb; exact Eb|constructor]. }
  destruct (floating_candidates_back_to_back
              "1" "100" (Some "0") None Samples.all_floating 0 100 [ca; cb]
              Hb Hw Hn Hr) as [l [sorted [out [H1 [H2 [H3 [H4 _]]]]]]].
  exists ca, cb, l, sorted, out. auto 8.
Defined.

(** The sample of two floating instances: the smaller window comes first. *)
Example floating_sample :
  exists l out,
    compute_base_ids "1" "100" (Some "0") None Samples.all_floating
    = (l, Ok out)
    /\ map (fun c => (c_name c, c_base c, c_window c)) out
       = [("B", Some 1, 20); ("A", Some 21, 100)].
Proof. do 2 eexists. split; vm_compute; reflexivity. Qed.

(** *** Collisions of explicit base ids *)

Lemma passes_collision id window insts cands F :
  1 <= id ->
  resolved id window insts cands ->
  sort_by c_base (filter explicit cands) = Ok F ->
  (exists p t, adjacent p t F /\ collide p t) ->
  exists l p t bp bt,
    adjacent p t F
    /\ c_base p = Some bp /\ c_base t = Some bt /\ bt < bp + c_window p
    /\ passes id window insts
       = ((l ++ [msg_base_collision (c_name t) bt (c_name p) bp (c_window p)])%list,
          Err (Exception
                 (msg_base_collision (c_name t) bt (c_name p) bp (c_window p)))).
Proof.
  intros Hid Hr HF [p0 [t0 [Hadj Hco]]].
  assert (Hbases : Forall (fun c => exists b, c_base c = Some b /\ id <= b) F).
  { eapply Permutation_Forall; [exact (sort_by_perm _ _ _ HF)|].
    exact (resolved_explicit_base _ _ _ _ Hr). }
  destruct (chain_or_collision F 0) as [Hch|[pre [p [t [post [E [Hch Hc]]]]]]].
  - destruct F as [|c r]; [constructor|]. cbn [firstn].
    inversion Hbases as [|? ? [b [Hb Hle]] _]; subst.
    constructor; [|constructor]. exists b. split; [exact Hb|lia].
  - eapply Forall_impl; [|exact Hbases]. intros c [b [Hb _]]. exists b. exact Hb.
  - exfalso. exact (chain_no_collision 0 F p0 t0 Hch Hadj Hco).
  - destruct Hc as [bp [bt [Hp [Ht Hlt]]]].
    destruct (sort_by_total window_key (filter floating cands)) as [S HS].
    { apply Forall_forall. intros c _. eexists. reflexivity. }
    destruct (pass1_resolved _ _ _ _ Hr [] []) as [l1 H1]. cbn [app] in H1.
    pose proof (check_collisions_raise pre "NONE" 0 0 p t post bp bt
                                       Hch Hp Ht Hlt) as H3.
    rewrite <- E in H3.
    exists l1, p, t, bp, bt. split; [exists pre, post; exact E|].
    repeat (split; [assumption|]).
    exact (passes_eq id window insts l1 _ _ F S _ _ H1 HF HS H3).
Qed.

Lemma floor_id_pos (abid : Z) : 1 <= floor_id abid.
Proof. rewrite floor_id_max. lia. Qed.

(** The candidates of the pair of the specification, for a floor of at
    most 10. *)
Lemma colliding_pair_resolved id window :
  id <= 10 ->
  exists lc ld cc cd,
    set_base_id_list id window Samples.inst_C = (lc, Ok cc)
    /\ set_base_id_list id window Samples.inst_D = (ld, Ok cd)
    /\ cc = {| c_name := "C"; c_base := Some 10; c_window := 20;
               c_inst := Samples.inst_C; c_range := None; c_amount := None |}
    /\ cd = {| c_name := "D"; c_base := Some 15; c_window := 5;
               c_inst := Samples.inst_D; c_range := None; c_amount := None |}.
Proof.
  intros Hid.
  assert (HC : literal (inst_base_id Samples.inst_C) (Some 10))
    by (exists 10; split; [vm_compute|]; reflexivity).
  assert (HD : literal (inst_base_id Samples.inst_D) (Some 15))
    by (exists 15; split; [vm_compute|]; reflexivity).
  assert (WC : literal (inst_base_id_window Samples.inst_C) (Some 20))
    by (exists 20; split; [vm_compute|]; reflexivity).
  assert (WD : literal (inst_base_id_window Samples.inst_D) (Some 5))
    by (exists 5; split; [vm_compute|]; reflexivity).
  destruct (set_base_id_list_total id window Samples.inst_C _ _ None 20
              HC WC eq_refl eq_refl) as [lc Ec].
  destruct (set_base_id_list_total id window Samples.inst_D _ _ None 5
              HD WD eq_refl eq_refl) as [ld Ed].
  do 4 eexists. split; [exact Ec|]. split; [exact Ed|].
  cbn [option_map Samples.inst_C Samples.inst_D Samples.instance
       inst_name inst_component_object compute_component_ID_amount].
  unfold offset_base.
  replace (id >? Z.abs 10) with false
    by (symmetry; rewrite Z.gtb_ltb; apply Z.ltb_ge; cbn; lia).
  replace (id >? Z.abs 15) with false
    by (symmetry; rewrite Z.gtb_ltb; apply Z.ltb_ge; cbn; lia).
  split; reflexivity.
Qed.

(** C3, as the code has it: when two neighbours in the list of the
    candidates with explicit base ids, sorted by base id, collide, the run
    raises an exception and returns no list; the message, which is logged
    as well, names both instances, both base ids and the window of the
    earlier one.  The pair of the specification, base id 10 with window 20
    and base id 15 with window 5, raises it for every assembly base id up
    to 10. *)
Theorem explicit_base_id_collision_is_fatal
        cfgb cfgw ab aw insts abid awin cands F :
  int_of_str 10 (assembly_text ab cfgb) = Ok abid ->
  int_of_str 10 (assembly_text aw cfgw) = Ok awin ->
  resolved (floor_id abid) awin insts cands ->
  sort_by c_base (filter explicit cands) = Ok F ->
  (exists p t, adjacent p t F /\ collide p t) ->
  (exists l p t bp bt,
      adjacent p t F
      /\ c_base p = Some bp /\ c_base t = Some bt /\ bt < bp + c_window p
      /\ compute_base_ids cfgb cfgw ab aw insts
         = ((l ++ [msg_base_collision (c_name t) bt (c_name p) bp
                                      (c_window p)])%list,
            Err (Exception
                   (msg_base_collision (c_name t) bt (c_name p) bp
                                       (c_window p)))))
  /\ (abid <= 10 ->
      exists l,
        compute_base_ids cfgb cfgw ab aw [Samples.inst_C; Samples.inst_D]
        = ((l ++ [msg_base_collision "D" 15 "C" 10 20])%list,
           Err (Exception (msg_base_collision "D" 15 "C" 10 20)))).
Proof.
  intros Hb Hw Hr HF Hco.
  destruct (compute_base_ids_eq cfgb cfgw ab aw insts abid awin Hb Hw)
    as [l0 E].
  split.
  - destruct (passes_collision _ _ _ _ _ (floor_id_pos abid) Hr HF Hco)
      as [l [p [t [bp [bt [Hadj [Hp [Ht [Hlt Hpass]]]]]]]]].
    exists (l0 ++ l)%list, p, t, bp, bt. repeat (split; [assumption|]).
    rewrite <- app_assoc. exact (E _ _ Hpass).
  - intros Hle.
    assert (Hfl : floor_id abid <= 10).
    { rewrite floor_id_max. lia. }
    destruct (colliding_pair_resolved (floor_id abid) awin Hfl)
      as [lc [ld [cc [cd [Ec [Ed [Hcc Hcd]]]]]]].
    assert (Hr2 : resolved (floor_id abid) awin
                           [Samples.inst_C; Samples.inst_D] [cc; cd]).
    { constructor; [exists lc; exact Ec|].
      constructor; [exists ld; exact Ed|constructor]. }
    assert (HF2 : sort_by c_base (filter explicit [cc; cd]) = Ok [cc; cd]).
    { subst cc cd. reflexivity. }
    destruct (pass1_resolved _ _ _ _ Hr2 [] []) as [l1 H1]. cbn [app] in H1.
    destruct (sort_by_total window_key (filter floating [cc; cd])) as [S HS].
    { apply Forall_forall. intros c _. eexists. reflexivity. }
    assert (H3 : for_each check_collision [cc; cd] ("NONE", 0, 0)
                 = ([msg_base_collision "D" 15 "C" 10 20],
                    Err (Exception (msg_base_collision "D" 15 "C" 10 20)))).
    { pose proof (check_collisions_raise [] "NONE" 0 0 cc cd [] 10 15) as H.
      rewrite Hcc, Hcd in H |- *. apply H; cbn; try reflexivity; try lia.
      exists 10. repeat split; lia. }
    destruct (compute_base_ids_eq cfgb cfgw ab aw
                [Samples.inst_C; Samples.inst_D] abid awin Hb Hw) as [l0' E'].
    exists (l0' ++ l1)%list. rewrite <- app_assoc.
    exact (E' _ _ (passes_eq _ _ _ l1 _ _ _ S _ _ H1 HF2 HS H3)).
Qed.

Lemma explicit_base_id_collision_is_fatal_witness :
  exists cc cd l,
    int_of_str 10 "0" = Ok 0
    /\ int_of_str 10 "100" = Ok 100
    /\ resolved (floor_id 0) 100 [Samples.inst_C; Samples.inst_D] [cc; cd]
    /\ sort_by c_base (filter explicit [cc; cd]) = Ok [cc; cd]
    /\ adjacent cc cd [cc; cd] /\ collide cc cd
    /\ compute_base_ids "1" "100" (Some "0") None
                        [Samples.inst_C; Samples.inst_D]
       = ((l ++ [msg_base_collision "D" 15 "C" 10 20])%list,
          Err (Exception (msg_base_collision "D" 15 "C" 10 20))).
Proof.
  assert (Hb : int_of_str 10 (assembly_text (Some "0") "1") = Ok 0)
    by (vm_compute; reflexivity).
  assert (Hw : int_of_str 10 (assembly_text None "100") = Ok 100)
    by (vm_compute; reflexivity).
  destruct (colliding_pair_resolved (floor_id 0) 100)
    as [lc [ld [cc [cd [Ec [Ed [Hcc Hcd]]]]]]]; [cbn; lia|].
  assert (Hr : resolved (floor_id 0) 100
                        [Samples.inst_C; Samples.inst_D] [cc; cd]).
  { constructor; [exists lc; exact Ec|].
    constructor; [exists ld; exact Ed|constructor]. }
  assert (HF : sort_by c_base (filter explicit [cc; cd]) = Ok [cc; cd]).
  { subst cc cd. reflexivity. }
  assert (Hadj : adjacent cc cd [cc; cd]) by (exists [], []; reflexivity).
  assert (Hco : collide cc cd).
  { subst cc cd. exists 10, 15. cbn. repeat split; lia. }
  destruct (explicit_base_id_collision_is_fatal
              "1" "100" (Some "0") None [Samples.inst_C; Samples.inst_D]
              0 100 [cc; cd] [cc; cd] Hb Hw Hr HF
              (ex_intro _ cc (ex_intro _ cd (conj Hadj Hco))))
    as [_ Hex].
  destruct (Hex ltac:(lia)) as [l Hl].
  exists cc, cd, l. auto 8.
Defined.

(** The exception of the colliding pair is the same whether the later
    instance has the window 5 or the window 7, so that window is not told;
    and with the assembly base id 12 the pair does not collide, since the
    base id 10 is moved to 22. *)
Lemma collision_report_counterexample :
  (exists l l' e,
      compute_base_ids "1" "100" (Some "0") (Some "100")
                       [Samples.inst_C; Samples.inst_D] = (l, Err e)
      /\ compute_base_ids "1" "100" (Some "0") (Some "100")
                          [Samples.inst_C; Samples.inst_D7] = (l', Err e)
      /\ e = Exception "Component D has a base ID 15 which collides with the allocated IDs for component C (base ID 10 , window ID 20)"
      /\ inst_base_id_window Samples.inst_D = Some "5"
      /\ inst_base_id_window Samples.inst_D7 = Some "7")
  /\ (exists l out,
         compute_base_ids "1" "100" (Some "12") (Some "100")
                          [Samples.inst_C; Samples.inst_D] = (l, Ok out)
         /\ map (fun c => (c_name c, c_base c, c_window c)) out
            = [("D", Some 15, 5); ("C", Some 22, 20)]).
Proof.
  split.
  - do 3 eexists. split; [vm_compute; reflexivity|].
    split; [vm_compute; reflexivity|]. repeat split.
  - do 2 eexists. split; vm_compute; reflexivity.
Qed.

(** *** Collisions inside a component *)

(** An instance whose component does not pass the analysis gets no
    candidate. *)
Lemma set_base_id_list_raises id window inst e :
  compute_component_base_id_range (inst_component_object inst) = Err e ->
  forall l c, set_base_id_list id window inst <> (l, Ok c).
Proof.
  intros He l c H. apply set_base_id_list_Ok_inv in H.
  destruct H as [lb [b [r [lw [w [_ [Hr _]]]]]]]. rewrite He in Hr.
  discriminate.
Qed.

Lemma compute_base_ids_raises cfgb cfgw ab aw insts inst :
  In inst insts ->
  (forall id window l c, set_base_id_list id window inst <> (l, Ok c)) ->
  forall l out, compute_base_ids cfgb cfgw ab aw insts <> (l, Ok out).
Proof.
  intros Hin Hno l out H. apply compute_base_ids_Ok_inv in H.
  destruct H as [abid [awin [l' [_ [_ Hp]]]]].
  apply passes_Ok_inv in Hp. destruct Hp as [cands [_ [_ [_ [Hr _]]]]].
  destruct (resolved_In _ _ _ _ _ Hr Hin) as [c [lc [_ Hc]]].
  exact (Hno _ _ _ _ Hc).
Qed.

(** C6. A component with an event id used twice, a channel id used twice,
    or a number used twice among its command opcodes and its parameter set
    and save opcodes, makes the analysis print a collision line that names
    the component and a number used twice, and exit; no topology with an
    instance of the component gets a list of base ids.  Two events with the
    id 5 give the line for the event id 5. *)
Theorem repeated_id_is_fatal c evs chs cmds params :
  Parsed c evs chs cmds params ->
  ~ NoDup evs \/ ~ NoDup chs \/ ~ NoDup (cmds ++ param_opcodes params) ->
  (exists what id how,
      compute_component_base_id_range (Some c)
      = Err (SystemExit (collision_msg what id (comp_name c) how) (-1))
      /\ repeated_in id evs chs cmds params)
  /\ (forall cfgb cfgw ab aw insts inst l out,
         In inst insts -> inst_component_object inst = Some c ->
         compute_base_ids cfgb cfgw ab aw insts <> (l, Ok out))
  /\ (forall c',
         map event_ids (comp_events c') = [["5"]; ["5"]] ->
         compute_component_base_id_range (Some c')
         = Err (SystemExit
                  (collision_msg "Event ID" 5 (comp_name c') used_twice)
                  (-1))).
Proof.
  intros Hp Hdup.
  destruct (compute_range_collision c evs chs cmds params Hp Hdup)
    as [what [id [how [Hr Hrep]]]].
  split; [exists what, id, how; split; [exact Hr|exact Hrep]|]. split.
  - intros cfgb cfgw ab aw insts inst l out Hin Hc.
    apply (compute_base_ids_raises cfgb cfgw ab aw insts inst Hin).
    intros idf window.
    apply set_base_id_list_raises
      with (e := SystemExit (collision_msg what id (comp_name c) how) (-1)).
    rewrite Hc. exact Hr.
  - intros c' Hev. unfold compute_component_base_id_range. rewrite Hev.
    assert (H5 : first_int ["5"] = Ok 5) by (vm_compute; reflexivity).
    cbn [rfor_each].
    rewrite (check_id_parsed "Event ID" (comp_name c') None [] ["5"] 5 H5).
    cbn [mem existsb rbind].
    rewrite (check_id_parsed "Event ID" (comp_name c') _ _ ["5"] 5 H5).
    reflexivity.
Qed.

Lemma repeated_id_is_fatal_witness :
  Parsed Samples.twice_five [5; 5] [] [] []
  /\ ~ NoDup [5; 5]
  /\ (exists what id how,
         compute_component_base_id_range (Some Samples.twice_five)
         = Err (SystemExit (collision_msg what id "Dup" how) (-1))
         /\ repeated_in id [5; 5] [] [] [])
  /\ compute_component_base_id_range (Some Samples.twice_five)
     = Err (SystemExit
              "IDCollisionError: Event ID 5 in component Dup is used more than once in the same component."
              (-1)).
Proof.
  assert (Hp : Parsed Samples.twice_five [5; 5] [] [] []).
  { constructor; repeat constructor; vm_compute; reflexivity. }
  assert (Hd : ~ NoDup [5; 5]).
  { intros H. inversion H as [|? ? Hn _]. apply Hn. left. reflexivity. }
  split; [exact Hp|]. split; [exact Hd|].
  split; [|vm_compute; reflexivity].
  exact (proj1 (repeated_id_is_fatal Samples.twice_five [5; 5] [] [] []
                                     Hp (or_introl Hd))).
Defined.

(** *** Instances of an unknown type *)

Lemma link_instances_spec d insts : forall done,
  exists l,
    for_each (link_instance d) insts done
    = (l, Ok (done
              ++ map (fun i => match dict_get d (inst_type i) with
                               | Some c => set_component_object i c
                               | None => i
                               end) insts)%list).
Proof.
  induction insts as [|i insts IH]; intros done.
  - exists []. cbn. rewrite app_nil_r. reflexivity.
  - cbn [for_each map]. unfold link_instance at 1.
    destruct (dict_get d (inst_type i)) as [c|].
    + destruct (IH (done ++ [set_component_object i c])%list) as [l E].
      exists l. cbn [ret bind]. rewrite E. rewrite <- app_assoc. reflexivity.
    + destruct (IH (done ++ [i])%list) as [l E].
      exists (msg_missing_component (inst_type i) :: l).
      cbn [info ret bind app]. rewrite E. rewrite <- app_assoc. reflexivity.
Qed.

(** An instance of an unknown type, without component object and without
    explicit window, gets no candidate: its range is [None], and the
    comparison of the assembly window with it raises. *)
Lemma unknown_type_no_candidate id window inst :
  inst_component_object inst = None ->
  inst_base_id_window inst = None ->
  forall l c, set_base_id_list id window inst <> (l, Ok c).
Proof.
  intros Hc Hw l c H. apply set_base_id_list_Ok_inv in H.
  destruct H as [lb [b [r [lw [w [_ [Hr [Hres _]]]]]]]].
  rewrite Hc in Hr. cbn in Hr. inversion Hr; subst r.
  rewrite Hw in Hres. cbn in Hres. discriminate.
Qed.

(** Whatever else the topology holds, [create] returns no model when one
    instance of an unknown type has no explicit window. *)
Lemma create_unknown_type_raises cfgb cfgw d ab aw insts inst :
  In inst insts ->
  dict_get d (inst_type inst) = None ->
  inst_component_object inst = None ->
  inst_base_id_window inst = None ->
  forall l out, create cfgb cfgw true d ab aw insts <> (l, Ok out).
Proof.
  intros Hin Hd Hc Hw l out H. unfold create in H.
  destruct (link_instances_spec d insts []) as [l1 E]. rewrite E in H.
  cbn [bind app] in H.
  destruct (compute_base_ids cfgb cfgw ab aw _) as [l2 r] eqn:Ec.
  inversion H; subst.
  refine (compute_base_ids_raises cfgb cfgw ab aw _ inst _ _ _ _ Ec).
  - apply in_map_iff. exists inst. rewrite Hd. auto.
  - intros id window. exact (unknown_type_no_candidate id window inst Hc Hw).
Qed.

(** C7, at the failing input: the instance of an unknown type is reported,
    and the run then ends in a [TypeError] instead of a model. *)
Theorem unknown_type_without_window_raises :
  create "1" "100" true [("Sensor", Samples.sensor)] (Some "1") (Some "100")
         [Samples.unknown]
  = ([msg_missing_component "Mystery"], Err TypeError).
Proof. vm_compute. reflexivity. Qed.

(** With an explicit window the same instance goes through with no
    calculated range. *)
Example unknown_type_with_window :
  exists l c,
    create "1" "100" true [("Sensor", Samples.sensor)] (Some "1") (Some "100")
           [Samples.unknown_with_window]
    = (msg_missing_component "Mystery" :: l, Ok [c])
    /\ c_range c = None /\ c_base c = Some 1 /\ c_window c = 30.
Proof. do 2 eexists. split; [vm_compute; reflexivity|]. repeat split. Qed.

End Allocation.

(* ================================================================= *)
(** ** Further properties of the merge of pass 4 *)

Module MergeFacts.
Import Py LogM TopoFactory Props LogFacts Resolver Sorting Merge Engine.

Lemma chain_end_snoc (l : list Cand) (c : Cand) (b : Z) : forall np,
  c_base c = Some b -> chain_end np (l ++ [c]) = b + c_window c.
Proof.
  induction l as [|x r IH]; intros np Hb; cbn [app chain_end].
  - rewrite Hb. reflexivity.
  - destruct (c_base x); apply IH; exact Hb.
Qed.

Lemma packed_snoc (l : list Cand) (c : Cand) (b : Z) : forall np,
  packed np l -> c_base c = Some b ->
  (inst_base_id (c_inst c) = None -> b = chain_end np l) ->
  packed np (l ++ [c]).
Proof.
  induction l as [|x r IH]; intros np Hl Hb Hf; cbn [app packed chain_end] in *.
  - exists b. auto.
  - destruct Hl as [bx [Hx [Hfx Hr]]]. rewrite Hx in Hf.
    exists bx. repeat split; try assumption. exact (IH _ Hr Hb Hf).
Qed.

Lemma forget_base_set_base (c : Cand) (b : Z) :
  forget_base (set_base c b) = forget_base c.
Proof. reflexivity. Qed.

Lemma merge_kept_placed id F S st st' :
  merge_kept id F S st -> placed st st' -> merge_kept id F S st'.
Proof.
  intros [Hbase [Hfix [Hperm [Hid [Hpk Hend]]]]] Hpl.
  destruct Hpl as [f fs Hf Hfit Hw' Hf' Ho' Hid' Hwin'
                  | w ws b Hw Hb Hfit Hw' Hf' Ho' Hid' Hwin'];
    unfold merge_kept, next_poss_id in *; rewrite Ho', Hid', Hwin', Hw', Hf'.
  - split; [exact Hbase|]. split; [exact Hfix|]. split; [|split; [|split]].
    + rewrite Hf in Hperm. eapply perm_trans; [|exact Hperm].
      rewrite <- !app_assoc, !map_app. cbn [map app].
      rewrite forget_base_set_base.
      apply Permutation_app_head. apply Permutation_middle.
    + intros HS. destruct (Hid HS) as [E _]. rewrite Hf in E. discriminate.
    + apply (packed_snoc (out_base_ids_list st)
                         (set_base f (prev_id st + prev_window st))
                         (prev_id st + prev_window st));
        [exact Hpk|reflexivity|intros _; symmetry; exact Hend].
    + exact (chain_end_snoc (out_base_ids_list st)
               (set_base f (prev_id st + prev_window st))
               (prev_id st + prev_window st) id eq_refl).
  - rewrite Hw in *. pose proof (Forall_inv_tail Hbase) as Hbase'.
    pose proof (Forall_inv Hfix) as Hfw.
    pose proof (Forall_inv_tail Hfix) as Hfix'.
    split; [exact Hbase'|]. split; [exact Hfix'|]. split; [|split; [|split]].
    + rewrite <- !app_assoc. exact Hperm.
    + intros HS. destruct (Hid HS) as [E1 E2]. split; [exact E1|].
      rewrite <- app_assoc. exact E2.
    + apply (packed_snoc (out_base_ids_list st) w b);
        [exact Hpk|exact Hb|intros Hn; exfalso; exact (Hfw Hn)].
    + apply chain_end_snoc. exact Hb.
Qed.

(** The loop of pass 4, started on fixed candidates that have base ids,
    is left after one turn for each candidate without raising; its output
    holds the candidates it started with and changes base ids only, holds
    the fixed list itself when nothing floats, and is packed. *)
Lemma merge_loop_keeps (id : Z) (F S : list Cand) :
  Forall has_base F -> Forall fixed_instance F ->
  exists st,
    merge_loop (List.length F + List.length S) (merge_start F S id) = Ok st
    /\ merge_done st = true
    /\ Permutation (map forget_base (out_base_ids_list st))
                   (map forget_base (F ++ S))
    /\ (S = [] -> out_base_ids_list st = F)
    /\ packed id (out_base_ids_list st).
Proof.
  intros HF Hfix.
  destruct (merge_loop_invariant (merge_kept id F S)
              (merge_kept_placed id F S)
              (fun st H => proj1 H)
              (List.length F + List.length S)%nat (merge_start F S id))
    as [st [E [Hd [_ [_ [Hperm [Hid [Hpk _]]]]]]]].
  - unfold merge_kept, merge_start, next_poss_id, pending_with, pending_without.
    cbn. rewrite Z.add_0_r. repeat split; auto.
  - apply Nat.le_refl.
  - pose proof Hd as Hd'. apply merge_done_pending in Hd'.
    destruct Hd' as [Hw Hf]. rewrite Hw, Hf, !app_nil_r in Hperm.
    exists st. repeat split; try assumption.
    intros HS. destruct (Hid HS) as [_ H]. rewrite Hw, app_nil_r in H. exact H.
Qed.

End MergeFacts.

(* ================================================================= *)
(** ** Further properties of the allocation *)

Module AllocationFacts.
Import Py LogM TopoFactory Props LogFacts Resolver Sorting Merge Engine.
Import Allocation MergeFacts.

Lemma explicit_floating_perm (l : list Cand) :
  Permutation (filter explicit l ++ filter floating l) l.
Proof.
  induction l as [|c r IH]; [constructor|].
  cbn [filter]. unfold floating at 1. destruct (explicit c); cbn [negb app].
  - constructor. exact IH.
  - apply Permutation_sym. eapply perm_trans; [|apply Permutation_middle].
    constructor. apply Permutation_sym. exact IH.
Qed.

Lemma resolved_instances id window insts cands :
  resolved id window insts cands ->
  map c_inst cands = insts
  /\ Forall (fun c => explicit c = true -> fixed_instance c) cands
  /\ Forall (fun c => explicit c = false -> inst_base_id (c_inst c) = None)
            cands.
Proof.
  induction 1 as [|inst c insts cands [l Hc] _ [IH1 [IH2 IH3]]].
  - repeat split; constructor.
  - destruct (set_base_id_list_fields _ _ _ _ _ Hc) as [Hi _].
    pose proof (explicit_of_instance _ _ _ _ _ Hc) as He.
    cbn [map]. rewrite Hi, IH1. split; [reflexivity|].
    split; constructor; try assumption; intros E; rewrite E in He;
      unfold fixed_instance; rewrite Hi; destruct (inst_base_id inst);
      congruence.
Qed.

(** What passes 1 to 4 keep of the resolved candidates. *)
Lemma passes_keeps id window insts l out :
  passes id window insts = (l, Ok out) ->
  exists cands F,
    resolved id window insts cands
    /\ sort_by c_base (filter explicit cands) = Ok F
    /\ Permutation (map forget_base out) (map forget_base cands)
    /\ (filter floating cands = [] -> out = F)
    /\ packed id out.
Proof.
  intros H. apply passes_Ok_inv in H.
  destruct H as [cands [F [S [st [Hr [HF [HS [Hch [Hm ->]]]]]]]]].
  destruct (resolved_instances _ _ _ _ Hr) as [_ [Hfix _]].
  assert (HFfix : Forall fixed_instance F).
  { eapply Permutation_Forall; [exact (sort_by_perm _ _ _ HF)|].
    apply Forall_forall. intros c Hc. apply filter_In in Hc.
    destruct Hc as [Hc He]. rewrite Forall_forall in Hfix. auto. }
  destruct (merge_loop_keeps id F S (chain_has_base _ _ Hch) HFfix)
    as [st' [E [_ [Hperm [Hid Hpk]]]]].
  rewrite Hm in E. inversion E; subst st'.
  exists cands, F. split; [exact Hr|]. split; [exact HF|].
  split; [|split; [|exact Hpk]].
  - eapply perm_trans; [exact Hperm|]. apply Permutation_map.
    eapply perm_trans; [|apply explicit_floating_perm].
    apply Permutation_app; apply Permutation_sym;
      [exact (sort_by_perm _ _ _ HF)|exact (sort_by_perm _ _ _ HS)].
  - intros Hnone. apply Hid. rewrite Hnone in HS. cbn in HS.
    inversion HS. reflexivity.
Qed.

Lemma map_c_inst_forget (l : list Cand) :
  map c_inst l = map (fun t => snd (fst (fst t))) (map forget_base l).
Proof. rewrite map_map. reflexivity. Qed.

(** X1. A completed run returns one entry for each instance: the entries
    are the candidates that the resolver built for the instances, with
    their names, windows, ranges and amounts, and differ from them in the
    base id only. *)
Theorem every_instance_gets_one_entry cfgb cfgw ab aw insts l out :
  compute_base_ids cfgb cfgw ab aw insts = (l, Ok out) ->
  exists abid awin cands,
    int_of_str 10 (assembly_text ab cfgb) = Ok abid
    /\ int_of_str 10 (assembly_text aw cfgw) = Ok awin
    /\ resolved (floor_id abid) awin insts cands
    /\ Permutation (map forget_base out) (map forget_base cands)
    /\ Permutation (map c_inst out) insts
    /\ List.length out = List.length insts.
Proof.
  intros H. apply compute_base_ids_Ok_inv in H.
  destruct H as [abid [awin [l' [Hb [Hw Hp]]]]].
  destruct (passes_keeps _ _ _ _ _ Hp) as [cands [F [Hr [_ [Hperm _]]]]].
  destruct (resolved_instances _ _ _ _ Hr) as [Hi _].
  assert (Hpi : Permutation (map c_inst out) insts).
  { rewrite <- Hi, !map_c_inst_forget. apply Permutation_map. exact Hperm. }
  exists abid, awin, cands. repeat split; try assumption.
  rewrite <- (length_map c_inst out). apply Permutation_length. exact Hpi.
Qed.

Lemma every_instance_gets_one_entry_witness :
  exists l out abid awin cands,
    compute_base_ids "1" "100" (Some "0") None Samples.mixed = (l, Ok out)
    /\ int_of_str 10 "0" = Ok abid
    /\ int_of_str 10 "100" = Ok awin
    /\ resolved (floor_id abid) awin Samples.mixed cands
    /\ Permutation (map forget_base out) (map forget_base cands)
    /\ Permutation (map c_inst out) Samples.mixed
    /\ List.length out = 3%nat.
Proof.
  destruct (compute_base_ids "1" "100" (Some "0") None Samples.mixed)
    as [l [out|e]] eqn:E; [|vm_compute in E; discriminate E].
  destruct (every_instance_gets_one_entry _ _ _ _ _ _ _ E)
    as [abid [awin [cands H]]].
  exists l, out, abid, awin, cands. split; [reflexivity|exact H].
Defined.

Lemma resolved_all_explicit id window insts cands :
  (forall inst, In inst insts -> inst_base_id inst <> None) ->
  resolved id window insts cands ->
  filter explicit cands = cands /\ filter floating cands = [].
Proof.
  intros Hall Hr. induction Hr as [|inst c insts cands [l Hc] _ IH];
    [split; reflexivity|].
  destruct IH as [IH1 IH2]; [intros i Hi; apply Hall; right; exact Hi|].
  pose proof (explicit_of_instance _ _ _ _ _ Hc) as He.
  pose proof (Hall inst (or_introl eq_refl)) as Hne.
  destruct (inst_base_id inst); [|congruence].
  cbn [filter]. unfold floating at 1. rewrite He. cbn [negb].
  rewrite IH1, IH2. split; reflexivity.
Qed.

(** X2. When every instance gives an explicit base id, a completed run
    returns the resolved candidates themselves, in the order of the stable
    sort by base id: no entry is changed. *)
Theorem explicit_topology_is_kept cfgb cfgw ab aw insts l out :
  compute_base_ids cfgb cfgw ab aw insts = (l, Ok out) ->
  (forall inst, In inst insts -> inst_base_id inst <> None) ->
  exists abid awin cands,
    int_of_str 10 (assembly_text ab cfgb) = Ok abid
    /\ int_of_str 10 (assembly_text aw cfgw) = Ok awin
    /\ resolved (floor_id abid) awin insts cands
    /\ sort_by c_base cands = Ok out
    /\ Permutation cands out.
Proof.
  intros H Hall. apply compute_base_ids_Ok_inv in H.
  destruct H as [abid [awin [l' [Hb [Hw Hp]]]]].
  destruct (passes_keeps _ _ _ _ _ Hp) as [cands [F [Hr [HF [_ [Hid _]]]]]].
  destruct (resolved_all_explicit _ _ _ _ Hall Hr) as [E1 E2].
  rewrite E1 in HF. rewrite (Hid E2).
  exists abid, awin, cands. repeat split; try assumption.
  exact (sort_by_perm _ _ _ HF).
Qed.

Lemma explicit_topology_is_kept_witness :
  exists l out abid awin cands,
    compute_base_ids "1" "100" (Some "2") None Samples.all_fixed = (l, Ok out)
    /\ (forall inst, In inst Samples.all_fixed -> inst_base_id inst <> None)
    /\ int_of_str 10 "2" = Ok abid
    /\ int_of_str 10 "100" = Ok awin
    /\ resolved (floor_id abid) awin Samples.all_fixed cands
    /\ sort_by c_base cands = Ok out
    /\ Permutation cands out.
Proof.
  destruct (compute_base_ids "1" "100" (Some "2") None Samples.all_fixed)
    as [l [out|e]] eqn:E; [|vm_compute in E; discriminate E].
  assert (Hall : forall inst, In inst Samples.all_fixed ->
                              inst_base_id inst <> None).
  { intros inst [<-|[<-|[]]]; discriminate. }
  destruct (explicit_topology_is_kept _ _ _ _ _ _ _ E Hall)
    as [abid [awin [cands H]]].
  exists l, out, abid, awin, cands.
  split; [reflexivity|]. split; [exact Hall|exact H].
Defined.

Lemma packed_nth (l : list Cand) : forall np i c,
  packed np l -> nth_error l i = Some c ->
  inst_base_id (c_inst c) = None ->
  match i with
  | O => c_base c = Some np
  | S j => exists p bp, nth_error l j = Some p /\ c_base p = Some bp
                        /\ c_base c = Some (bp + c_window p)
  end.
Proof.
  induction l as [|x r IH]; intros np i c Hl Hi Hf; [destruct i; discriminate|].
  destruct Hl as [b [Hb [Hfx Hr]]]. destruct i as [|i].
  - cbn in Hi. inversion Hi; subst x. rewrite Hb, (Hfx Hf). reflexivity.
  - cbn [nth_error] in Hi. pose proof (IH _ i c Hr Hi Hf) as H.
    destruct i as [|j].
    + exists x, b. cbn. auto.
    + destruct H as [p [bp H]]. exists p, bp. exact H.
Qed.

(** X3. In the list of a completed run an entry whose instance gives no
    explicit base id starts exactly where the entry before it ends, and at
    the assembly base id after the clamp when it is the first: no gap is
    left in front of an assigned base id. *)
Theorem assigned_base_ids_leave_no_gap cfgb cfgw ab aw insts l out i c :
  compute_base_ids cfgb cfgw ab aw insts = (l, Ok out) ->
  nth_error out i = Some c ->
  inst_base_id (c_inst c) = None ->
  exists abid,
    int_of_str 10 (assembly_text ab cfgb) = Ok abid
    /\ match i with
       | O => c_base c = Some (floor_id abid)
       | S j => exists p bp, nth_error out j = Some p /\ c_base p = Some bp
                             /\ c_base c = Some (bp + c_window p)
       end.
Proof.
  intros H Hi Hf. apply compute_base_ids_Ok_inv in H.
  destruct H as [abid [awin [l' [Hb [Hw Hp]]]]].
  destruct (passes_keeps _ _ _ _ _ Hp) as [cands [F [_ [_ [_ [_ Hpk]]]]]].
  exists abid. split; [exact Hb|]. exact (packed_nth out _ i c Hpk Hi Hf).
Qed.

Lemma assigned_base_ids_leave_no_gap_witness :
  exists l out c,
    compute_base_ids "1" "100" (Some "0") None Samples.mixed = (l, Ok out)
    /\ nth_error out 2 = Some c
    /\ inst_base_id (c_inst c) = None
    /\ exists abid,
         int_of_str 10 "0" = Ok abid
         /\ exists p bp, nth_error out 1 = Some p /\ c_base p = Some bp
                         /\ c_base c = Some (bp + c_window p).
Proof.
  destruct (compute_base_ids "1" "100" (Some "0") None Samples.mixed)
    as [l [out|e]] eqn:E; [|vm_compute in E; discriminate E].
  assert (Hout : map c_inst out
                 = [ Samples.instance "A" None (Some "20") (Some Samples.sensor);
                     Samples.instance "B" (Some "50") (Some "10") None;
                     Samples.instance "C" None None (Some Samples.sensor) ]).
  { vm_compute in E. inversion E. reflexivity. }
  destruct out as [|a [|b [|c [|d r]]]]; try discriminate Hout.
  cbn [map] in Hout. injection Hout as Ha Hb Hc.
  assert (Hf : inst_base_id (c_inst c) = None) by (rewrite Hc; reflexivity).
  exists l, [a; b; c], c. split; [reflexivity|]. split; [reflexivity|].
  split; [exact Hf|].
  exact (assigned_base_ids_leave_no_gap _ _ _ _ _ _ _ 2%nat c E eq_refl Hf).
Defined.

Lemma resolved_functional id window insts : forall cands cands',
  resolved id window insts cands -> resolved id window insts cands' ->
  cands = cands'.
Proof.
  induction insts as [|inst insts IH]; intros cands cands' H H';
    inversion H as [|? c ? cs [l Hc] Hr]; inversion H' as [|? c' ? cs' [l' Hc'] Hr'];
    subst; [reflexivity|].
  rewrite Hc in Hc'. inversion Hc'; subst. f_equal. exact (IH _ _ Hr Hr').
Qed.

Lemma resolved_In_cand id window insts cands c :
  resolved id window insts cands -> In c cands ->
  exists inst l, In inst insts /\ set_base_id_list id window inst = (l, Ok c).
Proof.
  induction 1 as [|inst x insts cands [l Hx] _ IH]; intros Hin; [destruct Hin|].
  destruct Hin as [->|Hin].
  - exists inst, l. split; [left; reflexivity|exact Hx].
  - destruct (IH Hin) as [i [l' [H1 H2]]]. exists i, l'.
    split; [right; exact H1|exact H2].
Qed.

(** X4. Once the assembly attributes are read and every instance is
    resolved, the run returns a list exactly when no two neighbours collide
    in the list of the candidates with explicit base ids sorted by base id:
    a collision of explicit base ids is the only failure of passes 2 to 4. *)
Theorem run_completes_iff_no_collision cfgb cfgw ab aw insts abid awin cands :
  int_of_str 10 (assembly_text ab cfgb) = Ok abid ->
  int_of_str 10 (assembly_text aw cfgw) = Ok awin ->
  resolved (floor_id abid) awin insts cands ->
  exists F,
    sort_by c_base (filter explicit cands) = Ok F
    /\ ((exists l out, compute_base_ids cfgb cfgw ab aw insts = (l, Ok out))
        <-> (forall p t, adjacent p t F -> ~ collide p t)).
Proof.
  intros Hb Hw Hr.
  pose proof (resolved_explicit_base _ _ _ _ Hr) as Hbases.
  destruct (sort_by_total c_base (filter explicit cands)) as [F HF].
  { eapply Forall_impl; [|exact Hbases]. intros c [b [Hc _]]. exists b. exact Hc. }
  assert (HbF : Forall (fun c => exists b, c_base c = Some b
                                           /\ floor_id abid <= b) F).
  { eapply Permutation_Forall; [exact (sort_by_perm _ _ _ HF)|exact Hbases]. }
  exists F. split; [exact HF|]. split.
  - intros [l [out H]] p t Hadj. apply compute_base_ids_Ok_inv in H.
    destruct H as [abid' [awin' [l' [Hb' [Hw' Hp]]]]].
    rewrite Hb in Hb'. rewrite Hw in Hw'. inversion Hb'. inversion Hw'.
    subst abid' awin'. apply passes_Ok_inv in Hp.
    destruct Hp as [cands' [F' [S [st [Hr' [HF' [_ [Hch _]]]]]]]].
    rewrite <- (resolved_functional _ _ _ _ _ Hr Hr') in HF'.
    rewrite HF in HF'. inversion HF'; subst F'.
    exact (chain_no_collision 0 F p t Hch Hadj).
  - intros Hno.
    assert (Hch : chain 0 F).
    { destruct (chain_or_collision F 0) as [H|[pre [p [t [post [E [_ Hc]]]]]]].
      - destruct F as [|c r]; [constructor|]. cbn [firstn].
        inversion HbF as [|? ? [b [Hc Hle]] _]; subst.
        constructor; [|constructor]. exists b. split; [exact Hc|].
        pose proof (floor_id_pos abid). lia.
      - eapply Forall_impl; [|exact HbF]. intros c [b [Hc _]]. exists b. exact Hc.
      - exact H.
      - exfalso. apply (Hno p t); [|exact Hc]. exists pre, post. exact E. }
    destruct (sort_by_total window_key (filter floating cands)) as [S HS].
    { apply Forall_forall. intros c _. eexists. reflexivity. }
    destruct (pass1_resolved _ _ _ _ Hr [] []) as [l1 H1]. cbn [app] in H1.
    destruct (check_collisions_chain F "NONE" 0 0 Hch) as [s3 H3].
    destruct (merge_loop_result (floor_id abid) F S
                (chain_from_floor 0 _ F Hch HbF)) as [st [Hm _]].
    pose proof (passes_eq _ _ _ l1 _ _ F S _ _ H1 HF HS H3) as Hp.
    rewrite Hm in Hp. cbn [rbind] in Hp.
    destruct (compute_base_ids_eq cfgb cfgw ab aw insts abid awin Hb Hw)
      as [l0 E].
    do 2 eexists. exact (E _ _ Hp).
Qed.

Lemma run_completes_iff_no_collision_witness :
  exists cands F,
    int_of_str 10 "0" = Ok 0
    /\ int_of_str 10 "100" = Ok 100
    /\ resolved (floor_id 0) 100 Samples.mixed cands
    /\ sort_by c_base (filter explicit cands) = Ok F
    /\ ((exists l out,
            compute_base_ids "1" "100" (Some "0") None Samples.mixed
            = (l, Ok out))
        <-> (forall p t, adjacent p t F -> ~ collide p t)).
Proof.
  assert (Hb : int_of_str 10 (assembly_text (Some "0") "1") = Ok 0)
    by (vm_compute; reflexivity).
  assert (Hw : int_of_str 10 (assembly_text None "100") = Ok 100)
    by (vm_compute; reflexivity).
  destruct (for_each (pass1_step (floor_id 0) 100) Samples.mixed ([], []))
    as [l1 [[W G]|e]] eqn:E1; [|vm_compute in E1; discriminate E1].
  apply pass1_Ok_inv in E1. destruct E1 as [cands [Hr _]].
  destruct (run_completes_iff_no_collision
              "1" "100" (Some "0") None Samples.mixed 0 100 cands Hb Hw Hr)
    as [F [HF H]].
  exists cands, F. auto 6.
Defined.

Lemma candidate_window_nonneg id size inst l c :
  set_base_id_list id size inst = (l, Ok c) ->
  (forall r, c_range c = Some r -> 0 <= r) ->
  0 <= c_window c.
Proof.
  intros H Hr. apply set_base_id_list_Ok_inv in H.
  destruct H as [lb [b [r [lw [w [_ [_ [Hw [_ ->]]]]]]]]].
  cbn [c_window c_range] in *. apply resolve_window_Ok_inv in Hw.
  destruct Hw as [explicit [_ Hs]]. unfold spec_window in Hs.
  destruct explicit as [v|]; [inversion Hs; apply Z.abs_nonneg|].
  destruct r as [r|]; [|discriminate]. inversion Hs; subst.
  pose proof (Hr r eq_refl). destruct (size >? r) eqn:E; [|assumption].
  apply Z.gtb_lt in E. lia.
Qed.

(** X5. When no entry of a completed run has a negative required range,
    no window is negative, no entry starts before the end of the window of
    any earlier entry, and no base id is below the assembly base id after
    the clamp. *)
Theorem nonnegative_ranges_never_overlap cfgb cfgw ab aw insts l out :
  compute_base_ids cfgb cfgw ab aw insts = (l, Ok out) ->
  (forall c r, In c out -> c_range c = Some r -> 0 <= r) ->
  Forall (fun c => 0 <= c_window c) out
  /\ non_overlapping out
  /\ exists abid,
       int_of_str 10 (assembly_text ab cfgb) = Ok abid
       /\ Forall (fun c => exists b, c_base c = Some b /\ floor_id abid <= b)
                 out.
Proof.
  intros H Hrange. apply compute_base_ids_Ok_inv in H.
  destruct H as [abid [awin [l' [Hb [Hw Hp]]]]].
  destruct (passes_chain _ _ _ _ _ Hp) as [Hch _].
  destruct (passes_keeps _ _ _ _ _ Hp) as [cands [F [Hr [_ [Hperm _]]]]].
  assert (Hwin : Forall (fun c => 0 <= c_window c) out).
  { apply Forall_forall. intros c Hc.
    assert (Hin : In (forget_base c) (map forget_base cands)).
    { eapply Permutation_in; [exact Hperm|]. apply in_map. exact Hc. }
    apply in_map_iff in Hin. destruct Hin as [c' [Hf Hc']].
    unfold forget_base in Hf. injection Hf as _ Hw' _ Hr' _.
    destruct (resolved_In_cand _ _ _ _ _ Hr Hc') as [inst [lc [_ Hset]]].
    rewrite <- Hw'. apply (candidate_window_nonneg _ _ _ _ _ Hset).
    intros r Hcr. rewrite Hr' in Hcr. exact (Hrange c r Hc Hcr). }
  split; [exact Hwin|]. split; [exact (chain_non_overlapping _ out Hch Hwin)|].
  exists abid. split; [exact Hb|]. exact (chain_lower_bound _ out Hch Hwin).
Qed.

Lemma nonnegative_ranges_never_overlap_witness :
  exists l out,
    compute_base_ids "1" "100" (Some "0") None Samples.mixed = (l, Ok out)
    /\ (forall c r, In c out -> c_range c = Some r -> 0 <= r)
    /\ Forall (fun c => 0 <= c_window c) out
    /\ non_overlapping out.
Proof.
  destruct (compute_base_ids "1" "100" (Some "0") None Samples.mixed)
    as [l [out|e]] eqn:E; [|vm_compute in E; discriminate E].
  assert (Hout : map c_range out = [Some 42; None; Some 42]).
  { vm_compute in E. inversion E. reflexivity. }
  assert (Hrange : forall c r, In c out -> c_range c = Some r -> 0 <= r).
  { intros c r Hc Hr.
    assert (Hin : In (Some r) (map c_range out))
      by (rewrite <- Hr; apply in_map; exact Hc).
    rewrite Hout in Hin. cbn in Hin.
    destruct Hin as [H|[H|[H|[]]]]; inversion H; lia. }
  destruct (nonnegative_ranges_never_overlap _ _ _ _ _ _ _ E Hrange)
    as [H1 [H2 _]].
  exists l, out. auto.
Defined.

End AllocationFacts.

(* ================================================================= *)
(** ** Further properties of the analysis and of the resolver *)

Module ResolutionFacts.
Import Py LogM TopoFactory Props Analyzer LogFacts Resolver IdParser.

Lemma ids_of_functional xs : forall vs vs',
  ids_of xs vs -> ids_of xs vs' -> vs = vs'.
Proof.
  induction xs as [|x xs IH]; intros vs vs' H H';
    inversion H as [|? v ? r Hv Hr]; inversion H' as [|? v' ? r' Hv' Hr'];
    subst; [reflexivity|].
  rewrite Hv in Hv'. inversion Hv'. f_equal. exact (IH _ _ Hr Hr').
Qed.

Lemma params_functional ps : forall ts ts',
  Forall2 param_of ps ts -> Forall2 param_of ps ts' -> ts = ts'.
Proof.
  induction ps as [|p ps IH]; intros ts ts' H H';
    inversion H as [|? t ? r Ht Hr]; inversion H' as [|? t' ? r' Ht' Hr'];
    subst; [reflexivity|].
  f_equal; [|exact (IH _ _ Hr Hr')].
  destruct t as [[i s] v], t' as [[i' s'] v'].
  destruct Ht as [H1 [H2 H3]], Ht' as [H1' [H2' H3']].
  rewrite H1 in H1'. rewrite H2 in H2'. rewrite H3 in H3'.
  inversion H1'. inversion H2'. inversion H3'. reflexivity.
Qed.

(** X6. For a component whose id texts can all be read, the analysis
    returns exactly when the event ids are pairwise distinct, the channel
    ids are pairwise distinct, the command opcodes and parameter set and
    save opcodes together are pairwise distinct, and the parameter ids are
    pairwise distinct; a number shared between two of these id spaces is
    no collision. *)
Theorem analysis_returns_iff_collision_free c evs chs cmds params :
  Parsed c evs chs cmds params ->
  (exists r, compute_component_base_id_range (Some c) = Ok r)
  <-> collision_free evs chs cmds params.
Proof.
  intros Hp. split.
  - intros [r H]. apply compute_range_Ok_inv in H.
    destruct H as [evs' [chs' [cmds' [params' [Hp' [Hf _]]]]]].
    destruct Hp as [H1 H2 H3 H4], Hp' as [H1' H2' H3' H4'].
    rewrite (ids_of_functional _ _ _ H1 H1'), (ids_of_functional _ _ _ H2 H2'),
      (ids_of_functional _ _ _ H3 H3'), (params_functional _ _ _ H4 H4').
    exact Hf.
  - intros Hf. eexists. exact (compute_range_Ok c evs chs cmds params Hp Hf).
Qed.

Lemma analysis_returns_iff_collision_free_witness :
  Parsed Samples.sensor [26; 3] [3] [7] [(3, 40, 41)]
  /\ ((exists r, compute_component_base_id_range (Some Samples.sensor) = Ok r)
      <-> collision_free [26; 3] [3] [7] [(3, 40, 41)]).
Proof.
  assert (Hp : Parsed Samples.sensor [26; 3] [3] [7] [(3, 40, 41)]).
  { constructor; repeat constructor; vm_compute; reflexivity. }
  split; [exact Hp|].
  exact (analysis_returns_iff_collision_free Samples.sensor _ _ _ _ Hp).
Defined.

(** *** The errors of the analysis *)

Lemma id_to_int_errors (s : string) (e : exn) :
  id_to_int s = Err e -> e = ValueError_int 16 s \/ e = OverflowError_inf.
Proof.
  unfold id_to_int, try_except.
  destruct (float_of_str s) as [x|e0] eqn:Ef; cbn [rbind].
  - destruct x as [ | neg | neg m ex]; cbn [int_of_float is_TypeError
                                             is_ValueError orb].
    + intros H. left. exact (int_of_str_error 16 s e H).
    + intros H. inversion H. right. reflexivity.
    + discriminate.
  - rewrite (float_of_str_error s e0 Ef). cbn [is_TypeError is_ValueError orb].
    intros H. left. exact (int_of_str_error 16 s e H).
Qed.

Lemma check_id_errors what comp st ids e :
  check_id what comp st ids = Err e -> analysis_error comp e.
Proof.
  destruct st as [h seen]. unfold check_id.
  destruct ids as [|s r]; cbn [index0 rbind].
  - intros H. inversion H. constructor.
  - destruct (id_to_int s) as [v|e0] eqn:E; cbn [rbind].
    + unfold collision. destruct (mem v seen); [|discriminate].
      intros H. inversion H. constructor.
    + intros H. inversion H; subst.
      destruct (id_to_int_errors s e E) as [-> | ->]; constructor.
Qed.

Lemma check_opcode_errors what comp cmds st ops e :
  check_opcode what comp cmds st ops = Err e -> analysis_error comp e.
Proof.
  destruct st as [h seen]. unfold check_opcode.
  destruct ops as [|s r]; cbn [index0 rbind].
  - intros H. inversion H. constructor.
  - destruct (id_to_int s) as [v|e0] eqn:E; cbn [rbind].
    + unfold collision. destruct (mem v seen);
        [intros H; inversion H; constructor|].
      destruct (mem v cmds); [|discriminate].
      intros H. inversion H. constructor.
    + intros H. inversion H; subst.
      destruct (id_to_int_errors s e E) as [-> | ->]; constructor.
Qed.

Lemma check_parameter_errors comp cmds st p e :
  check_parameter comp cmds st p = Err e -> analysis_error comp e.
Proof.
  destruct st as [[h pseen] oseen]. unfold check_parameter.
  destruct (check_id "Parameter ID" comp (h, pseen) (parameter_ids p))
    as [[h1 ids]|e1] eqn:E1; cbn [rbind].
  2:{ intros H. inversion H; subst. exact (check_id_errors _ _ _ _ _ E1). }
  destruct (check_opcode "Parameter set opcode" comp cmds (h1, oseen)
                         (parameter_set_opcodes p))
    as [[h2 ops1]|e2] eqn:E2; cbn [rbind].
  2:{ intros H. inversion H; subst. exact (check_opcode_errors _ _ _ _ _ _ E2). }
  destruct (check_opcode "Parameter save opcode" comp cmds (h2, ops1)
                         (parameter_save_opcodes p))
    as [[h3 ops2]|e3] eqn:E3; cbn [rbind]; [discriminate|].
  intros H. inversion H; subst. exact (check_opcode_errors _ _ _ _ _ _ E3).
Qed.

Lemma rfor_each_errors {S X} (body : S -> X -> result S) (P : exn -> Prop) :
  (forall s x e, body s x = Err e -> P e) ->
  forall xs s e, rfor_each body xs s = Err e -> P e.
Proof.
  intros Hb xs. induction xs as [|x xs IH]; intros s e H; [discriminate|].
  cbn [rfor_each] in H. destruct (body s x) as [s'|e'] eqn:E; cbn [rbind] in H.
  - exact (IH _ _ H).
  - inversion H; subst. exact (Hb _ _ _ E).
Qed.

(** X7. The analysis of a component raises nothing but: [IndexError] for
    an item without id, the [ValueError] of [int(_, 16)] that quotes an
    unreadable text, [OverflowError] for a text that [float] reads as an
    infinity, and the exit after a collision line that names the
    component. *)
Theorem analysis_raises_only c e :
  compute_component_base_id_range (Some c) = Err e ->
  analysis_error (comp_name c) e.
Proof.
  unfold compute_component_base_id_range. intros H.
  destruct (rfor_each (check_id "Event ID" (comp_name c))
                      (map event_ids (comp_events c)) (None, []))
    as [[h1 s1]|e1] eqn:E1; cbn [rbind] in H.
  2:{ inversion H; subst.
      exact (rfor_each_errors _ _ (check_id_errors _ _) _ _ _ E1). }
  destruct (rfor_each (check_id "Channel ID" (comp_name c))
                      (map channel_ids (comp_channels c)) (h1, []))
    as [[h2 s2]|e2] eqn:E2; cbn [rbind] in H.
  2:{ inversion H; subst.
      exact (rfor_each_errors _ _ (check_id_errors _ _) _ _ _ E2). }
  destruct (rfor_each (check_id "Command ID" (comp_name c))
                      (map command_opcodes (comp_commands c)) (h2, []))
    as [[h3 s3]|e3] eqn:E3; cbn [rbind] in H.
  2:{ inversion H; subst.
      exact (rfor_each_errors _ _ (check_id_errors _ _) _ _ _ E3). }
  destruct (rfor_each (check_parameter (comp_name c) s3)
                      (comp_parameters c) (h3, [], []))
    as [[[h4 p4] o4]|e4] eqn:E4; cbn [rbind] in H.
  2:{ inversion H; subst.
      exact (rfor_each_errors _ _ (check_parameter_errors _ _) _ _ _ E4). }
  destruct h4; discriminate.
Qed.

Lemma analysis_raises_only_witness :
  compute_component_base_id_range (Some Samples.twice_five)
  = Err (SystemExit (collision_msg "Event ID" 5 "Dup" used_twice) (-1))
  /\ analysis_error "Dup"
       (SystemExit (collision_msg "Event ID" 5 "Dup" used_twice) (-1)).
Proof.
  assert (H : compute_component_base_id_range (Some Samples.twice_five)
              = Err (SystemExit (collision_msg "Event ID" 5 "Dup" used_twice)
                                (-1)))
    by (vm_compute; reflexivity).
  split; [exact H|]. exact (analysis_raises_only Samples.twice_five _ H).
Defined.

(** *** The errors of the resolver *)

Lemma resolve_base_Err id n text l e :
  resolve_base id n text = (l, Err e) ->
  exists s, text = Some s /\ e = ValueError_int 0 s /\ l = [].
Proof.
  unfold resolve_base. destruct text as [s|]; [|discriminate].
  destruct (int_of_str 0 s) as [v|e0] eqn:E; cbn [lift bind].
  - destruct (id >? Z.abs v); cbn; discriminate.
  - intros H. inversion H; subst. exists s.
    rewrite (int_of_str_error 0 s e E). auto.
Qed.

Lemma resolve_window_Err size n text r l e :
  resolve_window size n text r = (l, Err e) ->
  (exists s, text = Some s /\ e = ValueError_int 0 s)
  \/ (text = None /\ r = None /\ e = TypeError).
Proof.
  unfold resolve_window. destruct text as [s|].
  - destruct (int_of_str 0 s) as [v|e0] eqn:E; cbn [lift bind];
      [cbn; discriminate|].
    intros H. inversion H; subst. left. exists s.
    rewrite (int_of_str_error 0 s e E). auto.
  - destruct r as [r|]; [destruct (size >? r); cbn; discriminate|].
    intros H. inversion H. right. auto.
Qed.

(** X8. The resolver raises in four cases only: the explicit base id
    cannot be read, before anything is logged; the analysis of the
    component raises; the explicit window cannot be read; there is neither
    an explicit window nor a required range, and the comparison of the
    assembly window with [None] is a [TypeError]. *)
Theorem resolver_raises_only id size inst l e :
  set_base_id_list id size inst = (l, Err e) ->
  (exists s, inst_base_id inst = Some s /\ e = ValueError_int 0 s /\ l = [])
  \/ compute_component_base_id_range (inst_component_object inst) = Err e
  \/ (exists s, inst_base_id_window inst = Some s /\ e = ValueError_int 0 s)
  \/ (inst_base_id_window inst = None
      /\ compute_component_base_id_range (inst_component_object inst)
         = Ok None
      /\ e = TypeError).
Proof.
  intros H. unfold set_base_id_list in H.
  destruct (resolve_base id (inst_name inst) (inst_base_id inst))
    as [lb [b|e0]] eqn:Hb; cbn [bind] in H.
  2:{ inversion H; subst. left. exact (resolve_base_Err _ _ _ _ _ Hb). }
  destruct (compute_component_base_id_range (inst_component_object inst))
    as [r|e1] eqn:Hr; cbn [lift bind] in H.
  2:{ inversion H; subst. right. left. reflexivity. }
  destruct (resolve_window size (inst_name inst) (inst_base_id_window inst) r)
    as [lw [w|e2]] eqn:Hw; cbn [bind] in H.
  - exfalso. destruct r as [r|]; [destruct (w <? r)|]; cbn in H; discriminate.
  - inversion H; subst. right. right.
    destruct (resolve_window_Err _ _ _ _ _ _ Hw) as [Hs|[H1 [H2 H3]]].
    + left. exact Hs.
    + right. subst r. auto.
Qed.

Lemma resolver_raises_only_witness :
  exists l,
    set_base_id_list 1 100 Samples.unknown = (l, Err TypeError)
    /\ inst_base_id_window Samples.unknown = None
    /\ compute_component_base_id_range
         (inst_component_object Samples.unknown) = Ok None.
Proof.
  destruct (set_base_id_list 1 100 Samples.unknown) as [l [c|e]] eqn:E;
    [vm_compute in E; discriminate E|].
  assert (He : e = TypeError) by (vm_compute in E; inversion E; reflexivity).
  subst e. exists l. split; [reflexivity|].
  destruct (resolver_raises_only 1 100 Samples.unknown l TypeError E)
    as [[s [_ [H _]]]|[H|[[s [_ H]]|[H1 [H2 _]]]]]; try discriminate H.
  split; [exact H1|exact H2].
Defined.

Lemma empty_component_range (c : CompXml) :
  comp_events c = [] -> comp_channels c = [] -> comp_commands c = [] ->
  comp_parameters c = [] ->
  compute_component_base_id_range (Some c) = Ok None.
Proof.
  intros H1 H2 H3 H4. unfold compute_component_base_id_range.
  rewrite H1, H2, H3, H4. reflexivity.
Qed.

(** X9. An instance without explicit window is not resolved when it has
    no component object or its component declares no event, channel,
    command or parameter: whatever the assembly window is, the resolver
    raises [TypeError] once the base id is settled. *)
Theorem no_window_and_no_ids_raises id size inst base :
  literal (inst_base_id inst) base ->
  inst_base_id_window inst = None ->
  match inst_component_object inst with
  | None => True
  | Some c => comp_events c = [] /\ comp_channels c = []
              /\ comp_commands c = [] /\ comp_parameters c = []
  end ->
  exists l, set_base_id_list id size inst = (l, Err TypeError).
Proof.
  intros Hb Hw Hc.
  assert (Hr : compute_component_base_id_range (inst_component_object inst)
               = Ok None).
  { destruct (inst_component_object inst) as [c|]; [|reflexivity].
    destruct Hc as [H1 [H2 [H3 H4]]]. exact (empty_component_range c H1 H2 H3 H4). }
  destruct (resolve_base_literal id (inst_name inst) _ _ Hb) as [lb Eb].
  exists lb. unfold set_base_id_list. rewrite Eb. cbn [bind].
  rewrite Hr. cbn [lift bind]. rewrite Hw. cbn [resolve_window raise bind].
  rewrite app_nil_r. reflexivity.
Qed.

Lemma no_window_and_no_ids_raises_witness :
  literal (inst_base_id Samples.passive) (Some 7)
  /\ inst_base_id_window Samples.passive = None
  /\ exists l, set_base_id_list 1 100 Samples.passive = (l, Err TypeError).
Proof.
  assert (Hb : literal (inst_base_id Samples.passive) (Some 7))
    by (exists 7; split; [vm_compute|]; reflexivity).
  split; [exact Hb|]. split; [reflexivity|].
  apply (no_window_and_no_ids_raises 1 100 Samples.passive (Some 7) Hb eq_refl).
  cbn. auto.
Defined.

(** X10. Without explicit window the window of a candidate is the greater
    of the assembly window and the required range of the component; it is
    never below the required range, and the line for an undersized window
    is not logged: the log ends with the line that tells the window. *)
Theorem default_window_covers_range id size inst l c :
  inst_base_id_window inst = None ->
  set_base_id_list id size inst = (l, Ok c) ->
  exists r lb,
    c_range c = Some r
    /\ c_window c = Z.max size r
    /\ r <= c_window c
    /\ resolve_base id (inst_name inst) (inst_base_id inst) = (lb, Ok (c_base c))
    /\ l = (lb ++ [if size >? r
                   then msg_window_default (inst_name inst) size
                   else msg_window_component (inst_name inst) r])%list.
Proof.
  intros Hw H. apply set_base_id_list_Ok_inv in H.
  destruct H as [lb [b [r [lw [w [Hb [_ [Hres [-> ->]]]]]]]]].
  cbn [c_range c_window c_base]. rewrite Hw in Hres.
  unfold resolve_window in Hres. destruct r as [r|]; [|discriminate].
  exists r, lb. unfold undersized_log.
  destruct (size >? r) eqn:E; cbn in Hres; injection Hres as Hlw Hwv;
    rewrite <- Hlw, <- Hwv.
  - apply Z.gtb_lt in E.
    replace (size <? r) with false by (symmetry; apply Z.ltb_ge; lia).
    rewrite app_nil_r. repeat split; try assumption; lia.
  - rewrite Z.gtb_ltb in E. apply Z.ltb_ge in E. rewrite Z.ltb_irrefl.
    rewrite app_nil_r. repeat split; try assumption; lia.
Qed.

Lemma default_window_covers_range_witness :
  exists l c r lb,
    inst_base_id_window (Samples.instance "C" None None (Some Samples.sensor))
    = None
    /\ set_base_id_list 1 100
         (Samples.instance "C" None None (Some Samples.sensor)) = (l, Ok c)
    /\ c_range c = Some r
    /\ c_window c = Z.max 100 r
    /\ r <= c_window c
    /\ l = (lb ++ [if 100 >? r
                   then msg_window_default "C" 100
                   else msg_window_component "C" r])%list.
Proof.
  destruct (set_base_id_list 1 100
              (Samples.instance "C" None None (Some Samples.sensor)))
    as [l [c|e]] eqn:E; [|vm_compute in E; discriminate E].
  destruct (default_window_covers_range 1 100
              (Samples.instance "C" None None (Some Samples.sensor))
              l c eq_refl E)
    as [r [lb [H1 [H2 [H3 [_ H5]]]]]].
  exists l, c, r, lb. auto 7.
Defined.

End ResolutionFacts.

(* ================================================================= *)
(** ** Further properties of [__compute_base_ids] and [create] *)

Module RunFacts.
Import Py LogM TopoFactory Props IdParser LogFacts Resolver Engine.

Lemma bind_log {A B} (l : list string) (a : A) (f : A -> M B) :
  bind (l, Ok a) f = ((l ++ fst (f a))%list, snd (f a)).
Proof. cbn [bind]. destruct (f a). reflexivity. Qed.

(** X11. An assembly attribute that is absent is replaced by the value of
    the configuration, with one warning line each, the base id first: the
    run is the run on the two texts in use, after these lines. *)
Theorem absent_attributes_use_configuration cfgb cfgw ab aw insts :
  compute_base_ids cfgb cfgw ab aw insts
  = ((defaults_log cfgb cfgw ab aw
        ++ fst (compute_base_ids cfgb cfgw (Some (assembly_text ab cfgb))
                                 (Some (assembly_text aw cfgw)) insts))%list,
     snd (compute_base_ids cfgb cfgw (Some (assembly_text ab cfgb))
                           (Some (assembly_text aw cfgw)) insts)).
Proof.
  unfold compute_base_ids, or_default, defaults_log, ret, info.
  destruct ab as [b|], aw as [w|]; cbn [assembly_text];
    repeat (rewrite bind_log; cbn [fst snd app]); reflexivity.
Qed.

(** X12. The assembly attributes are read in base 10.  When the base id in
    use cannot be read, or else the window in use cannot, the run raises
    the [ValueError] that quotes the text, after the lines for absent
    attributes and whatever the instances are. *)
Theorem unreadable_assembly_attribute_raises cfgb cfgw ab aw e :
  int_of_str 10 (assembly_text ab cfgb) = Err e
  \/ ((exists z, int_of_str 10 (assembly_text ab cfgb) = Ok z)
      /\ int_of_str 10 (assembly_text aw cfgw) = Err e) ->
  exists text,
    e = ValueError_int 10 text
    /\ forall insts,
         compute_base_ids cfgb cfgw ab aw insts
         = (defaults_log cfgb cfgw ab aw, Err e).
Proof.
  intros [Hb|[[z Hb] Hw]].
  - exists (assembly_text ab cfgb).
    split; [exact (int_of_str_error _ _ _ Hb)|]. intros insts.
    unfold compute_base_ids, or_default, defaults_log.
    destruct ab as [b|], aw as [w|]; cbn [assembly_text] in Hb;
      cbn [ret info bind app]; rewrite Hb; reflexivity.
  - exists (assembly_text aw cfgw).
    split; [exact (int_of_str_error _ _ _ Hw)|]. intros insts.
    unfold compute_base_ids, or_default, defaults_log.
    destruct ab as [b|], aw as [w|]; cbn [assembly_text] in Hb, Hw;
      cbn [ret info bind app]; rewrite Hb; cbn [lift bind]; rewrite Hw;
      reflexivity.
Qed.

Lemma unreadable_assembly_attribute_raises_witness :
  int_of_str 10 (assembly_text (Some "0x10") "1")
  = Err (ValueError_int 10 "0x10")
  /\ int_of_str 0 "0x10" = Ok 16
  /\ exists text,
       ValueError_int 10 "0x10" = ValueError_int 10 text
       /\ forall insts,
            compute_base_ids "1" "100" (Some "0x10") None insts
            = ([msg_default_window "100"], Err (ValueError_int 10 "0x10")).
Proof.
  assert (H : int_of_str 10 (assembly_text (Some "0x10") "1")
              = Err (ValueError_int 10 "0x10")) by (vm_compute; reflexivity).
  split; [exact H|]. split; [vm_compute; reflexivity|].
  exact (unreadable_assembly_attribute_raises
           "1" "100" (Some "0x10") None _ (or_introl H)).
Defined.

(** X13. An assembly base id of zero or below is taken as 1: the run is
    the run with the assembly base id ["1"]. *)
Theorem nonpositive_assembly_base_id_is_one cfgb cfgw s z aw insts :
  int_of_str 10 s = Ok z -> z <= 0 ->
  compute_base_ids cfgb cfgw (Some s) aw insts
  = compute_base_ids cfgb cfgw (Some "1") aw insts.
Proof.
  intros Hs Hz.
  assert (H1 : int_of_str 10 "1" = Ok 1) by (vm_compute; reflexivity).
  unfold compute_base_ids, or_default. cbn [ret bind app].
  destruct aw as [w|]; cbn [ret info bind app]; rewrite Hs, H1;
    cbn [lift bind];
    replace (z <=? 0) with true by (symmetry; apply Z.leb_le; exact Hz);
    reflexivity.
Qed.

Lemma nonpositive_assembly_base_id_is_one_witness :
  int_of_str 10 "-3" = Ok (-3)
  /\ compute_base_ids "1" "100" (Some "-3") None Samples.mixed
     = compute_base_ids "1" "100" (Some "1") None Samples.mixed.
Proof.
  assert (H : int_of_str 10 "-3" = Ok (-3)) by (vm_compute; reflexivity).
  split; [exact H|].
  apply (nonpositive_assembly_base_id_is_one "1" "100" "-3" (-3) None
                                             Samples.mixed H).
  lia.
Defined.

(** *** [create] *)

Lemma link_instances_log d insts : forall done,
  for_each (link_instance d) insts done
  = (missing_log d insts, Ok (done ++ map (linked d) insts)%list).
Proof.
  induction insts as [|i insts IH]; intros done.
  - cbn. rewrite app_nil_r. reflexivity.
  - cbn [for_each map missing_log flat_map]. unfold link_instance at 1.
    unfold linked at 1. fold (missing_log d insts).
    destruct (dict_get d (inst_type i)) as [c|];
      cbn [info ret bind app]; rewrite IH, <- app_assoc; reflexivity.
Qed.

(** X14. [create] is the run of [__compute_base_ids] on the instances with
    the component objects of the dictionary, an instance of a type that the
    dictionary does not have keeping the one it has, after one line for each
    such instance; with the generation of ids switched off it returns the
    empty list after these lines and raises nothing, whatever the
    components hold. *)
Theorem create_links_then_computes cfgb cfgw d ab aw insts :
  create cfgb cfgw true d ab aw insts
  = ((missing_log d insts
        ++ fst (compute_base_ids cfgb cfgw ab aw (map (linked d) insts)))%list,
     snd (compute_base_ids cfgb cfgw ab aw (map (linked d) insts)))
  /\ create cfgb cfgw false d ab aw insts = (missing_log d insts, Ok []).
Proof.
  unfold create. rewrite (link_instances_log d insts []). cbn [app]. split.
  - apply bind_log.
  - cbn [bind ret]. rewrite app_nil_r. reflexivity.
Qed.

End RunFacts.

(* ================================================================= *)
(** ** Decimal and hexadecimal literals *)

Module Literals.
Import Py LogM TopoFactory Props IdParser.

(** *** Characters *)

Lemma digit_cases (c : ascii) :
  is_digit c = true ->
  In c ["0"; "1"; "2"; "3"; "4"; "5"; "6"; "7"; "8"; "9"]%char.
Proof.
  destruct c as [[] [] [] [] [] [] [] []]; intros H;
    try discriminate H; cbn; tauto.
Qed.

Lemma hex_cases (c : ascii) :
  is_digit_of 16 c ->
  In c ["0"; "1"; "2"; "3"; "4"; "5"; "6"; "7"; "8"; "9";
        "a"; "b"; "c"; "d"; "e"; "f"; "A"; "B"; "C"; "D"; "E"; "F"]%char.
Proof.
  intros [d [Hd Hlt]].
  destruct c as [[] [] [] [] [] [] [] []]; vm_compute in Hd;
    try discriminate Hd; inversion Hd; subst d;
    try (exfalso; vm_compute in Hlt; discriminate Hlt); cbn; tauto.
Qed.

Ltac by_cases H :=
  cbn [In] in H;
  repeat (destruct H as [H|H]; [subst; vm_compute; reflexivity|]);
  destruct H.

Lemma digit_is_decimal (c : ascii) :
  is_digit c = true -> is_digit_of 10 c /\ digit_of c = code c - 48.
Proof.
  intros H. apply digit_cases in H. cbn [In] in H.
  repeat (destruct H as [H|H];
          [subst; split; [eexists; split; [vm_compute; reflexivity|reflexivity]
                         |vm_compute; reflexivity]|]).
  destruct H.
Qed.


Lemma hex_is_plain (c : ascii) :
  is_digit_of 16 c -> is_space c = false /\ Ascii.eqb c "_" = false.
Proof.
  intros H. apply hex_cases in H. cbn [In] in H.
  repeat (destruct H as [H|H]; [subst; split; reflexivity|]). destruct H.
Qed.

Lemma digit_is_hex (c : ascii) : is_digit c = true -> is_digit_of 16 c.
Proof.
  intros H. destruct (digit_is_decimal c H) as [[d [Hd Hlt]] _].
  exists d. split; [exact Hd|lia].
Qed.

Lemma digit_is_plain (c : ascii) :
  is_digit c = true -> is_space c = false /\ Ascii.eqb c "_" = false.
Proof. intros H. exact (hex_is_plain c (digit_is_hex c H)). Qed.

(** *** White space and underscores *)

Lemma lstrip_plain (c : ascii) (r : list ascii) :
  is_space c = false -> lstrip (c :: r) = c :: r.
Proof. intros H. cbn [lstrip]. rewrite H. reflexivity. Qed.

Lemma strip_plain (s : list ascii) :
  Forall (fun c => is_space c = false) s -> strip s = s.
Proof.
  intros H. unfold strip. destruct s as [|c r]; [reflexivity|].
  rewrite (lstrip_plain c r (Forall_inv H)).
  destruct (rev (c :: r)) as [|x t] eqn:E.
  - apply (f_equal (@rev ascii)) in E. rewrite rev_involutive in E. exact (eq_sym E).
  - assert (Hx : is_space x = false).
    { apply Forall_rev in H. rewrite E in H. exact (Forall_inv H). }
    rewrite (lstrip_plain x t Hx), <- E. apply rev_involutive.
Qed.

Lemma remove_underscores_cons (prev : option ascii) (c : ascii)
      (r : list ascii) :
  Ascii.eqb c "_" = false -> prev <> Some "_"%char ->
  remove_underscores prev (c :: r)
  = option_map (cons c) (remove_underscores (Some c) r).
Proof.
  intros Hc Hp. cbn [remove_underscores]. rewrite Hc.
  destruct prev as [p|]; [|reflexivity].
  destruct p as [[] [] [] [] [] [] [] []]; try reflexivity.
  exfalso. apply Hp. reflexivity.
Qed.

Lemma remove_underscores_plain (s : list ascii) : forall prev,
  Forall (fun c => Ascii.eqb c "_" = false) s ->
  prev <> Some "_"%char ->
  remove_underscores prev s = Some s.
Proof.
  induction s as [|c r IH]; intros prev H Hp.
  - cbn. destruct prev as [p|]; [|reflexivity].
    destruct p as [[] [] [] [] [] [] [] []]; try reflexivity.
    exfalso. apply Hp. reflexivity.
  - rewrite (remove_underscores_cons prev c r (Forall_inv H) Hp).
    rewrite (IH (Some c) (Forall_inv_tail H)); [reflexivity|].
    intros E. inversion E; subst c. pose proof (Forall_inv H) as Hc.
    discriminate Hc.
Qed.

(** *** Digits *)

Lemma digits_us_plain (base : Z) (ds : list ascii) : forall acc n,
  Forall (is_digit_of base) ds ->
  digits_us base ds acc n false
  = Some (fold_left (fun a c => a * base + digit_of c) ds acc,
          (n + List.length ds)%nat).
Proof.
  induction ds as [|c r IH]; intros acc n H.
  - cbn. rewrite Nat.add_0_r. reflexivity.
  - destruct (Forall_inv H) as [d [Hd Hlt]]. cbn [digits_us fold_left].
    assert (Hu : Ascii.eqb c "_" = false).
    { destruct (Ascii.eqb_spec c "_"%char) as [->|]; [|reflexivity].
      vm_compute in Hd. discriminate Hd. }
    assert (Hv : digit_of c = d) by (unfold digit_of; rewrite Hd; reflexivity).
    rewrite Hu, Hd, Hv. replace (d <? base) with true
      by (symmetry; apply Z.ltb_lt; exact Hlt).
    rewrite (IH _ _ (Forall_inv_tail H)).
    cbn [List.length]. rewrite Nat.add_succ_r. reflexivity.
Qed.

Lemma take_digits_all (ds : list ascii) : forall acc n,
  Forall (fun c => is_digit c = true) ds ->
  take_digits ds acc n
  = (fold_left (fun a c => a * 10 + digit_of c) ds acc,
     (n + List.length ds)%nat, []).
Proof.
  induction ds as [|c r IH]; intros acc n H.
  - cbn. rewrite Nat.add_0_r. reflexivity.
  - cbn [take_digits fold_left]. rewrite (Forall_inv H).
    rewrite (IH _ _ (Forall_inv_tail H)).
    destruct (digit_is_decimal c (Forall_inv H)) as [_ ->].
    cbn [List.length]. rewrite Nat.add_succ_r. reflexivity.
Qed.

Lemma number_of_bounds (base : Z) (ds : list ascii) : forall acc,
  0 < base -> 0 <= acc ->
  0 <= fold_left (fun a c => a * base + digit_of c) ds acc.
Proof.
  induction ds as [|c r IH]; intros acc Hb Ha; cbn [fold_left]; [exact Ha|].
  apply IH; [exact Hb|]. unfold digit_of.
  destruct (digit_value c) as [d|] eqn:E; [|nia].
  assert (0 <= d).
  { unfold digit_value in E.
    destruct ((48 <=? code c) && (code c <=? 57)) eqn:E1;
      [inversion E; apply andb_prop in E1; destruct E1 as [E1 _];
       apply Z.leb_le in E1; lia|].
    destruct ((97 <=? code c) && (code c <=? 122)) eqn:E2;
      [inversion E; apply andb_prop in E2; destruct E2 as [E2 _];
       apply Z.leb_le in E2; lia|].
    destruct ((65 <=? code c) && (code c <=? 90)) eqn:E3;
      [inversion E; apply andb_prop in E3; destruct E3 as [E3 _];
       apply Z.leb_le in E3; lia|discriminate]. }
  nia.
Qed.


(** *** Rounding *)

(** Below [2^53] the rounding to binary64 and the truncation give the
    integer back. *)
Lemma round_exact (n : Z) :
  0 <= n < 2 ^ 53 -> int_of_float (round_binary64 false n 1) = Ok n.
Proof.
  intros [H0 H1]. unfold round_binary64.
  destruct (n =? 0) eqn:E0.
  - apply Z.eqb_eq in E0. subst. reflexivity.
  - apply Z.eqb_neq in E0. assert (Hn : 0 < n) by lia.
    rewrite Z.log2_1, Z.sub_0_r.
    destruct (Z.log2_spec n Hn) as [Hlo Hhi].
    pose proof (Z.log2_nonneg n) as Hk.
    assert (Hk53 : Z.log2 n < 53) by (apply Z.log2_lt_pow2; assumption).
    set (k := Z.log2 n) in *.
    assert (Hge : ge_pow2 n 1 k = true).
    { unfold ge_pow2.
      replace (0 <=? k) with true by (symmetry; apply Z.leb_le; lia).
      apply Z.leb_le. lia. }
    rewrite Hge. cbv zeta.
    replace (Z.max (k - 52) (-1074)) with (k - 52) by lia.
    destruct (Z.eq_dec k 52) as [Hk52|Hne].
    + rewrite Hk52. change (52 - 52) with 0. change (0 <=? 0) with true.
      cbv iota. rewrite !Z.pow_0_r, !Z.mul_1_r, !Z.div_1_r, !Z.mod_1_r.
      change (2 * 0 <? 1) with true. cbv iota.
      destruct (2 ^ 1024 <=? n) eqn:Ebig.
      * exfalso. apply Z.leb_le in Ebig.
        assert (2 ^ 53 < 2 ^ 1024) by (apply Z.pow_lt_mono_r; lia). lia.
      * cbn [andb int_of_float]. change (0 <=? 0) with true. cbv iota.
        rewrite Z.pow_0_r, Z.mul_1_r. reflexivity.
    + replace (0 <=? k - 52) with false by (symmetry; apply Z.leb_gt; lia).
      cbv iota. rewrite Z.div_1_r, Z.mod_1_r.
      change (2 * 0 <? 1) with true. cbv iota. cbn [andb int_of_float].
      replace (0 <=? k - 52) with false by (symmetry; apply Z.leb_gt; lia).
      rewrite Z.div_mul; [reflexivity|].
      apply Z.pow_nonzero; lia.
Qed.

(** *** Decimal literals *)

Lemma parse_float_digits (c : ascii) (r : list ascii) :
  Forall (fun x => is_digit x = true) (c :: r) ->
  parse_float (c :: r)
  = Some (float_of_decimal false (number_of 10 (c :: r)) 0).
Proof.
  intros H. unfold parse_float.
  assert (Hs : split_sign (c :: r) = (false, c :: r)).
  { pose proof (digit_cases c (Forall_inv H)) as Hc. by_cases Hc. }
  rewrite Hs.
  assert (Hw : forall w,
             In w ["inf"; "infinity"; "nan"] ->
             String.eqb (string_of_list_ascii (map lower (c :: r))) w = false).
  { intros w Hw. pose proof (digit_cases c (Forall_inv H)) as Hc.
    cbn [In] in Hw.
    repeat (destruct Hw as [Hw|Hw]; [subst w; by_cases Hc|]). destruct Hw. }
  rewrite (Hw "inf"), (Hw "infinity"), (Hw "nan") by (cbn; tauto).
  cbn [orb]. rewrite (take_digits_all (c :: r) 0 0%nat H).
  cbn [List.length Nat.add take_exponent Z.of_nat]. reflexivity.
Qed.


Lemma digits_plain (ds : list ascii) :
  Forall (fun c => is_digit c = true) ds ->
  Forall (fun c => is_space c = false) ds
  /\ Forall (fun c => Ascii.eqb c "_" = false) ds.
Proof.
  intros H. split; eapply Forall_impl; try exact H; intros c Hc;
    apply (digit_is_plain c Hc).
Qed.

(** X15. A text of decimal digits that denotes a number below [2^53] is
    read by the id parser as that number: the way through [float] loses
    nothing there. *)
Theorem decimal_literal_reads_exactly (ds : list ascii) :
  ds <> [] ->
  Forall (fun c => is_digit c = true) ds ->
  number_of 10 ds < 2 ^ 53 ->
  id_to_int (string_of_list_ascii ds) = Ok (number_of 10 ds).
Proof.
  intros Hne Hd Hlt. destruct ds as [|c r]; [congruence|].
  destruct (digits_plain _ Hd) as [Hsp Hus].
  apply (id_to_int_float _ (float_of_decimal false (number_of 10 (c :: r)) 0)).
  - unfold float_of_str. rewrite list_ascii_of_string_of_list_ascii.
    rewrite (strip_plain _ Hsp).
    rewrite (remove_underscores_plain _ None Hus) by discriminate.
    rewrite (parse_float_digits c r Hd). reflexivity.
  - unfold float_of_decimal. change (0 <=? 0) with true. cbv iota.
    rewrite Z.pow_0_r, Z.mul_1_r. apply round_exact. split; [|exact Hlt].
    apply number_of_bounds; lia.
Qed.

Lemma decimal_literal_reads_exactly_witness :
  Forall (fun c => is_digit c = true) ["4"; "0"; "9"; "6"]%char
  /\ number_of 10 ["4"; "0"; "9"; "6"]%char < 2 ^ 53
  /\ id_to_int "4096" = Ok 4096.
Proof.
  assert (Hd : Forall (fun c => is_digit c = true) ["4"; "0"; "9"; "6"]%char)
    by (repeat constructor).
  assert (Hlt : number_of 10 ["4"; "0"; "9"; "6"]%char < 2 ^ 53)
    by (vm_compute; reflexivity).
  split; [exact Hd|]. split; [exact Hlt|].
  exact (decimal_literal_reads_exactly ["4"; "0"; "9"; "6"]%char
           ltac:(discriminate) Hd Hlt).
Defined.

(** *** Hexadecimal literals *)

Lemma hex_plain (hs : list ascii) :
  Forall (is_digit_of 16) hs ->
  Forall (fun c => is_space c = false) hs
  /\ Forall (fun c => Ascii.eqb c "_" = false) hs.
Proof.
  intros H. split; eapply Forall_impl; try exact H; intros c Hc;
    apply (hex_is_plain c Hc).
Qed.

Lemma float_rejects_prefix (x : ascii) (hs : list ascii) :
  In x ["x"; "X"]%char ->
  Forall (is_digit_of 16) hs ->
  float_of_str (string_of_list_ascii ("0" :: x :: hs)%char)
  = Err (ValueError_float (string_of_list_ascii ("0" :: x :: hs)%char)).
Proof.
  intros Hx Hh. destruct (hex_plain _ Hh) as [Hsp Hus].
  unfold float_of_str. rewrite list_ascii_of_string_of_list_ascii.
  rewrite strip_plain.
  2:{ constructor; [reflexivity|]. constructor; [|exact Hsp].
      cbn [In] in Hx. destruct Hx as [<-|[<-|[]]]; reflexivity. }
  rewrite remove_underscores_plain; [|idtac|discriminate].
  2:{ constructor; [reflexivity|]. constructor; [|exact Hus].
      cbn [In] in Hx. destruct Hx as [<-|[<-|[]]]; reflexivity. }
  assert (Hp : parse_float ("0" :: x :: hs)%char = None).
  { cbn [In] in Hx. destruct Hx as [<-|[<-|[]]]; reflexivity. }
  rewrite Hp. reflexivity.
Qed.

Lemma parse_int_prefix (base : Z) (x c : ascii) (hs : list ascii) :
  In base [0; 16] ->
  In x ["x"; "X"]%char ->
  Forall (is_digit_of 16) (c :: hs) ->
  parse_int base ("0" :: x :: c :: hs)%char = Some (number_of 16 (c :: hs)).
Proof.
  intros Hb Hx Hh. pose proof (hex_cases c (Forall_inv Hh)) as Hc.
  assert (E : parse_int base ("0" :: x :: c :: hs)%char
              = match digits_us 16 (c :: hs) 0 0%nat false with
                | Some (v, S _) => Some v
                | _ => None
                end).
  { cbn [In] in Hb, Hx, Hc.
    destruct Hb as [<-|[<-|[]]]; destruct Hx as [<-|[<-|[]]];
      repeat (destruct Hc as [Hc|Hc];
              [subst c; cbv -[digits_us]; reflexivity|]);
      destruct Hc. }
  rewrite E, (digits_us_plain 16 (c :: hs) 0 0%nat Hh). reflexivity.
Qed.

(** X16. A text made of [0x] or [0X] and hexadecimal digits is read by the
    id parser as the number the digits denote: [float] refuses the text and
    [int(_, 16)] accepts the prefix. *)
Theorem hex_literal_reads_exactly (x : ascii) (hs : list ascii) :
  In x ["x"; "X"]%char ->
  hs <> [] ->
  Forall (is_digit_of 16) hs ->
  id_to_int (string_of_list_ascii ("0" :: x :: hs)%char)
  = Ok (number_of 16 hs).
Proof.
  intros Hx Hne Hh. destruct hs as [|c r]; [congruence|].
  rewrite (id_to_int_fallback _ _ (float_rejects_prefix x (c :: r) Hx Hh)).
  unfold int_of_str. rewrite list_ascii_of_string_of_list_ascii.
  destruct (hex_plain _ Hh) as [Hsp _].
  rewrite strip_plain.
  2:{ constructor; [reflexivity|]. constructor; [|exact Hsp].
      cbn [In] in Hx. destruct Hx as [<-|[<-|[]]]; reflexivity. }
  rewrite (parse_int_prefix 16 x c r); auto. cbn. auto.
Qed.

Lemma hex_literal_reads_exactly_witness :
  In "x"%char ["x"; "X"]%char
  /\ Forall (is_digit_of 16) ["1"; "A"]%char
  /\ id_to_int "0x1A" = Ok (number_of 16 ["1"; "A"]%char)
  /\ number_of 16 ["1"; "A"]%char = 26.
Proof.
  assert (Hx : In "x"%char ["x"; "X"]%char) by (left; reflexivity).
  assert (Hh : Forall (is_digit_of 16) ["1"; "A"]%char).
  { repeat constructor; eexists; (split; [vm_compute; reflexivity|lia]). }
  split; [exact Hx|]. split; [exact Hh|]. split; [|reflexivity].
  exact (hex_literal_reads_exactly "x"%char ["1"; "A"]%char Hx
           ltac:(discriminate) Hh).
Defined.


(** *** Literals of [int(_, 0)] *)

Lemma int0_decimal (c : ascii) (r : list ascii) :
  Forall (fun x => is_digit x = true) (c :: r) -> c <> "0"%char ->
  int_of_str 0 (string_of_list_ascii (c :: r)) = Ok (number_of 10 (c :: r)).
Proof.
  intros Hd Hc. destruct (digits_plain _ Hd) as [Hsp _].
  unfold int_of_str. rewrite list_ascii_of_string_of_list_ascii.
  rewrite (strip_plain _ Hsp).
  assert (E : parse_int 0 (c :: r)
              = match digits_us 10 (c :: r) 0 0%nat false with
                | Some (v, S _) => Some v
                | _ => None
                end).
  { pose proof (digit_cases c (Forall_inv Hd)) as H. cbn [In] in H.
    destruct H as [H|H]; [congruence|].
    repeat (destruct H as [H|H];
            [subst c; cbv -[digits_us]; reflexivity|]).
    destruct H. }
  rewrite E, (digits_us_plain 10 (c :: r) 0 0%nat); [reflexivity|].
  eapply Forall_impl; [|exact Hd]. intros x Hx.
  exact (proj1 (digit_is_decimal x Hx)).
Qed.

Lemma int0_leading_zero (c : ascii) (r : list ascii) :
  Forall (fun x => is_digit x = true) (c :: r) ->
  number_of 10 ("0" :: c :: r)%char <> 0 ->
  int_of_str 0 (string_of_list_ascii ("0" :: c :: r)%char)
  = Err (ValueError_int 0 (string_of_list_ascii ("0" :: c :: r)%char)).
Proof.
  intros Hd Hv.
  assert (Hd0 : Forall (fun x => is_digit x = true) ("0" :: c :: r)%char)
    by (constructor; [reflexivity|exact Hd]).
  destruct (digits_plain _ Hd0) as [Hsp _].
  unfold int_of_str. rewrite list_ascii_of_string_of_list_ascii.
  rewrite (strip_plain _ Hsp).
  assert (E : parse_int 0 ("0" :: c :: r)%char
              = match digits_us 10 ("0" :: c :: r)%char 0 0%nat false with
                | Some (v, S _) => if negb (v =? 0) then None else Some v
                | _ => None
                end).
  { pose proof (digit_cases c (Forall_inv Hd)) as H. cbn [In] in H.
    repeat (destruct H as [H|H];
            [subst c; cbv -[digits_us Z.eqb]; reflexivity|]).
    destruct H. }
  rewrite E, (digits_us_plain 10 ("0" :: c :: r)%char 0 0%nat).
  - fold (number_of 10 ("0" :: c :: r)%char). cbn [Nat.add List.length].
    replace (number_of 10 ("0" :: c :: r)%char =? 0) with false
      by (symmetry; apply Z.eqb_neq; exact Hv).
    reflexivity.
  - eapply Forall_impl; [|exact Hd0]. intros x Hx.
    exact (proj1 (digit_is_decimal x Hx)).
Qed.

Lemma int0_hex (x c : ascii) (hs : list ascii) :
  In x ["x"; "X"]%char ->
  Forall (is_digit_of 16) (c :: hs) ->
  int_of_str 0 (string_of_list_ascii ("0" :: x :: c :: hs)%char)
  = Ok (number_of 16 (c :: hs)).
Proof.
  intros Hx Hh. destruct (hex_plain _ Hh) as [Hsp _].
  unfold int_of_str. rewrite list_ascii_of_string_of_list_ascii.
  rewrite strip_plain.
  2:{ constructor; [reflexivity|]. constructor; [|exact Hsp].
      cbn [In] in Hx. destruct Hx as [<-|[<-|[]]]; reflexivity. }
  rewrite (parse_int_prefix 0 x c hs); auto. cbn. auto.
Qed.

(** X17. An explicit base id written as decimal digits with a leading zero
    and a value other than zero, such as [010], is refused: the resolver
    raises the [ValueError] that quotes the text before it logs anything or
    looks at the component. *)
Theorem leading_zero_base_id_is_refused id size inst (c : ascii)
        (r : list ascii) :
  inst_base_id inst = Some (string_of_list_ascii ("0" :: c :: r)%char) ->
  Forall (fun x => is_digit x = true) (c :: r) ->
  number_of 10 ("0" :: c :: r)%char <> 0 ->
  set_base_id_list id size inst
  = ([], Err (ValueError_int 0 (string_of_list_ascii ("0" :: c :: r)%char))).
Proof.
  intros Hb Hd Hv. unfold set_base_id_list, resolve_base. rewrite Hb.
  rewrite (int0_leading_zero c r Hd Hv). reflexivity.
Qed.

Lemma leading_zero_base_id_is_refused_witness :
  inst_base_id (Samples.instance "Z" (Some "010") None None)
  = Some (string_of_list_ascii ["0"; "1"; "0"]%char)
  /\ Forall (fun x => is_digit x = true) ["1"; "0"]%char
  /\ number_of 10 ["0"; "1"; "0"]%char <> 0
  /\ set_base_id_list 1 100 (Samples.instance "Z" (Some "010") None None)
     = ([], Err (ValueError_int 0 "010")).
Proof.
  assert (Hd : Forall (fun x => is_digit x = true) ["1"; "0"]%char)
    by (repeat constructor).
  assert (Hv : number_of 10 ["0"; "1"; "0"]%char <> 0)
    by (vm_compute; discriminate).
  split; [reflexivity|]. split; [exact Hd|]. split; [exact Hv|].
  exact (leading_zero_base_id_is_refused 1 100
           (Samples.instance "Z" (Some "010") None None) "1"%char ["0"]%char
           eq_refl Hd Hv).
Defined.


(** X18. An explicit base id written as decimal digits without leading
    zero, or as [0x] or [0X] and hexadecimal digits, is read as the number
    the digits denote: the candidate gets that number as base id when it is
    at least the floor, and the sum of the two otherwise. *)
Theorem base_id_literal_is_read id size inst (s : list ascii) (v : Z)
        window r w :
  inst_base_id inst = Some (string_of_list_ascii s) ->
  (exists c ds, s = c :: ds /\ Forall (fun x => is_digit x = true) (c :: ds)
                /\ c <> "0"%char /\ v = number_of 10 (c :: ds))
  \/ (exists x c hs, s = ("0" :: x :: c :: hs)%char /\ In x ["x"; "X"]%char
                     /\ Forall (is_digit_of 16) (c :: hs)
                     /\ v = number_of 16 (c :: hs)) ->
  literal (inst_base_id_window inst) window ->
  compute_component_base_id_range (inst_component_object inst) = Ok r ->
  spec_window window size r = Some w ->
  exists l c,
    set_base_id_list id size inst = (l, Ok c)
    /\ c_base c = Some (if id >? v then v + id else v).
Proof.
  intros Hb Hform Hw Hr Hs.
  assert (Hv : int_of_str 0 (string_of_list_ascii s) = Ok v /\ 0 <= v).
  { destruct Hform as [[c [ds [-> [Hd [Hc ->]]]]]
                      |[x [c [hs [-> [Hx [Hh ->]]]]]]].
    - split; [exact (int0_decimal c ds Hd Hc)|].
      apply number_of_bounds; lia.
    - split; [exact (int0_hex x c hs Hx Hh)|].
      apply number_of_bounds; lia. }
  destruct Hv as [Hv Hpos].
  assert (Hl : literal (inst_base_id inst) (Some v)).
  { rewrite Hb. exists v. auto. }
  destruct (Resolver.set_base_id_list_total id size inst (Some v) window r w
              Hl Hw Hr Hs) as [l E].
  eexists _, _. split; [exact E|]. cbn [c_base option_map].
  unfold offset_base. rewrite Z.abs_eq by exact Hpos. reflexivity.
Qed.

Lemma base_id_literal_is_read_witness :
  exists l c,
    inst_base_id (Samples.instance "E" (Some "0x5") (Some "3")
                                   (Some Samples.sensor))
    = Some (string_of_list_ascii ["0"; "x"; "5"]%char)
    /\ number_of 16 ["5"]%char = 5
    /\ set_base_id_list 2 100
         (Samples.instance "E" (Some "0x5") (Some "3") (Some Samples.sensor))
       = (l, Ok c)
    /\ c_base c = Some (if 2 >? 5 then 5 + 2 else 5).
Proof.
  assert (Hw : literal (inst_base_id_window
                          (Samples.instance "E" (Some "0x5") (Some "3")
                                            (Some Samples.sensor)))
                       (Some 3))
    by (exists 3; split; [vm_compute|]; reflexivity).
  assert (Hr : compute_component_base_id_range (Some Samples.sensor)
               = Ok (Some 42)) by (vm_compute; reflexivity).
  assert (Hh : Forall (is_digit_of 16) ["5"]%char).
  { repeat constructor. eexists. split; [vm_compute; reflexivity|lia]. }
  destruct (base_id_literal_is_read 2 100
              (Samples.instance "E" (Some "0x5") (Some "3")
                                (Some Samples.sensor))
              ["0"; "x"; "5"]%char 5 (Some 3) (Some 42) 3 eq_refl
              (or_intror
                 (ex_intro _ "x"%char
                    (ex_intro _ "5"%char
                       (ex_intro _ []
                          (conj eq_refl
                             (conj (or_introl eq_refl)
                                (conj Hh eq_refl)))))))
              Hw Hr eq_refl) as [l [c [E Hc]]].
  exists l, c. auto.
Defined.

End Literals.

(* ================================================================= *)
(** ** The base id table *)

Module TableFacts.
Import Py LogM TopoFactory Table Props TableProps.
Import Engine AllocationFacts.

(* ----------------------------------------------------------------- *)
(** *** Strings *)

Lemma str_length_app (s t : string) :
  String.length (s ++ t) = (String.length s + String.length t)%nat.
Proof. induction s as [|c s IH]; cbn; [reflexivity|now rewrite IH]. Qed.

Lemma str_app_assoc (s t u : string) : (s ++ t) ++ u = s ++ t ++ u.
Proof. induction s as [|c s IH]; cbn; [reflexivity|now rewrite IH]. Qed.

Lemma str_app_nil_r (s : string) : s ++ "" = s.
Proof. induction s as [|c s IH]; cbn; [reflexivity|now rewrite IH]. Qed.

Lemma slen_app (s t : string) : slen (s ++ t) = slen s + slen t.
Proof. unfold slen. rewrite str_length_app. lia. Qed.

Lemma slen_nonneg (s : string) : 0 <= slen s.
Proof. unfold slen. lia. Qed.

Lemma length_copies (n : nat) (c : ascii) :
  String.length (copies n (String c "")) = n.
Proof. induction n as [|n IH]; cbn; [reflexivity|now rewrite IH]. Qed.

Lemma slen_times (n : Z) (c : ascii) :
  slen (times n (String c "")) = Z.max 0 n.
Proof. unfold slen, times. rewrite length_copies. lia. Qed.

Lemma length_take (n : nat) (s : string) :
  String.length (take n s) = Nat.min n (String.length s).
Proof.
  revert s. induction n as [|n IH]; intros [|c s]; cbn; try reflexivity.
  now rewrite IH.
Qed.

Lemma length_drop (n : nat) (s : string) :
  String.length (drop n s) = (String.length s - n)%nat.
Proof.
  revert s. induction n as [|n IH]; intros [|c s]; cbn; try reflexivity.
  apply IH.
Qed.

Lemma take_drop (n : nat) (s : string) : take n s ++ drop n s = s.
Proof.
  revert s. induction n as [|n IH]; intros [|c s]; cbn; try reflexivity.
  now rewrite IH.
Qed.

Lemma cut_nonneg (n : Z) (s : string) : 0 <= n -> cut n s = Z.to_nat n.
Proof.
  intros H. unfold cut. destruct (n <? 0) eqn:E; [lia|reflexivity].
Qed.

Lemma slen_upto (n : Z) (s : string) :
  0 <= n -> slen (upto n s) = Z.min n (slen s).
Proof.
  intros H. unfold upto, slen. rewrite cut_nonneg, length_take by exact H. lia.
Qed.

Lemma length_from (n : Z) (s : string) :
  0 < n ->
  (String.length (from n s) <= String.length s
   /\ (0 < String.length s -> String.length (from n s) < String.length s))%nat.
Proof.
  intros H. unfold from. rewrite cut_nonneg, length_drop by lia. lia.
Qed.

Lemma upto_from (n : Z) (s : string) : upto n s ++ from n s = s.
Proof. apply take_drop. Qed.

Lemma slen_center (w : Z) (s : string) :
  slen s <= w -> slen (center w s) = w.
Proof.
  intros H. unfold center. destruct (w - slen s <=? 0) eqn:E.
  - lia.
  - apply Z.leb_gt in E. rewrite !slen_app, !slen_times.
    assert (0 <= (w - slen s) / 2) by (apply Z.div_pos; lia).
    assert ((w - slen s) / 2 <= w - slen s)
      by (apply Z.div_le_upper_bound; lia).
    lia.
Qed.

Lemma slen_cell (w : Z) (s : string) :
  0 <= w -> slen (center w (upto w s)) = w.
Proof.
  intros H. apply slen_center. rewrite slen_upto by exact H. lia.
Qed.

Lemma lines_app (l1 l2 : list string) :
  lines (l1 ++ l2) = lines l1 ++ lines l2.
Proof.
  induction l1 as [|s l1 IH]; cbn [lines app]; [reflexivity|].
  rewrite IH, !str_app_assoc. reflexivity.
Qed.

Lemma eqb_empty (s : string) :
  String.eqb s "" = true <-> String.length s = O.
Proof. destruct s; cbn; split; intros H; congruence. Qed.

(* ----------------------------------------------------------------- *)
(** *** The rows of a candidate *)

Lemma row_turn (d0 d1 d2 d3 d4 d5 : string) :
  rfor_each cell_step (seq 0 (List.length table_info))
            ([d0; d1; d2; d3; d4; d5], "")
  = Ok ([from 23 d0; from 13 d1; from 21 d2; from 26 d3; from 29 d4;
         from 17 d5],
        ((((((((((center 23 (upto 23 d0)
                  ++ " | ") ++ center 13 (upto 13 d1))
                ++ " | ") ++ center 21 (upto 21 d2))
              ++ " | ") ++ center 26 (upto 26 d3))
            ++ " | ") ++ center 29 (upto 29 d4))
          ++ " | ") ++ center 17 (upto 17 d5))).
Proof. reflexivity. Qed.

Lemma row_width (d0 d1 d2 d3 d4 d5 : string) :
  slen ((((((((((center 23 (upto 23 d0)
                  ++ " | ") ++ center 13 (upto 13 d1))
                ++ " | ") ++ center 21 (upto 21 d2))
              ++ " | ") ++ center 26 (upto 26 d3))
            ++ " | ") ++ center 29 (upto 29 d4))
          ++ " | ") ++ center 17 (upto 17 d5)) = 144.
Proof.
  rewrite !slen_app, !slen_cell by lia.
  change (slen " | ") with 3. lia.
Qed.

Lemma all_zero_spec (d0 d1 d2 d3 d4 d5 : string) :
  all_items_length_zero [d0; d1; d2; d3; d4; d5] = true
  <-> turns [d0; d1; d2; d3; d4; d5] = O.
Proof.
  unfold all_items_length_zero, turns, slen. cbn [forallb fold_right].
  rewrite !andb_true_iff, !Z.eqb_eq. lia.
Qed.

Lemma rows_spec (fuel : nat) :
  forall d0 d1 d2 d3 d4 d5 : string,
  exists l d',
    Forall (fun s => slen s = 144) l
    /\ (forall b, rows fuel [d0; d1; d2; d3; d4; d5] b
                  = (l, Ok (d', b ++ lines l)))
    /\ ((turns [d0; d1; d2; d3; d4; d5] <= fuel)%nat ->
        all_items_length_zero d' = true)
    /\ (turns [d0; d1; d2; d3; d4; d5] <> O -> fuel <> O -> l <> []).
Proof.
  induction fuel as [|fuel IH]; intros d0 d1 d2 d3 d4 d5.
  - exists [], [d0; d1; d2; d3; d4; d5]. split; [constructor|].
    split; [|split].
    + intros b. cbn [rows lines]. rewrite str_app_nil_r.
      destruct (all_items_length_zero _); reflexivity.
    + intros H. apply all_zero_spec. lia.
    + intros _ H. congruence.
  - destruct (all_items_length_zero [d0; d1; d2; d3; d4; d5]) eqn:Ez.
    + exists [], [d0; d1; d2; d3; d4; d5]. split; [constructor|].
      split; [|split].
      * intros b. cbn [rows lines]. rewrite Ez, str_app_nil_r. reflexivity.
      * intros _. exact Ez.
      * intros H. apply all_zero_spec in Ez. congruence.
    + destruct (IH (from 23 d0) (from 13 d1) (from 21 d2) (from 26 d3)
                   (from 29 d4) (from 17 d5)) as [l [d' [Hw [Hr [Hz _]]]]].
      eexists (_ :: l), d'. split; [|split; [|split]].
      * constructor; [apply row_width|exact Hw].
      * intros b. cbn [rows]. rewrite Ez, row_turn.
        cbn [lift bind info]. rewrite Hr. cbn [app lines].
        rewrite !str_app_assoc. reflexivity.
      * intros Hf. apply Hz.
        assert (Hn : turns [d0; d1; d2; d3; d4; d5] <> O).
        { intros H. apply all_zero_spec in H. congruence. }
        unfold turns in *. cbn [fold_right] in *.
        pose proof (length_from 23 d0 ltac:(lia)).
        pose proof (length_from 13 d1 ltac:(lia)).
        pose proof (length_from 21 d2 ltac:(lia)).
        pose proof (length_from 26 d3 ltac:(lia)).
        pose proof (length_from 29 d4 ltac:(lia)).
        pose proof (length_from 17 d5 ltac:(lia)).
        lia.
      * intros _ _ H. discriminate H.
Qed.


(* ----------------------------------------------------------------- *)
(** *** The wrapped descriptions *)

Lemma frame_width (ts : Z) (out : string) :
  slen out <= ts ->
  slen ("| " ++ out ++ times (ts - slen out) " " ++ " |") = ts + 4.
Proof.
  intros H. rewrite !slen_app, slen_times.
  change (slen "| ") with 2. change (slen " |") with 2. lia.
Qed.

Lemma wrap_spec (ts tl : Z) (fuel : nat) :
  0 <= tl < ts ->
  forall (desc : string) (firstRun : bool),
  exists l desc' firstRun',
    Forall (fun s => slen s = ts + 4) l
    /\ (forall b, wrap fuel ts tl (desc, firstRun, b)
                  = (l, Ok (desc', firstRun', b ++ lines l)))
    /\ ((String.length desc <= fuel)%nat -> desc' = "").
Proof.
  intros Hs. induction fuel as [|fuel IH]; intros desc firstRun.
  - exists [], desc, firstRun. split; [constructor|]. split.
    + intros b. cbn [wrap lines]. rewrite str_app_nil_r.
      destruct (String.eqb desc ""); reflexivity.
    + intros H. destruct desc; [reflexivity|cbn in H; lia].
  - destruct (String.eqb desc "") eqn:E.
    + exists [], desc, firstRun. split; [constructor|]. split.
      * intros b. cbn [wrap lines]. rewrite E, str_app_nil_r. reflexivity.
      * intros _. apply String.eqb_eq. exact E.
    + assert (Hd : (0 < String.length desc)%nat).
      { destruct desc; [discriminate E|cbn; lia]. }
      destruct firstRun.
      * destruct (IH (from ts desc) false) as [l [d' [f' [Hw [Hr Hz]]]]].
        exists (("| " ++ upto ts desc
                      ++ times (ts - slen (upto ts desc)) " " ++ " |") :: l),
          d', f'.
        split; [|split].
        -- constructor; [|exact Hw]. apply frame_width.
           rewrite slen_upto by lia. lia.
        -- intros b. cbn [wrap]. rewrite E. cbn [bind info].
           rewrite Hr. cbn [app lines]. rewrite !str_app_assoc. reflexivity.
        -- intros Hf. apply Hz.
           pose proof (length_from ts desc ltac:(lia)). lia.
      * destruct (IH (from (ts - tl) desc) false)
          as [l [d' [f' [Hw [Hr Hz]]]]].
        exists (("| " ++ (times tl " " ++ upto (ts - tl) desc)
                      ++ times (ts - slen (times tl " "
                                           ++ upto (ts - tl) desc)) " "
                      ++ " |") :: l), d', f'.
        split; [|split].
        -- constructor; [|exact Hw]. apply frame_width.
           rewrite slen_app, slen_times, slen_upto by lia.
           pose proof (slen_nonneg desc). lia.
        -- intros b. cbn [wrap]. rewrite E. cbn [bind info].
           rewrite Hr. cbn [app lines]. rewrite !str_app_assoc. reflexivity.
        -- intros Hf. apply Hz.
           pose proof (length_from (ts - tl) desc ltac:(lia)). lia.
Qed.

Lemma describe_spec (ts lc : Z) (header : string * Z * string) :
  0 <= lc + 3 < ts ->
  exists l,
    Forall (fun s => slen s = ts + 4) l
    /\ forall b, describe ts lc b header = (l, Ok (b ++ lines l)).
Proof.
  intros Hs. destruct header as [[h0 h1] h2]. unfold describe.
  destruct (wrap_spec ts (lc + 3)
              (String.length
                 (h0 ++ times (lc - slen h0) " " ++ " - " ++ h2))
              Hs (h0 ++ times (lc - slen h0) " " ++ " - " ++ h2) true)
    as [l [d' [f' [Hw [Hr _]]]]].
  exists l. split; [exact Hw|]. intros b. rewrite Hr. cbn [bind ret].
  rewrite app_nil_r. reflexivity.
Qed.

Lemma describe_all (ts lc : Z) (headers : list (string * Z * string)) :
  0 <= lc + 3 < ts ->
  exists l,
    Forall (fun s => slen s = ts + 4) l
    /\ forall b, for_each (describe ts lc) headers b = (l, Ok (b ++ lines l)).
Proof.
  intros Hs. induction headers as [|h r IH].
  - exists []. split; [constructor|]. intros b. cbn [for_each lines].
    rewrite str_app_nil_r. reflexivity.
  - destruct (describe_spec ts lc h Hs) as [l1 [H1 E1]].
    destruct IH as [l2 [H2 E2]].
    exists (l1 ++ l2)%list. split; [apply Forall_app; auto|].
    intros b. cbn [for_each]. rewrite E1. cbn [bind]. rewrite E2.
    rewrite lines_app, str_app_assoc. reflexivity.
Qed.

Lemma table_sizes : fold_left sizes_step table_info (0, 0) = (129, 29).
Proof. vm_compute. reflexivity. Qed.

Lemma comments_spec :
  Forall (fun s => slen s = 133) box_lines
  /\ forall b, print_base_id_table_comments b
               = (box_lines, Ok (b ++ lines box_lines)).
Proof.
  destruct (describe_all 129 29 table_info ltac:(lia)) as [l [Hw E]].
  assert (Hd : slen (times (129 + 4) "-") = 133)
    by (rewrite slen_times; lia).
  assert (Hall : forall b,
             print_base_id_table_comments b
             = (times (129 + 4) "-" :: (l ++ [times (129 + 4) "-"])%list,
                Ok (b ++ lines (times (129 + 4) "-"
                                  :: (l ++ [times (129 + 4) "-"])%list)))).
  { intros b. unfold print_base_id_table_comments. rewrite table_sizes.
    cbn [bind info]. rewrite E. cbn [bind info ret app].
    cbn [lines]. rewrite lines_app. cbn [lines].
    rewrite !str_app_assoc. reflexivity. }
  assert (Hb : box_lines
               = (times (129 + 4) "-" :: l ++ [times (129 + 4) "-"])%list).
  { unfold box_lines. rewrite Hall. reflexivity. }
  rewrite Hb. split; [|exact Hall].
  constructor; [exact Hd|]. apply Forall_app. split; [exact Hw|].
  constructor; [exact Hd|constructor].
Qed.


(* ----------------------------------------------------------------- *)
(** *** Pass 5 *)

Lemma bind_step {A B C} (l1 : list string) (a : A) (f : A -> M B)
      (g : B -> M C) :
  bind (bind (l1, Ok a) f) g
  = ((l1 ++ fst (bind (f a) g))%list, snd (bind (f a) g)).
Proof.
  cbn [bind]. destruct (f a) as [l2 [b|e]]; cbn [bind fst snd].
  - destruct (g b) as [l3 r]. cbn [fst snd]. rewrite app_assoc. reflexivity.
  - reflexivity.
Qed.

Lemma header_width : slen header_line = 144.
Proof. vm_compute. reflexivity. Qed.

Lemma packed_has_base (np : Z) (l : list Cand) :
  packed np l -> Forall has_base l.
Proof.
  revert np. induction l as [|c r IH]; intros np H; [constructor|].
  destruct H as [b [Hb [_ Hr]]]. constructor; [exists b; exact Hb|].
  exact (IH _ Hr).
Qed.

Lemma explicit_has_base (l : list Cand) :
  forallb explicit l = true <-> Forall has_base l.
Proof.
  induction l as [|c r IH]; cbn [forallb].
  - split; [constructor|reflexivity].
  - rewrite andb_true_iff, IH. unfold explicit, has_base. split.
    + intros [H1 H2]. constructor; [|exact H2].
      destruct (c_base c) as [b|]; [exists b; reflexivity|discriminate H1].
    + intros H. inversion H as [|? ? [b Hb] H2]; subst. rewrite Hb. auto.
Qed.

Section Accessor.

Variable acc : Instance -> option string.

Lemma print_header (w : window_size) (b : string) :
  print_base_id_table acc None w b
  = ([header_line], Ok (b ++ lines [header_line])).
Proof.
  cbn [print_base_id_table bind info ret app lines].
  rewrite (str_app_nil_r nl). reflexivity.
Qed.

Lemma print_unbased (t : Cand) (w : window_size) (b : string) :
  c_base t = None ->
  print_base_id_table acc (Some t) w b = ([], Err TypeError).
Proof.
  intros H. unfold print_base_id_table. rewrite H. reflexivity.
Qed.

Lemma print_candidate (t : Cand) (x : Z) (w : window_size) :
  c_base t = Some x ->
  exists l,
    Forall (fun s => slen s = 144) l
    /\ l <> []
    /\ forall b, print_base_id_table acc (Some t) w b = (l, Ok (b ++ lines l)).
Proof.
  intros Hb.
  destruct (rows_spec
              (turns [c_name t; str x ++ " (" ++ hex x ++ ")";
                      str (c_window t)
                      ++ match acc (c_inst t) with
                         | None => " (D)"
                         | Some _ => ""
                         end;
                      str_window w; str_opt (c_range t);
                      str_opt (c_amount t)])
              (c_name t) (str x ++ " (" ++ hex x ++ ")")
              (str (c_window t)
               ++ match acc (c_inst t) with
                  | None => " (D)"
                  | Some _ => ""
                  end)
              (str_window w) (str_opt (c_range t)) (str_opt (c_amount t)))
    as [l [d' [Hw [Hr [_ Hne]]]]].
  assert (Hpos : turns [c_name t; str x ++ " (" ++ hex x ++ ")";
                        str (c_window t)
                        ++ match acc (c_inst t) with
                           | None => " (D)"
                           | Some _ => ""
                           end;
                        str_window w; str_opt (c_range t);
                        str_opt (c_amount t)] <> O).
  { unfold turns. cbn [fold_right]. rewrite !str_length_app.
    cbn [String.length]. lia. }
  exists l. split; [exact Hw|]. split; [exact (Hne Hpos Hpos)|].
  intros b. unfold print_base_id_table. rewrite Hb.
  cbn [lift the_int bind app]. rewrite Hr. cbn [bind ret app].
  rewrite app_nil_r. reflexivity.
Qed.

Lemma rows_of_eq (t : Cand) (w : window_size) (b : string) :
  has_base t ->
  print_base_id_table acc (Some t) w b
  = (rows_of acc (t, w), Ok (b ++ lines (rows_of acc (t, w)))).
Proof.
  intros [x Hx]. destruct (print_candidate t x w Hx) as [l [_ [_ E]]].
  unfold rows_of. cbn [fst snd]. rewrite (E ""), (E b). reflexivity.
Qed.

Lemma rows_of_width (tw : Cand * window_size) :
  Forall (fun s => slen s = 144) (rows_of acc tw).
Proof.
  destruct tw as [t w]. unfold rows_of. cbn [fst snd].
  destruct (c_base t) as [x|] eqn:Hx.
  - destruct (print_candidate t x w Hx) as [l [Hw [_ E]]].
    rewrite (E ""). exact Hw.
  - rewrite print_unbased by exact Hx. constructor.
Qed.

Lemma tail_based (out : list Cand) :
  forall (p : Cand) (act : window_size) (b : string),
  has_base p -> Forall has_base out ->
  ('(prev, _, sb) <- for_each (pass5_step acc) out (Some p, act, b) ;;
   print_base_id_table acc prev (Text "inf.") sb)
  = (flat_map (rows_of acc) (with_next (p :: out)),
     Ok (b ++ lines (flat_map (rows_of acc) (with_next (p :: out))))).
Proof.
  induction out as [|t r IH]; intros p act b Hp Hout.
  - cbn [for_each ret bind app with_next flat_map].
    rewrite (rows_of_eq p (Text "inf.") b Hp), app_nil_r. reflexivity.
  - pose proof (Forall_inv Hout) as Ht.
    pose proof (Forall_inv_tail Hout) as Hr.
    destruct Hp as [y Hy]. destruct Ht as [x Hx].
    assert (E : pass5_step acc (Some p, act, b) t
                = (rows_of acc (p, Size (x - y)),
                   Ok (Some t, Size (x - y),
                       b ++ lines (rows_of acc (p, Size (x - y)))))).
    { unfold pass5_step. rewrite Hx, Hy. cbn [the_int rbind lift bind app].
      rewrite (rows_of_eq p (Size (x - y)) b (ex_intro _ y Hy)).
      cbn [bind ret]. rewrite app_nil_r. reflexivity. }
    cbn [for_each]. rewrite E, bind_step.
    rewrite (IH t (Size (x - y)) _ (ex_intro _ x Hx) Hr).
    cbn [fst snd].
    change (with_next (p :: t :: r))
      with ((p, Size (base_of t - base_of p)) :: with_next (t :: r)).
    change (flat_map (rows_of acc)
              ((p, Size (base_of t - base_of p)) :: with_next (t :: r)))
      with (rows_of acc (p, Size (base_of t - base_of p))
            ++ flat_map (rows_of acc) (with_next (t :: r)))%list.
    unfold base_of. rewrite Hx, Hy.
    rewrite lines_app, str_app_assoc. reflexivity.
Qed.

Lemma tail_unbased (out : list Cand) :
  forall (p : Cand) (act : window_size) (b : string),
  forallb explicit (p :: out) = false ->
  exists l,
    ('(prev, _, sb) <- for_each (pass5_step acc) out (Some p, act, b) ;;
     print_base_id_table acc prev (Text "inf.") sb)
    = (l, Err TypeError).
Proof.
  induction out as [|t r IH]; intros p act b H.
  - cbn [forallb] in H. rewrite andb_true_r in H. unfold explicit in H.
    destruct (c_base p) as [y|] eqn:Hy; [discriminate H|].
    exists []. cbn [for_each ret bind app].
    rewrite print_unbased by exact Hy. reflexivity.
  - cbn [for_each]. unfold pass5_step at 1.
    destruct (c_base t) as [x|] eqn:Hx;
      [|exists []; cbn [the_int rbind lift bind]; reflexivity].
    destruct (c_base p) as [y|] eqn:Hy;
      [|exists []; cbn [the_int rbind lift bind]; reflexivity].
    cbn [the_int rbind lift bind app].
    rewrite (rows_of_eq p (Size (x - y)) b (ex_intro _ y Hy)).
    cbn [bind ret]. rewrite app_nil_r.
    change (for_each (pass5_step acc) r ?st)
      with (for_each (pass5_step acc) r st).
    assert (Hr : forallb explicit (t :: r) = false).
    { change (forallb explicit (p :: t :: r))
        with (explicit p && forallb explicit (t :: r)) in H.
      unfold explicit at 1 in H. rewrite Hy in H. exact H. }
    destruct (IH t (Size (x - y))
                 (b ++ lines (rows_of acc (p, Size (x - y)))) Hr) as [l E].
    exists (rows_of acc (p, Size (x - y)) ++ l)%list.
    destruct (for_each (pass5_step acc) r
                (Some t, Size (x - y),
                 b ++ lines (rows_of acc (p, Size (x - y)))))
      as [l2 [[[prev a] sb]|e]]; cbn [bind] in E |- *.
    + destruct (print_base_id_table acc prev (Text "inf.") sb) as [l3 r3].
      injection E as <- ->. rewrite app_assoc. reflexivity.
    + injection E as <- ->. reflexivity.
Qed.

Lemma pass5_eq (out : list Cand) :
  pass5 acc out
  = (l <- ('(prev, _, sb) <- for_each (pass5_step acc) out (None, Size 0, "") ;;
           print_base_id_table acc prev (Text "inf.") sb) ;;
     print_base_id_table_comments l).
Proof.
  unfold pass5.
  destruct (for_each (pass5_step acc) out (None, Size 0, ""))
    as [l1 [[[prev a] sb]|e]]; cbn [bind]; [|reflexivity].
  destruct (print_base_id_table acc prev (Text "inf.") sb) as [l2 [s|e]];
    cbn [bind]; [|reflexivity].
  destruct (print_base_id_table_comments s) as [l3 r3].
  rewrite app_assoc. reflexivity.
Qed.

Lemma first_step (t : Cand) (r : list Cand) :
  ('(prev, _, sb) <- for_each (pass5_step acc) (t :: r) (None, Size 0, "") ;;
   print_base_id_table acc prev (Text "inf.") sb)
  = ((header_line
        :: fst ('(prev, _, sb) <-
                  for_each (pass5_step acc) r
                           (Some t, Size 0, lines [header_line]) ;;
                print_base_id_table acc prev (Text "inf.") sb))%list,
     snd ('(prev, _, sb) <-
            for_each (pass5_step acc) r
                     (Some t, Size 0, lines [header_line]) ;;
          print_base_id_table acc prev (Text "inf.") sb)).
Proof.
  cbn [for_each].
  assert (E : pass5_step acc (None, Size 0, "") t
              = ([header_line], Ok (Some t, Size 0, lines [header_line]))).
  { unfold pass5_step. cbn [lift bind app]. rewrite print_header.
    reflexivity. }
  rewrite E, bind_step. reflexivity.
Qed.

Lemma pass5_based (out : list Cand) :
  Forall has_base out ->
  pass5 acc out
  = ((header_line :: flat_map (rows_of acc) (with_next out) ++ box_lines)%list,
     Ok (lines (header_line :: flat_map (rows_of acc) (with_next out)
                            ++ box_lines)%list)).
Proof.
  intros H. rewrite pass5_eq. destruct comments_spec as [_ Hc].
  destruct out as [|t r].
  - cbn [for_each ret bind app with_next flat_map].
    rewrite print_header. cbn [bind app]. rewrite Hc.
    change (header_line :: box_lines) with ([header_line] ++ box_lines)%list.
    rewrite lines_app. reflexivity.
  - rewrite first_step.
    rewrite (tail_based r t (Size 0) _ (Forall_inv H) (Forall_inv_tail H)).
    cbn [fst snd bind]. rewrite Hc.
    change (header_line :: ?l ++ box_lines)%list
      with (([header_line] ++ l) ++ box_lines)%list.
    rewrite !lines_app, !str_app_assoc. reflexivity.
Qed.

Lemma pass5_unbased (out : list Cand) :
  forallb explicit out = false ->
  exists l, pass5 acc out = (l, Err TypeError).
Proof.
  intros H. rewrite pass5_eq. destruct out as [|t r]; [discriminate H|].
  rewrite first_step.
  destruct (tail_unbased r t (Size 0) (lines [header_line]) H) as [l E].
  rewrite E. cbn [fst snd bind]. eexists. reflexivity.
Qed.

End Accessor.


(** X19. [__print_base_id_table] logs lines that are all as wide as the
    header line, 144 characters; it logs at least one line and adds the
    logged lines, each one ended by a line feed, to the buffer, when it is
    given the header or a candidate with a base id; for a candidate without
    base id it raises a TypeError and logs nothing. *)
Theorem table_rows_span_the_header (acc : Instance -> option string)
        (t : option Cand) (w : window_size) (b : string) :
  Forall (fun s => slen s = slen header_line)
         (fst (print_base_id_table acc t w b))
  /\ slen header_line = 144
  /\ snd (print_base_id_table acc t w b)
     = (if printable t
        then Ok (b ++ lines (fst (print_base_id_table acc t w b)))
        else Err TypeError)
  /\ (fst (print_base_id_table acc t w b) = [] <-> printable t = false).
Proof.
  rewrite header_width. destruct t as [t|].
  - cbn [printable]. unfold explicit.
    destruct (c_base t) as [x|] eqn:Hx.
    + destruct (print_candidate acc t x w Hx) as [l [Hw [Hne E]]].
      rewrite E. cbn [fst snd]. repeat split; auto.
      * intros H. contradiction.
      * intros H. discriminate H.
    + rewrite print_unbased by exact Hx. cbn [fst snd].
      repeat split; auto.
  - rewrite print_header. cbn [fst snd printable]. repeat split.
    + constructor; [exact header_width|constructor].
    + intros H. discriminate H.
    + intros H. discriminate H.
Qed.

(** X20. The loop that wraps a description, for a line width above the
    indentation, is left with the description used up after at most one
    turn for each of its characters; every line it logs is four characters
    wider than the line width, and the logged lines go to the buffer. *)
Theorem description_is_wrapped (tableSize tabLen : Z) (desc : string)
        (firstRun : bool) (b : string) :
  0 <= tabLen < tableSize ->
  exists l firstRun',
    wrap (String.length desc) tableSize tabLen (desc, firstRun, b)
    = (l, Ok ("", firstRun', b ++ lines l))
    /\ Forall (fun s => slen s = tableSize + 4) l.
Proof.
  intros H.
  destruct (wrap_spec tableSize tabLen (String.length desc) H desc firstRun)
    as [l [d' [f' [Hw [E Hz]]]]].
  exists l, f'. rewrite E, (Hz (le_n _)). auto.
Qed.

Lemma description_is_wrapped_witness :
  exists l firstRun',
    wrap (String.length "Base ID set for the instance.") 12 5
         ("Base ID set for the instance.", true, "")
    = (l, Ok ("", firstRun', "" ++ lines l))
    /\ Forall (fun s => slen s = 12 + 4) l.
Proof.
  apply (description_is_wrapped 12 5 "Base ID set for the instance." true "").
  lia.
Defined.

(** X21. [__print_base_id_table_comments] logs the same box for every
    buffer and adds its lines to the buffer; the lines of the box are 133
    characters wide, eleven less than the rows of the table. *)
Theorem comment_box_is_narrower_than_the_table (b : string) :
  print_base_id_table_comments b = (box_lines, Ok (b ++ lines box_lines))
  /\ Forall (fun s => slen s = 133) box_lines
  /\ slen header_line = 133 + 11.
Proof.
  destruct comments_spec as [Hw E]. rewrite E.
  split; [reflexivity|]. split; [exact Hw|exact header_width].
Qed.

(** X22. Pass 5 on candidates that all have base ids logs the header line
    once and first, then the rows of every candidate in the order of the
    list, each one with the distance to the base id of the next candidate
    and the last one with [inf.], then the box of descriptions; the buffer
    for the list file holds exactly the logged lines. *)
Theorem table_layout (acc : Instance -> option string) (out : list Cand) :
  Forall has_base out ->
  pass5 acc out
  = ((header_line :: flat_map (rows_of acc) (with_next out) ++ box_lines)%list,
     Ok (lines (header_line :: flat_map (rows_of acc) (with_next out)
                            ++ box_lines)%list)).
Proof. exact (pass5_based acc out). Qed.

Lemma table_layout_witness :
  Forall has_base Samples.placed_pair
  /\ pass5 inst_base_id_window Samples.placed_pair
     = ((header_line
           :: flat_map (rows_of inst_base_id_window)
                       (with_next Samples.placed_pair) ++ box_lines)%list,
        Ok (lines (header_line
                     :: flat_map (rows_of inst_base_id_window)
                                 (with_next Samples.placed_pair)
                     ++ box_lines)%list)).
Proof.
  assert (H : Forall has_base Samples.placed_pair).
  { repeat constructor; eexists; reflexivity. }
  split; [exact H|]. apply (table_layout inst_base_id_window _ H).
Defined.

(** X23. Pass 5 returns exactly when every candidate of the list has a
    base id, with the logged lines as buffer; otherwise it raises a
    TypeError. *)
Theorem table_needs_base_ids (acc : Instance -> option string)
        (out : list Cand) :
  snd (pass5 acc out)
  = (if forallb explicit out
     then Ok (lines (fst (pass5 acc out)))
     else Err TypeError).
Proof.
  destruct (forallb explicit out) eqn:E.
  - apply explicit_has_base in E. rewrite (pass5_based acc out E).
    reflexivity.
  - destruct (pass5_unbased acc out E) as [l H]. rewrite H. reflexivity.
Qed.

(** X24. Pass 5 does not change the outcome of [__compute_base_ids]: when
    passes 1 to 4 return a list, the table of that list is logged after
    their lines and the list is returned, with the logged table as buffer;
    when they raise, the same exception is raised after the same lines. *)
Theorem table_keeps_the_outcome (acc : Instance -> option string)
        (cfgb cfgw : string) (ab aw : option string) (insts : list Instance) :
  compute_base_ids_with_table acc cfgb cfgw ab aw insts
  = match compute_base_ids cfgb cfgw ab aw insts with
    | (l, Ok out) =>
        ((l ++ header_line
            :: flat_map (rows_of acc) (with_next out) ++ box_lines)%list,
         Ok (out,
             lines (header_line
                      :: flat_map (rows_of acc) (with_next out)
                      ++ box_lines)%list))
    | (l, Err e) => (l, Err e)
    end.
Proof.
  unfold compute_base_ids_with_table.
  destruct (compute_base_ids cfgb cfgw ab aw insts) as [l [out|e]] eqn:E;
    cbn [bind]; [|reflexivity].
  apply compute_base_ids_Ok_inv in E.
  destruct E as [abid [awin [l' [_ [_ Hp]]]]].
  apply passes_keeps in Hp. destruct Hp as [cands [F [_ [_ [_ [_ Hpk]]]]]].
  rewrite (pass5_based acc out (packed_has_base _ _ Hpk)).
  cbn [bind ret]. rewrite app_nil_r. reflexivity.
Qed.

(** X25. The amount of ids of a component is the greatest of three counts:
    the events, the channels plus twice the parameters, and the commands;
    the count of the parameters, the fourth argument of the maximum, never
    decides it.  An instance without component object has no amount. *)
Theorem id_amount_is_one_of_three_counts (c : CompXml) :
  compute_component_ID_amount None = None
  /\ exists m,
       compute_component_ID_amount (Some c) = Some m
       /\ len (comp_events c) <= m
       /\ len (comp_channels c) + 2 * len (comp_parameters c) <= m
       /\ len (comp_commands c) <= m
       /\ (m = len (comp_events c)
           \/ m = len (comp_channels c) + 2 * len (comp_parameters c)
           \/ m = len (comp_commands c)).
Proof.
  split; [reflexivity|]. eexists. split; [reflexivity|].
  unfold len. lia.
Qed.

End TableFacts.
